(** * MCP proxy server: routing, forwarding with retry, aggregation, errors

    A shallow embedding of the request-routing, forwarding, aggregation and
    error-translation core of the proxy (router.ts, request-forwarder.ts,
    response-aggregator.ts, error-handler.ts, models.ts, proxy-server.ts),
    and the properties its specification states about it.

    Conventions of the embedding:
    - a JavaScript value is a [value]; an object is an association list in
      property order. A plain object read by a computed name ([rules],
      [servers]) also answers for the members it inherits from
      [Object.prototype], see [inherited] and [found];
    - a whole number is an integer of [Z], standing for the double that
      holds it; where the program multiplies or divides, the result is a
      [number], with the infinities and NaN of the doubles;
    - a string is the UTF-8 text of the JavaScript string; the program
      searches and compares strings with ASCII text only, which reads
      the same on the bytes;
    - logging is dropped: no control flow depends on it;
    - the network and the clock are an explicit [World] threaded through
      the forwarder, the backends being an arbitrary oracle;
    - the aggregator is given the fan-out as it settled, one
      [ServerMethodResult] per backend, and merges it;
    - a [while] loop runs on fuel and is shown to stop within it. *)

From Stdlib Require Import ZArith Lia List String Ascii Bool.
From stdpp Require Import base strings list pretty.

Set Warnings "-register-all".

Local Open Scope string_scope.
Local Open Scope Z_scope.

(** ** JavaScript values *)

Module JS.

Inductive value : Type :=
| VUndefined
| VNull
| VBool (b : bool)
| VNum (n : Z)
| VStr (s : string)
| VArr (items : list value)
| VObj (fields : list (string * value)).

(** [typeof v === 'object'] *)
Definition typeof_object (v : value) : bool :=
  match v with
  | VNull | VArr _ | VObj _ => true
  | _ => false
  end.

Definition typeof_number (v : value) : bool :=
  match v with VNum _ => true | _ => false end.

Definition typeof_string (v : value) : bool :=
  match v with VStr _ => true | _ => false end.

(** Truthiness: [undefined], [null], [false], [0] and the empty string
    are falsy. *)
Definition truthy (v : value) : bool :=
  match v with
  | VUndefined | VNull => false
  | VBool b => b
  | VNum n => negb (n =? 0)
  | VStr s => negb (String.eqb s EmptyString)
  | VArr _ | VObj _ => true
  end.

(** Own property of an object, first binding of the name. *)
Fixpoint assoc {A : Type} (k : string) (l : list (string * A)) : option A :=
  match l with
  | [] => None
  | (k', v) :: l' => if String.eqb k k' then Some v else assoc k l'
  end.

(** [k in v], for a property name that is neither an index, nor [length],
    nor the name of an inherited member. *)
Definition has_key (k : string) (v : value) : bool :=
  match v with
  | VObj fields => match assoc k fields with Some _ => true | None => false end
  | _ => false
  end.

(** [v.k], for a property name that is neither an index, nor [length],
    nor the name of an inherited member; the source reads it only from a
    value it has checked to be truthy. *)
Definition prop (v : value) (k : string) : value :=
  match v with
  | VObj fields => match assoc k fields with Some x => x | None => VUndefined end
  | _ => VUndefined
  end.

(** [a || b] on strings: the left one unless it is empty. *)
Definition str_or (a : option string) (b : string) : string :=
  match a with
  | Some s => if String.eqb s EmptyString then b else s
  | None => b
  end.

Definition opt_str (o : option string) : value :=
  match o with Some s => VStr s | None => VUndefined end.

Definition lower_ascii (c : ascii) : ascii :=
  let n := nat_of_ascii c in
  if ((65 <=? n) && (n <=? 90))%nat then ascii_of_nat (n + 32) else c.

Definition is_byte (n : nat) (c : ascii) : bool := (nat_of_ascii c =? n)%nat.

(** [s.toLowerCase()], on the characters whose lower case has an ASCII
    letter: A to Z, the Kelvin sign U+212A (bytes 226 132 170), which
    becomes k, and U+0130 (bytes 196 176), which becomes i followed by
    U+0307 (bytes 204 135). Every other character is left as it is: its
    lower case has no ASCII character, and the program only searches
    the lower-cased text for ASCII words or compares it with one. *)
Fixpoint toLowerCase (s : string) : string :=
  match s with
  | EmptyString => EmptyString
  | String c s1 =>
      match s1 with
      | EmptyString => String (lower_ascii c) EmptyString
      | String c2 s2 =>
          if is_byte 196 c && is_byte 176 c2
          then String "i" (String (ascii_of_nat 204)
                             (String (ascii_of_nat 135) (toLowerCase s2)))
          else
            match s2 with
            | EmptyString => String (lower_ascii c) (toLowerCase s1)
            | String c3 s3 =>
                if is_byte 226 c && is_byte 132 c2 && is_byte 170 c3
                then String "k" (toLowerCase s3)
                else String (lower_ascii c) (toLowerCase s1)
            end
      end
  end.

(** [hay.includes(needle)] *)
Fixpoint includes (needle hay : string) : bool :=
  String.prefix needle hay ||
  match hay with
  | EmptyString => false
  | String _ hay' => includes needle hay'
  end.

(** *** Numbers that are not whole *)

(** What the arithmetic of the program gives on whole numbers: a whole
    number, a finite number strictly between [below] and [below + 1], an
    infinity, or NaN. The sign of a zero is not kept. *)
Inductive number :=
| Whole (z : Z)
| Between (below : Z)
| PlusInfinity
| MinusInfinity
| NotANumber.

(** The least power of two that no double holds. *)
Definition overflow : Z := 2 ^ 1024.

(** [b * Math.pow(2, k)] for whole [b] and [k]. The power is exact from
    2^-1074 to 2^1023, [Infinity] above and 0 below; the product by a
    power of two is exact until it overflows, and 0 times [Infinity] is
    NaN. *)
Definition times_pow2 (b k : Z) : number :=
  if 1024 <=? k then
    if b =? 0 then NotANumber
    else if 0 <? b then PlusInfinity else MinusInfinity
  else if 0 <=? k then
    if overflow <=? b * 2 ^ k then PlusInfinity
    else if b * 2 ^ k <=? - overflow then MinusInfinity
    else Whole (b * 2 ^ k)
  else if k <? -1074 then Whole 0
  else if b mod 2 ^ (- k) =? 0 then Whole (b / 2 ^ (- k))
  else Between (b / 2 ^ (- k)).

(** [Math.min(x, cap)] for a whole [cap]. *)
Definition min_with (cap : Z) (x : number) : number :=
  match x with
  | Whole z => Whole (Z.min z cap)
  | Between below => if below <? cap then Between below else Whole cap
  | PlusInfinity => Whole cap
  | MinusInfinity => MinusInfinity
  | NotANumber => NotANumber
  end.

(** *** Plain objects read by a computed name *)

(** The members every plain object inherits from [Object.prototype]. *)
Definition prototype_members : list string :=
  ["constructor"; "__defineGetter__"; "__defineSetter__"; "hasOwnProperty";
   "__lookupGetter__"; "__lookupSetter__"; "isPrototypeOf";
   "propertyIsEnumerable"; "toString"; "valueOf"; "__proto__";
   "toLocaleString"].

Definition inherited (key : string) : bool :=
  existsb (String.eqb key) prototype_members.

(** What [object[key]] gives on a plain object whose own properties hold
    strings: a string, or the inherited member of that name (a built-in
    function, or [Object.prototype] itself for [__proto__]). *)
Inductive found :=
| Text (s : string)
| Builtin (member : string).

(** [String(f)] for a built-in function, as V8 prints it, and for
    [Object.prototype]. *)
Definition builtin_text (member : string) : string :=
  if String.eqb member "__proto__" then "[object Object]"
  else "function "
       ++ (if String.eqb member "constructor" then "Object" else member)
       ++ "() { [native code] }".

(** [String(v)], which is also the property name [v] stands for. *)
Definition text_of (v : found) : string :=
  match v with
  | Text s => s
  | Builtin member => builtin_text member
  end.

End JS.
Export JS.

(** ** models.ts *)

Module Models.

Record MCPRequest := {
  method : string;
  params : value;
  id : option string;
  jsonrpc : string
}.

Definition createMCPRequest (method : string) (params : value)
    (id : option string) : MCPRequest :=
  {| method := method; params := params; id := id; jsonrpc := "2.0" |}.

Definition createMCPResponse (result : value) (id : option string) : value :=
  VObj [("result", result); ("id", opt_str id); ("jsonrpc", VStr "2.0")].

Definition createMCPErrorResponse (code : Z) (message : string)
    (id : option string) (data : value) : value :=
  VObj [("error", VObj [("code", VNum code); ("message", VStr message);
                        ("data", data)]);
        ("id", opt_str id);
        ("jsonrpc", VStr "2.0")].

(** Readers used to state properties of envelopes. *)
Definition error_code (envelope : value) : option Z :=
  match prop (prop envelope "error") "code" with
  | VNum c => Some c
  | _ => None
  end.

Definition error_message (envelope : value) : option string :=
  match prop (prop envelope "error") "message" with
  | VStr m => Some m
  | _ => None
  end.

Definition error_data (envelope : value) : value :=
  prop (prop envelope "error") "data".

End Models.
Export Models.

(** ** request-forwarder.ts *)

Module Forwarder.

Record ForwardingOptions := {
  timeout : option Z;
  maxRetries : option Z;
  retryDelay : option Z
}.

Definition noOptions : ForwardingOptions :=
  {| timeout := None; maxRetries := None; retryDelay := None |}.

Definition defaultOptions : ForwardingOptions :=
  {| timeout := Some 30000; maxRetries := Some 3; retryDelay := Some 1000 |}.

(** [{ ...a, ...b }]: a field of [b] that is present overrides [a]'s. *)
Definition spread (a b : ForwardingOptions) : ForwardingOptions :=
  {| timeout := match timeout b with Some x => Some x | None => timeout a end;
     maxRetries := match maxRetries b with Some x => Some x | None => maxRetries a end;
     retryDelay := match retryDelay b with Some x => Some x | None => retryDelay a end |}.

Definition num (o : option Z) : Z := default 0 o.

(** What [httpClient.post] gives back: it resolves with a response, or it
    rejects with an error the [catch] block inspects. *)
Record AxiosResponse := { status : Z; data : value }.

Record JsError := {
  isAxiosErrorFlag : bool;
  message : string;
  response_status : option Z
}.

Inductive PostResult :=
| Resolved (r : AxiosResponse)
| Rejected (e : JsError).

(** The world: the clock and the effects performed so far. *)
Inductive Event :=
| EvPost (url : string) (request : MCPRequest) (timeout : Z)
| EvSleep (ms : number).

Record World := { now : Z; trace : list Event }.

Definition is_post (e : Event) : bool :=
  match e with EvPost _ _ _ => true | EvSleep _ => false end.

Fixpoint posts (t : list Event) : nat :=
  match t with
  | [] => O
  | e :: t' => if is_post e then S (posts t') else posts t'
  end.

Fixpoint sleeps (t : list Event) : list number :=
  match t with
  | [] => []
  | EvSleep ms :: t' => ms :: sleeps t'
  | EvPost _ _ _ :: t' => sleeps t'
  end.

(** The backends: the outcome of the k-th POST of the run and the time it
    takes, for any address and request. *)
Definition Backend : Type := nat -> string -> MCPRequest -> PostResult * Z.

Definition http_post (backend : Backend) (url : string) (request : MCPRequest)
    (tmo : Z) (w : World) : PostResult * World :=
  let '(r, took) := backend (posts (trace w)) url request in
  (r, {| now := now w + took; trace := trace w ++ [EvPost url request tmo] |}).

(** The time a wait takes: its delay, in whole milliseconds; Node runs
    a timer whose delay is less than 1, more than 2147483647 or NaN
    after 1 ms. *)
Definition elapsed (ms : number) : Z :=
  match ms with
  | Whole z => if (1 <=? z) && (z <=? 2147483647) then z else 1
  | Between below =>
      if (1 <=? below) && (below <? 2147483647) then below else 1
  | PlusInfinity | MinusInfinity | NotANumber => 1
  end.

(** [await this.sleep(ms)] *)
Definition sleep (ms : number) (w : World) : World :=
  {| now := now w + elapsed ms; trace := trace w ++ [EvSleep ms] |}.

Definition isValidMCPResponse (data : value) : bool :=
  if negb (truthy data) || negb (typeof_object data) then false
  else if negb (match prop data "jsonrpc" with
                | VStr v => String.eqb v "2.0"
                | _ => false
                end) then false
  else
    let hasResult := has_key "result" data in
    let hasError := has_key "error" data in
    if hasResult && hasError then false
    else if negb hasResult && negb hasError then false
    else if hasError then
      let error := prop data "error" in
      if negb (truthy error) || negb (typeof_object error) then false
      else if negb (typeof_number (prop error "code"))
              || negb (typeof_string (prop error "message")) then false
      else true
    else true.

(** [error && error.isAxiosError === true] *)
Definition isAxiosError (e : JsError) : bool := isAxiosErrorFlag e.

(** [axiosError.response?.status && status >= 400 && status < 500] *)
Definition is_client_error (e : JsError) : bool :=
  match response_status e with
  | Some s => negb (s =? 0) && (400 <=? s) && (s <? 500)
  | None => false
  end.

(** How the retry loop is left: by [return] from the [try] block, or by
    falling out of the [for] (its condition fails, or [break]). *)
Inductive LoopExit :=
| LoopReturn (data : value)
| LoopEnd (lastError : option JsError).

Section ForwardRequest.

Variable backend : Backend.
Variable serverUrl : string.
Variable request : MCPRequest.
Variable opts : ForwardingOptions.

(** One pass through the [catch] block; [None] stands for [break], and
    otherwise the world after the wait, if any. *)
Definition on_error (attempt : Z) (e : JsError) (w : World) : option World :=
  if isAxiosError e && is_client_error e then None
  else if attempt <? num (maxRetries opts)
       then Some (sleep (times_pow2 (num (retryDelay opts)) (attempt - 1)) w)
       else Some w.

(** The thrown [Error] of the format check. *)
Definition invalid_format : JsError :=
  {| isAxiosErrorFlag := false;
     message := "Invalid MCP response format from " ++ serverUrl;
     response_status := None |}.

(** The body of the [for] loop; [continue] is the rest of the loop,
    from the next attempt on. *)
Definition attempt_body
    (continue : option JsError -> World -> LoopExit * World)
    (attempt : Z) (w : World) : LoopExit * World :=
  let '(r, w1) :=
    http_post backend serverUrl request (num (timeout opts)) w in
  let catch (e : JsError) :=
    match on_error attempt e w1 with
    | None => (LoopEnd (Some e), w1)
    | Some w2 => continue (Some e) w2
    end in
  match r with
  | Resolved resp =>
      if isValidMCPResponse (data resp) then (LoopReturn (data resp), w1)
      else catch invalid_format
  | Rejected e => catch e
  end.

(** [for (let attempt = 1; attempt <= opts.maxRetries; attempt++)]:
    [remaining] counts the iterations the condition still allows,
    see [attempt_loop_for]. *)
Fixpoint attempt_loop (remaining : nat) (attempt : Z)
    (lastError : option JsError) (w : World) : LoopExit * World :=
  match remaining with
  | O => (LoopEnd lastError, w)
  | S remaining' =>
      attempt_body (attempt_loop remaining' (attempt + 1)) attempt w
  end.

End ForwardRequest.

Definition iterations (maxRetries attempt : Z) : nat :=
  Z.to_nat (maxRetries - attempt + 1).

(** [forwardRequest(serverUrl, request, options)]. The options given to
    the constructor only set the default timeout of the HTTP client,
    which every POST of [forwardRequest] overrides; the call merges its
    own options over the class defaults. *)
Definition forwardRequest (backend : Backend) (serverUrl : string)
    (request : MCPRequest) (options : ForwardingOptions) (w : World)
    : value * World :=
  let opts := spread defaultOptions options in
  let startTime := now w in
  match attempt_loop backend serverUrl request opts
          (iterations (num (maxRetries opts)) 1) 1 None w with
  | (LoopReturn data, w') => (data, w')
  | (LoopEnd lastError, w') =>
      let totalDuration := now w' - startTime in
      (createMCPErrorResponse (-32603)
         ("Failed to forward request to " ++ serverUrl ++ ": "
          ++ str_or (message <$> lastError) "Unknown error")
         (id request)
         (VObj [("serverUrl", VStr serverUrl);
                ("attempts", VNum (num (maxRetries opts)));
                ("totalDuration", VStr (pretty totalDuration ++ "ms"))]),
       w')
  end.

(** *** Vocabulary for the properties of a call *)

(** The failures of a POST as axios reports them: no response at all,
    the attempt's timeout, or a response with a status outside 2xx. *)
Inductive Failure :=
| NetworkFailure (msg : string)
| AttemptTimeout (ms : Z)
| BackendStatus (s : Z).

Definition axios_error (f : Failure) : JsError :=
  match f with
  | NetworkFailure msg =>
      {| isAxiosErrorFlag := true; message := msg; response_status := None |}
  | AttemptTimeout ms =>
      {| isAxiosErrorFlag := true;
         message := "timeout of " ++ pretty ms ++ "ms exceeded";
         response_status := None |}
  | BackendStatus s =>
      {| isAxiosErrorFlag := true;
         message := "Request failed with status code " ++ pretty s;
         response_status := Some s |}
  end.

Definition retryable (f : Failure) : Prop :=
  match f with
  | NetworkFailure _ | AttemptTimeout _ => True
  | BackendStatus s => 500 <= s
  end.

(** The outcome of the k-th POST, from 0, of a call started in [w]. *)
Definition attempt_outcome (backend : Backend) (w : World) (url : string)
    (request : MCPRequest) (k : nat) : PostResult :=
  fst (backend (posts (trace w) + k)%nat url request).

(** The number of POSTs a call makes. *)
Definition attempts_made (w w' : World) : nat :=
  (posts (trace w') - posts (trace w))%nat.

(** The trace of [k] attempts each followed by its wait, from attempt
    number [attempt] on, and a last attempt. *)
Fixpoint waits_trace (url : string) (request : MCPRequest) (tmo b : Z)
    (k : nat) (attempt : Z) : list Event :=
  match k with
  | O => [EvPost url request tmo]
  | S k' =>
      EvPost url request tmo :: EvSleep (times_pow2 b (attempt - 1))
      :: waits_trace url request tmo b k' (attempt + 1)
  end.

(** A backend whose malformed replies to [url] are failed POSTs instead. *)
Definition reject_invalid (url : string) (backend : Backend) : Backend :=
  fun n u q =>
    match backend n u q with
    | (Resolved resp, took) =>
        if isValidMCPResponse (data resp) then (Resolved resp, took)
        else (Rejected (invalid_format url), took)
    | other => other
    end.

(** Exactly one of [result] and [error] is a key of the envelope. *)
Definition exactly_one (envelope : value) : Prop :=
  xorb (has_key "result" envelope) (has_key "error" envelope) = true.

End Forwarder.

(** ** error-handler.ts *)

Module ErrorHandler.

(** [Math.min(baseDelay * Math.pow(2, attempt - 1), 30000)] *)
Definition getRetryDelay (attempt baseDelay : Z) : number :=
  min_with 30000 (times_pow2 baseDelay (attempt - 1)).

Definition sensitiveKeys : list string :=
  ["password"; "token"; "key"; "secret"; "auth"; "credential";
   "api_key"; "access_token"; "refresh_token"; "authorization"].

(** [sensitiveKeys.some(s => key.toLowerCase().includes(s.toLowerCase()))] *)
Definition is_sensitive (key : string) : bool :=
  existsb (fun sensitive => includes (toLowerCase sensitive) (toLowerCase key))
          sensitiveKeys.

Definition REDACTED : value := VStr "[REDACTED]".

(** The body of the [for (const key in sanitized)] loop for one key;
    [rec] is the recursive call on the value. *)
Definition sanitize_entry (rec : value) (key : string) (v : value) : value :=
  if is_sensitive key then REDACTED
  else if typeof_object v then rec
  else v.

(** [{ ...data }] of an array has the indices as its keys. *)
Fixpoint sanitizeErrorData (data : value) : value :=
  match data with
  | VObj fields =>
      VObj ((fix entries (l : list (string * value)) : list (string * value) :=
               match l with
               | [] => []
               | (key, v) :: l' =>
                   (key, sanitize_entry (sanitizeErrorData v) key v) :: entries l'
               end) fields)
  | VArr items =>
      VObj ((fix entries (i : nat) (l : list value) : list (string * value) :=
               match l with
               | [] => []
               | v :: l' =>
                   (pretty i, sanitize_entry (sanitizeErrorData v) (pretty i) v)
                   :: entries (S i) l'
               end) O items)
  | _ => data
  end.

(** The patterns the specification names. *)
Definition patterns : list string :=
  ["password"; "token"; "key"; "secret"; "auth"; "credential"].

(** The value at a path of object keys. *)
Fixpoint lookup_path (path : list string) (v : value) : option value :=
  match path with
  | [] => Some v
  | key :: path' =>
      match v with
      | VObj fields =>
          match assoc key fields with
          | Some x => lookup_path path' x
          | None => None
          end
      | _ => None
      end
  end.

(** Neither an array nor a sensitive key occurs in the value. *)
Fixpoint plain (v : value) : bool :=
  match v with
  | VObj fields =>
      (fix all (l : list (string * value)) : bool :=
         match l with
         | [] => true
         | (key, x) :: l' => negb (is_sensitive key) && plain x && all l'
         end) fields
  | VArr _ => false
  | _ => true
  end.

(** [getErrorCodeForRoutingError], on the error's message. *)
Definition getErrorCodeForRoutingError (message : string) : Z :=
  if includes "Invalid routing strategy" message then -32602
  else if includes "Server not found" message then -32601
  else if includes "No route found" message then -32601
  else -32603.

End ErrorHandler.

(** ** router.ts *)

Module Router.

Record ServerConfig := {
  name : string;
  url : string;
  timeout : option Z;
  maxRetries : option Z;
  healthCheckPath : option string
}.

(** [rules] holds the own properties of the rules object, in the order
    [Object.entries] gives them. *)
Record RoutingConfig := {
  strategy : string;
  rules : list (string * string);
  defaultServer : option string
}.

(** [serverName] is typed as a string, and is whatever the lookup found;
    [serverUrl] is absent when the server read has no [url]. *)
Record RoutingResult := {
  serverName : found;
  serverUrl : option string;
  success : bool;
  error : option string
}.

Record RoutingError := {
  message : string;
  details : string;
  requestPath : option string;
  headers : option (list (string * string))
}.

(** [s.replace(/^\/+/, EmptyString)] *)
Fixpoint strip_leading_slashes (s : string) : string :=
  match s with
  | String c s' => if Ascii.eqb c "/" then strip_leading_slashes s' else s
  | EmptyString => s
  end.

(** [s.split("/")[0]] *)
Fixpoint first_segment (s : string) : string :=
  match s with
  | EmptyString => EmptyString
  | String c s' =>
      if Ascii.eqb c "/" then EmptyString else String c (first_segment s')
  end.

(** The lookup key of the prefix strategy. *)
Definition key_of (path : string) : string :=
  first_segment (strip_leading_slashes path).

(** [this.config.rules[key]], when truthy: the rule of that name, or
    else the member of that name that the rules object inherits. *)
Definition rule_for (config : RoutingConfig) (key : string) : option found :=
  match assoc key (rules config) with
  | Some serverName =>
      if String.eqb serverName EmptyString then None else Some (Text serverName)
  | None => if inherited key then Some (Builtin key) else None
  end.

Definition routeByPrefix (config : RoutingConfig) (requestPath : option string)
    : option found :=
  match requestPath with
  | None => None
  | Some path =>
      if String.eqb path EmptyString then None
      else
        let prefix := key_of path in
        if String.eqb prefix EmptyString then None
        else rule_for config prefix
  end.

(** [Object.keys(headers).find(key => key.toLowerCase() === "x-target-mcp")] *)
Fixpoint find_target_header (headers : list (string * string)) : option string :=
  match headers with
  | [] => None
  | (key, _) :: rest =>
      if String.eqb (toLowerCase key) "x-target-mcp" then Some key
      else find_target_header rest
  end.

Definition routeByHeader (config : RoutingConfig)
    (headers : option (list (string * string))) : option found :=
  match headers with
  | None => None
  | Some hs =>
      match find_target_header hs with
      | None => None
      | Some targetHeader =>
          match assoc targetHeader hs with
          | None => None
          | Some targetValue =>
              if String.eqb targetValue EmptyString then None
              else rule_for config targetValue
          end
      end
  end.

(** [this.servers[serverName]]: the server of that name; or else the
    member of that name that the servers object inherits, which is
    truthy and has no [url]; or else nothing, and the error is thrown. *)
Definition getServerUrl (servers : list (string * ServerConfig))
    (serverName : found) : RoutingError + option string :=
  match assoc (text_of serverName) servers with
  | Some server => inr (Some (url server))
  | None =>
      if inherited (text_of serverName) then inr None
      else inl {| message := "Server not found";
                  details := "Server '" ++ text_of serverName
                             ++ "' is not configured";
                  requestPath := None; headers := None |}
  end.

(** The strategy's lookup; [inl] is a thrown [RoutingError]. *)
Definition dispatch (config : RoutingConfig) (requestPath : option string)
    (headers : option (list (string * string)))
    : RoutingError + option found :=
  if String.eqb (strategy config) "prefix"
  then inr (routeByPrefix config requestPath)
  else if String.eqb (strategy config) "header"
  then inr (routeByHeader config headers)
  else inl {| message := "Invalid routing strategy";
              details := "Unknown strategy: " ++ strategy config;
              requestPath := None; headers := None |}.

(** [if (!serverName && this.config.defaultServer) serverName = defaultServer] *)
Definition or_default (config : RoutingConfig) (serverName : option found)
    : option found :=
  match serverName, defaultServer config with
  | None, Some d => if String.eqb d EmptyString then None else Some (Text d)
  | _, _ => serverName
  end.

(** The [try] block of [routeRequest]. *)
Definition route (config : RoutingConfig) (servers : list (string * ServerConfig))
    (requestPath : option string) (headers : option (list (string * string)))
    : RoutingError + (found * option string) :=
  match dispatch config requestPath headers with
  | inl e => inl e
  | inr target =>
      match or_default config target with
      | None =>
          inl {| message := "No route found";
                 details := "No matching routing rule found and no default server configured";
                 requestPath := requestPath; headers := headers |}
      | Some serverName =>
          match getServerUrl servers serverName with
          | inl e => inl e
          | inr serverUrl => inr (serverName, serverUrl)
          end
      end
  end.

Definition routing_failure (message : string) : RoutingResult :=
  {| serverName := Text EmptyString; serverUrl := Some EmptyString;
     success := false; error := Some message |}.

(** The [catch] block turns a [RoutingError] into a failure result; no
    other exception arises in [route]. *)
Definition routeRequest (config : RoutingConfig)
    (servers : list (string * ServerConfig)) (request : MCPRequest)
    (requestPath : option string) (headers : option (list (string * string)))
    : RoutingResult :=
  match route config servers requestPath headers with
  | inr (serverName, serverUrl) =>
      {| serverName := serverName; serverUrl := serverUrl;
         success := true; error := None |}
  | inl e => routing_failure (message e)
  end.

(** The name the strategy looks up, if the request has one. *)
Definition lookup_key (config : RoutingConfig) (requestPath : option string)
    (headers : option (list (string * string))) : option string :=
  if String.eqb (strategy config) "prefix" then
    match requestPath with
    | Some path =>
        if String.eqb (key_of path) EmptyString then None
        else Some (key_of path)
    | None => None
    end
  else if String.eqb (strategy config) "header" then
    match headers with
    | Some hs =>
        match find_target_header hs with
        | Some targetHeader =>
            match assoc targetHeader hs with
            | Some targetValue =>
                if String.eqb targetValue EmptyString then None
                else Some targetValue
            | None => None
            end
        | None => None
        end
    | None => None
    end
  else None.

(** [n] slashes *)
Fixpoint slashes (n : nat) : string :=
  match n with
  | O => EmptyString
  | S n' => String "/" (slashes n')
  end.

(** No character of [s] is a slash. *)
Fixpoint slash_free (s : string) : bool :=
  match s with
  | EmptyString => true
  | String c s' => negb (Ascii.eqb c "/") && slash_free s'
  end.

End Router.

(** ** response-aggregator.ts *)

Module Aggregator.

(** A capability as models.ts declares it, with a string for a name.
    What a backend sent is not checked against the declaration
    ([Discovery.extract_tool] keeps any truthy name), and the merge
    calls [split] and [match] on it: the functions of this module are
    those of the source on the records that conform. *)
Record MCPMethod := {
  name : string;
  description : option string;
  inputSchema : option value;
  parameters : option value
}.

Record ServerMethodResult := {
  serverName : string;
  success : bool;
  methods : option (list MCPMethod);
  error : option string;
  responseTime : option Z
}.

Inductive Strategy := Prefix | Suffix | KeepFirst | KeepLast.

Record AggregationOptions := {
  timeout : option Z;
  includeServerInfo : option bool;
  conflictResolution : option Strategy;
  continueOnPartialFailure : option bool
}.

Definition noAggregationOptions : AggregationOptions :=
  {| timeout := None; includeServerInfo := None;
     conflictResolution := None; continueOnPartialFailure := None |}.

Definition defaultOptions : AggregationOptions :=
  {| timeout := Some 30000; includeServerInfo := Some true;
     conflictResolution := Some Prefix; continueOnPartialFailure := Some true |}.

(** [{ ...a, ...b }] *)
Definition spread_aggregation (a b : AggregationOptions) : AggregationOptions :=
  {| timeout := match timeout b with Some x => Some x | None => timeout a end;
     includeServerInfo :=
       match includeServerInfo b with Some x => Some x | None => includeServerInfo a end;
     conflictResolution :=
       match conflictResolution b with Some x => Some x | None => conflictResolution a end;
     continueOnPartialFailure :=
       match continueOnPartialFailure b with
       | Some x => Some x
       | None => continueOnPartialFailure a
       end |}.

(** *** The [Map] of [resolveMethodConflicts], in insertion order *)

Definition MethodMap : Type := list (string * MCPMethod).

Definition map_has (k : string) (m : MethodMap) : bool :=
  match assoc k m with Some _ => true | None => false end.

(** [m.set(k, v)]: an existing key keeps its place. *)
Fixpoint map_set (k : string) (v : MCPMethod) (m : MethodMap) : MethodMap :=
  match m with
  | [] => [(k, v)]
  | (k', v') :: m' =>
      if String.eqb k k' then (k, v) :: m' else (k', v') :: map_set k v m'
  end.

Definition map_values (m : MethodMap) : list MCPMethod := map snd m.

(** [`${name}_${counter}`] *)
Definition numbered (name : string) (counter : nat) : string :=
  name ++ "_" ++ pretty counter.

(** *** [description.match(/from (\w+) server/)] *)

Definition is_word_char (c : ascii) : bool :=
  let n := nat_of_ascii c in
  ((48 <=? n) && (n <=? 57) || (65 <=? n) && (n <=? 90)
   || (97 <=? n) && (n <=? 122) || (n =? 95))%nat.

(** The longest run of word characters at the head, and what follows. *)
Fixpoint take_word (s : string) : string * string :=
  match s with
  | EmptyString => (EmptyString, EmptyString)
  | String c s' =>
      if is_word_char c
      then let '(w, r) := take_word s' in (String c w, r)
      else (EmptyString, s)
  end.

Fixpoint skip (n : nat) (s : string) : string :=
  match n, s with
  | S n', String _ s' => skip n' s'
  | _, _ => s
  end.

(** A match starting at the head of [s]: the group cannot be shorter
    than the whole run, as a space must follow it. *)
Definition match_here (s : string) : option string :=
  if String.prefix "from " s then
    let '(w, r) := take_word (skip 5 s) in
    if negb (String.eqb w EmptyString) && String.prefix " server" r
    then Some w else None
  else None.

(** The group of the leftmost match. *)
Fixpoint match_from_server (s : string) : option string :=
  match match_here s with
  | Some w => Some w
  | None =>
      match s with
      | EmptyString => None
      | String _ s' => match_from_server s'
      end
  end.

(** *** [resolveMethodConflicts] *)

(** [while (methodMap.has(`${originalName}_${counter}`)) counter++],
    [None] when the fuel runs out. *)
Fixpoint suffix_scan (fuel : nat) (m : MethodMap) (originalName : string)
    (counter : nat) : option nat :=
  match fuel with
  | O => None
  | S fuel' =>
      if map_has (numbered originalName counter) m
      then suffix_scan fuel' m originalName (S counter)
      else Some counter
  end.

(** [while (methodMap.has(uniqueName) && uniqueName !== originalName)
      { uniqueName = `${finalName}_${counter}`; counter++ }] *)
Fixpoint unique_scan (fuel : nat) (m : MethodMap) (finalName originalName : string)
    (uniqueName : string) (counter : nat) : option string :=
  match fuel with
  | O => None
  | S fuel' =>
      if map_has uniqueName m && negb (String.eqb uniqueName originalName)
      then unique_scan fuel' m finalName originalName
             (numbered finalName counter) (S counter)
      else Some uniqueName
  end.

(** What the [switch] decides for a method whose name is taken. *)
Inductive Decision :=
| Skip
| Named (finalName : string).

Definition on_conflict (strategy : Strategy) (m : MethodMap) (method : MCPMethod)
    : option Decision :=
  let originalName := name method in
  match strategy with
  | Prefix =>
      if includes "/" originalName then Some (Named originalName)
      else
        let serverName :=
          match description method with
          | Some d => default "unknown" (match_from_server d)
          | None => "unknown"
          end in
        Some (Named (serverName ++ "/" ++ originalName))
  | Suffix =>
      counter ← suffix_scan (S (length m)) m originalName 1%nat;
      Some (Named (numbered originalName counter))
  | KeepFirst => Some Skip
  | KeepLast => Some (Named originalName)
  end.

Definition with_name (method : MCPMethod) (uniqueName : string) : MCPMethod :=
  {| name := uniqueName; description := description method;
     inputSchema := inputSchema method; parameters := parameters method |}.

(** One iteration of [for (const method of methods)]. *)
Definition resolve_step (strategy : Strategy) (m : MethodMap) (method : MCPMethod)
    : option MethodMap :=
  let originalName := name method in
  decision ← (if map_has originalName m then on_conflict strategy m method
              else Some (Named originalName));
  match decision with
  | Skip => Some m
  | Named finalName =>
      uniqueName ← unique_scan (S (S (length m))) m finalName originalName
                      finalName 1%nat;
      Some (map_set uniqueName (with_name method uniqueName) m)
  end.

Fixpoint resolve_loop (strategy : Strategy) (m : MethodMap)
    (methods : list MCPMethod) : option MethodMap :=
  match methods with
  | [] => Some m
  | method :: rest =>
      m' ← resolve_step strategy m method;
      resolve_loop strategy m' rest
  end.

Definition resolveMethodConflicts (methods : list MCPMethod) (strategy : Strategy)
    : option (list MCPMethod) :=
  map_values <$> resolve_loop strategy [] methods.

(** *** [aggregateMethods] *)

(** An entry of [Promise.allSettled]. *)
Inductive Settled :=
| Fulfilled (v : ServerMethodResult)
| RejectedWith (reason : option string).

(** One entry of [serverUrls] with what its query settled to. *)
Record Queried := {
  q_name : string;
  q_url : string;
  q_settled : Settled
}.

Definition collect (q : Queried) : ServerMethodResult :=
  match q_settled q with
  | Fulfilled v => v
  | RejectedWith reason =>
      {| serverName := q_name q; success := false; methods := None;
         error := Some (default "Unknown error" reason);
         responseTime := None |}
  end.

Definition collected_methods (q : Queried) : list MCPMethod :=
  match q_settled q with
  | Fulfilled v => if success v then default [] (methods v) else []
  | RejectedWith _ => []
  end.

Definition opt_field {A : Type} (k : string) (f : A -> value) (o : option A)
    : list (string * value) :=
  match o with Some x => [(k, f x)] | None => [] end.

Definition method_value (m : MCPMethod) : value :=
  VObj ([("name", VStr (name m))]
        ++ opt_field "description" VStr (description m)
        ++ opt_field "inputSchema" (fun v => v) (inputSchema m)
        ++ opt_field "parameters" (fun v => v) (parameters m)).

Definition result_value (r : ServerMethodResult) : value :=
  VObj ([("serverName", VStr (serverName r)); ("success", VBool (success r))]
        ++ opt_field "methods" (fun ms => VArr (map method_value ms)) (methods r)
        ++ opt_field "error" VStr (error r)
        ++ opt_field "responseTime" VNum (responseTime r)).

Definition flag (o : option bool) : bool := default false o.

(** [round] is the fan-out as it settled, in the order of
    [Object.entries(serverUrls)]; [totalTime] is the time it took. *)
Definition aggregateMethods (round : list Queried) (options : AggregationOptions)
    (totalTime : Z) : option value :=
  let opts := spread_aggregation defaultOptions options in
  let serverResults := map collect round in
  let allMethods := concat (map collected_methods round) in
  let successfulResults := List.filter success serverResults in
  if (length successfulResults =? 0)%nat && negb (flag (continueOnPartialFailure opts))
  then Some (createMCPErrorResponse (-32603)
               "All downstream servers failed to respond" None
               (VObj [("serverResults", VArr (map result_value serverResults))]))
  else
    resolvedMethods ← resolveMethodConflicts allMethods
                         (default Prefix (conflictResolution opts));
    let result : list (string * value) :=
      ([("methods", VArr (map method_value resolvedMethods))]
      ++ if flag (includeServerInfo opts)
          then [("serverResults", VArr (map result_value serverResults));
                ("aggregationStats",
                 VObj [("totalServers", VNum (Z.of_nat (length round)));
                       ("successfulServers",
                        VNum (Z.of_nat (length successfulResults)));
                       ("totalMethods", VNum (Z.of_nat (length resolvedMethods)));
                       ("aggregationTime", VNum totalTime)])]
          else [])%list in
    Some (createMCPResponse (VObj result) None).

(** [handlePartialFailures]: whether to go on, and the error message. *)
Definition handlePartialFailures (serverResults : list ServerMethodResult)
    (continueOnFailure : bool) : bool * option string :=
  let failedServers := List.filter (fun r => negb (success r)) serverResults in
  let successfulServers := List.filter success serverResults in
  if (length failedServers =? 0)%nat then (true, None)
  else if (length successfulServers =? 0)%nat
  then (false, Some "All servers failed to respond")
  else if negb continueOnFailure && (0 <? length failedServers)%nat
  then (false,
        Some (pretty (length failedServers) ++ " servers failed: "
              ++ String.concat ", " (map serverName failedServers)))
  else (true, None).

End Aggregator.

(** ** proxy-server.ts *)

Module Gateway.

Import Forwarder.

Record ProxyConfig := {
  servers : list (string * Router.ServerConfig);
  routing : Router.RoutingConfig
}.

Section HandleRequest.

(** [this.responseAggregator.aggregateMethods(serverUrls)], awaited:
    the envelope it resolves with, or the error it rejects with. *)
Variable aggregate :
  list (string * string) -> World -> (JsError + value) * World.
Variable backend : Backend.
(** [this.requestForwarder.forwardRequest(undefined, request)], awaited:
    what the forwarder does when the routed server has no [url]. *)
Variable unaddressed : MCPRequest -> World -> value * World.

(** [serverUrls[name] = config.url] for each server: the assignment to
    the name [__proto__] sets no property, a string being no prototype. *)
Definition serverUrls (config : ProxyConfig) : list (string * string) :=
  map (fun entry => (fst entry, Router.url (snd entry)))
    (List.filter (fun entry => negb (String.eqb (fst entry) "__proto__"))
       (servers config)).

Definition handleRequest (config : ProxyConfig) (request : MCPRequest)
    (requestPath : option string) (headers : option (list (string * string)))
    (w : World) : value * World :=
  if String.eqb (method request) "get_methods" then
    match aggregate (serverUrls config) w with
    | (inr response, w') => (response, w')
    | (inl e, w') =>
        (createMCPErrorResponse (-32603) (message e) (id request) VUndefined, w')
    end
  else
    let routingResult :=
      Router.routeRequest (routing config) (servers config) request
        requestPath headers in
    if negb (Router.success routingResult) then
      (createMCPErrorResponse (-32601)
         (str_or (Router.error routingResult) "No route found for request")
         (id request)
         (VObj [("requestPath", opt_str requestPath);
                ("availableServers",
                 VArr (map (fun entry => VStr (fst entry)) (servers config)))]),
       w)
    else
      match Router.serverUrl routingResult with
      | Some serverUrl =>
          forwardRequest backend serverUrl request Forwarder.noOptions w
      | None => unaddressed request w
      end.

End HandleRequest.

End Gateway.

(** * Sample inputs, after the test suite *)

Module Samples.

Import Forwarder.

Definition req : MCPRequest := createMCPRequest "tools/list" (VObj []) None.

Definition w0 : World := {| now := 0; trace := [] |}.

Definition always (r : PostResult) : Backend := fun _ _ _ => (r, 5).

Definition networkError : JsError :=
  {| isAxiosErrorFlag := false; message := "Connection timeout";
     response_status := None |}.

Definition statusError (s : Z) : JsError :=
  {| isAxiosErrorFlag := true;
     message := "Request failed with status code " ++ pretty s;
     response_status := Some s |}.

Definition tool (name : string) : Aggregator.MCPMethod :=
  {| Aggregator.name := name;
     Aggregator.description := Some ("Tool " ++ name);
     Aggregator.inputSchema := None;
     Aggregator.parameters := None |}.

(** A backend whose query succeeded with these capabilities. *)
Definition up (name url : string) (methods : list Aggregator.MCPMethod)
    : Aggregator.Queried :=
  {| Aggregator.q_name := name; Aggregator.q_url := url;
     Aggregator.q_settled :=
       Aggregator.Fulfilled
         {| Aggregator.serverName := name; Aggregator.success := true;
            Aggregator.methods := Some methods; Aggregator.error := None;
            Aggregator.responseTime := Some 7 |} |}.

(** A backend whose query failed. *)
Definition down (name url : string) : Aggregator.Queried :=
  {| Aggregator.q_name := name; Aggregator.q_url := url;
     Aggregator.q_settled :=
       Aggregator.Fulfilled
         {| Aggregator.serverName := name; Aggregator.success := false;
            Aggregator.methods := None;
            Aggregator.error := Some "Connection refused";
            Aggregator.responseTime := Some 7 |} |}.

Definition stopOnFailure : Aggregator.AggregationOptions :=
  {| Aggregator.timeout := None; Aggregator.includeServerInfo := None;
     Aggregator.conflictResolution := None;
     Aggregator.continueOnPartialFailure := Some false |}.

Definition continueOnFailure : Aggregator.AggregationOptions :=
  {| Aggregator.timeout := None; Aggregator.includeServerInfo := None;
     Aggregator.conflictResolution := None;
     Aggregator.continueOnPartialFailure := Some true |}.

End Samples.

(** * The rest of the router, the error handler and the aggregator *)

(** ** router.ts: the utility methods *)

Module RouterAdmin.

Import Router.

(** [serverName in this.servers]: a server of that name, or a member of
    that name that the servers object inherits. *)
Definition hasServer (servers : list (string * ServerConfig))
    (serverName : string) : bool :=
  match assoc serverName servers with
  | Some _ => true
  | None => inherited serverName
  end.

Definition getServerNames (servers : list (string * ServerConfig))
    : list string :=
  map fst servers.

(** [["prefix", "header"].includes(strategy)] *)
Definition known_strategy (strategy : string) : bool :=
  String.eqb strategy "prefix" || String.eqb strategy "header".

(** The error of one routing rule, if its server is unknown. *)
Definition rule_error (servers : list (string * ServerConfig))
    (rule : string * string) : list string :=
  if hasServer servers (snd rule) then []
  else ["Routing rule '" ++ fst rule ++ "' references unknown server '"
        ++ snd rule ++ "'"].

(** [validateConfig()]: the flag and the errors, the rules in the order of
    [Object.entries]. *)
Definition validateConfig (config : RoutingConfig)
    (servers : list (string * ServerConfig)) : bool * list string :=
  let strategyErrors : list string :=
    if known_strategy (strategy config) then []
    else ["Invalid routing strategy: " ++ strategy config] in
  let ruleErrors : list string :=
    flat_map (rule_error servers) (rules config) in
  let defaultErrors : list string :=
    match defaultServer config with
    | Some d =>
        if negb (String.eqb d EmptyString) && negb (hasServer servers d)
        then ["Default server '" ++ d ++ "' not found"]
        else []
    | None => []
    end in
  let errors := (strategyErrors ++ ruleErrors ++ defaultErrors)%list in
  ((length errors =? 0)%nat, errors).

End RouterAdmin.

(** ** error-handler.ts: the translation to error envelopes *)

Module ErrorResponses.

Import ErrorHandler.

Record ErrorContext := {
  requestId : option string;
  method : option string;
  serverName : option string;
  serverUrl : option string;
  requestPath : option string;
  headers : option (list (string * string))
}.

Record DownstreamError := {
  d_message : string;
  d_serverName : string;
  d_serverUrl : string;
  statusCode : option Z;
  responseData : value
}.

(** A field of the context that is present and truthy. *)
Definition ctx_field (context : option ErrorContext)
    (field : ErrorContext -> option string) : option string :=
  match context with
  | Some c =>
      match field c with
      | Some s => if String.eqb s EmptyString then None else Some s
      | None => None
      end
  | None => None
  end.

(** [context?.requestId] *)
Definition ctx_id (context : option ErrorContext) : option string :=
  match context with Some c => requestId c | None => None end.

(** A property added to the data when the value is truthy. *)
Definition when_str (k : string) (o : option string) : list (string * value) :=
  match o with
  | Some s => if String.eqb s EmptyString then [] else [(k, VStr s)]
  | None => []
  end.

Definition formatRoutingErrorMessage (message : string) : string :=
  if includes "No route found" message
  then "No routing rule found for the request. Please check the request path or headers."
  else if includes "Server not found" message
  then "The target server is not configured. Please check the server configuration."
  else if includes "Invalid routing strategy" message
  then "Invalid routing configuration. Please check the proxy configuration."
  else "Routing error: " ++ message.

(** [timestamp] is [new Date().toISOString()]. *)
Definition handleRoutingError (error : Router.RoutingError)
    (context : option ErrorContext) (timestamp : string) : value :=
  let errorCode := getErrorCodeForRoutingError (Router.message error) in
  let errorMessage := formatRoutingErrorMessage (Router.message error) in
  let errorData : list (string * value) :=
    ([("type", VStr "routing_error");
      ("details", VStr (Router.details error));
      ("timestamp", VStr timestamp)]
     ++ when_str "requestPath" (Router.requestPath error)
     ++ match Router.headers error with
        | Some hs => [("availableHeaders", VArr (map (fun h => VStr (fst h)) hs))]
        | None => []
        end
     ++ when_str "method" (ctx_field context method))%list in
  createMCPErrorResponse errorCode errorMessage (ctx_id context) (VObj errorData).

(** [error.statusCode], when truthy. *)
Definition status_of (error : DownstreamError) : option Z :=
  match statusCode error with
  | Some s => if s =? 0 then None else Some s
  | None => None
  end.

Definition getErrorCodeForDownstreamError (error : DownstreamError) : Z :=
  match status_of error with
  | Some s =>
      if (400 <=? s) && (s <? 500) then -32602
      else if 500 <=? s then -32603
      else -32603
  | None => -32603
  end.

Definition formatDownstreamErrorMessage (error : DownstreamError) : string :=
  match status_of error with
  | Some s =>
      if s =? 404
      then "The requested resource was not found on server '"
           ++ d_serverName error ++ "'."
      else if (s =? 401) || (s =? 403)
      then "Authentication or authorization failed for server '"
           ++ d_serverName error ++ "'."
      else if 500 <=? s
      then "Server '" ++ d_serverName error
           ++ "' is experiencing internal issues."
      else "Server '" ++ d_serverName error ++ "' returned error "
           ++ pretty s ++ ": " ++ d_message error
  | None =>
      "Failed to communicate with server '" ++ d_serverName error ++ "': "
      ++ d_message error
  end.

Definition handleDownstreamError (error : DownstreamError)
    (context : option ErrorContext) (timestamp : string) : value :=
  let errorCode := getErrorCodeForDownstreamError error in
  let errorMessage := formatDownstreamErrorMessage error in
  let errorData : list (string * value) :=
    ([("type", VStr "downstream_error");
      ("serverName", VStr (d_serverName error));
      ("serverUrl", VStr (d_serverUrl error));
      ("timestamp", VStr timestamp)]
     ++ match status_of error with
        | Some s => [("statusCode", VNum s)]
        | None => []
        end
     ++ (if truthy (responseData error)
         then [("serverResponse", responseData error)] else [])
     ++ when_str "method" (ctx_field context method))%list in
  createMCPErrorResponse errorCode errorMessage (ctx_id context) (VObj errorData).

Definition formatProtocolErrorMessage (message : string) : string :=
  if includes "timeout" message then "Request timed out while processing."
  else if includes "network" message || includes "connection" message
  then "Network connection error occurred."
  else if includes "parse" message || includes "JSON" message
  then "Invalid request or response format."
  else "Internal processing error: " ++ message.

(** [error] is given by its [name] and [message]; [customCode || -32603]. *)
Definition handleProtocolError (name message : string)
    (context : option ErrorContext) (customCode : option Z)
    (timestamp : string) : value :=
  let errorCode :=
    match customCode with
    | Some c => if c =? 0 then -32603 else c
    | None => -32603
    end in
  let errorData : list (string * value) :=
    ([("type", VStr "protocol_error");
      ("originalError", VStr name);
      ("timestamp", VStr timestamp)]
     ++ when_str "method" (ctx_field context method)
     ++ when_str "serverName" (ctx_field context serverName))%list in
  createMCPErrorResponse errorCode (formatProtocolErrorMessage message)
    (ctx_id context) (VObj errorData).

Definition handleValidationError (validationErrors : list string)
    (context : option ErrorContext) (timestamp : string) : value :=
  let errorData : list (string * value) :=
    ([("type", VStr "validation_error");
      ("validationErrors", VArr (map VStr validationErrors));
      ("timestamp", VStr timestamp)]
     ++ when_str "method" (ctx_field context method))%list in
  createMCPErrorResponse (-32600)
    ("Invalid request format: " ++ String.concat ", " validationErrors)
    (ctx_id context) (VObj errorData).

Definition handleTimeoutError (timeoutMs : Z)
    (context : option ErrorContext) (timestamp : string) : value :=
  let errorData : list (string * value) :=
    ([("type", VStr "timeout_error");
      ("timeoutMs", VNum timeoutMs);
      ("timestamp", VStr timestamp)]
     ++ when_str "serverName" (ctx_field context serverName)
     ++ when_str "method" (ctx_field context method))%list in
  createMCPErrorResponse (-32603)
    ("Request timed out after " ++ pretty timeoutMs ++ "ms")
    (ctx_id context) (VObj errorData).

(** [Math.ceil(windowMs / 1000)] *)
Definition ceil_seconds (windowMs : Z) : Z := - ((- windowMs) / 1000).

Definition handleRateLimitError (limit windowMs : Z)
    (context : option ErrorContext) (timestamp : string) : value :=
  let errorData : list (string * value) :=
    [("type", VStr "rate_limit_error");
     ("limit", VNum limit);
     ("windowMs", VNum windowMs);
     ("retryAfter", VNum (ceil_seconds windowMs));
     ("timestamp", VStr timestamp)] in
  createMCPErrorResponse (-32000)
    ("Rate limit exceeded: " ++ pretty limit ++ " requests per "
     ++ pretty windowMs ++ "ms")
    (ctx_id context) (VObj errorData).

(** What the properties ask of an envelope of the handler: it passes
    the forwarder's validation, has no result, echoes the id of the
    context and carries the kind tag and the time stamp. *)
Definition well_formed (envelope : value) (context : option ErrorContext)
    (kind timestamp : string) : Prop :=
  Forwarder.isValidMCPResponse envelope = true
  /\ has_key "result" envelope = false
  /\ prop envelope "id" = opt_str (ctx_id context)
  /\ prop (error_data envelope) "type" = VStr kind
  /\ prop (error_data envelope) "timestamp" = VStr timestamp.

(** The errors [isRetryableError] tells apart. *)
Inductive Thrown :=
| Downstream (error : DownstreamError)
| Plain (message : string).

Definition retryableMessages : list string :=
  ["timeout"; "network"; "connection"; "ECONNRESET"; "ECONNREFUSED"; "ETIMEDOUT"].

Definition isRetryableError (error : Thrown) : bool :=
  match error with
  | Downstream e =>
      match status_of e with
      | Some s => 500 <=? s
      | None => true
      end
  | Plain message =>
      existsb (fun msg => includes (toLowerCase msg) (toLowerCase message))
              retryableMessages
  end.

(** No array anywhere, and every sensitive key holds the marker. *)
Fixpoint redacted (v : value) : bool :=
  match v with
  | VObj fields =>
      (fix all (l : list (string * value)) : bool :=
         match l with
         | [] => true
         | (key, x) :: l' =>
             (if is_sensitive key
              then match x with
                   | VStr s => String.eqb s "[REDACTED]"
                   | _ => false
                   end
              else redacted x) && all l'
         end) fields
  | VArr _ => false
  | _ => true
  end.

(** The entries of [{ ...items }] after the loop of [sanitizeErrorData]. *)
Fixpoint array_entries (i : nat) (items : list value) : list (string * value) :=
  match items with
  | [] => []
  | v :: rest =>
      (pretty i, sanitize_entry (sanitizeErrorData v) (pretty i) v)
      :: array_entries (S i) rest
  end.

(** An entry after the loop of [sanitizeErrorData]. *)
Definition sanitized_entry (kv : string * value) : string * value :=
  (fst kv, sanitize_entry (sanitizeErrorData (snd kv)) (fst kv) (snd kv)).

(** The test [redacted] makes of one entry. *)
Definition entry_redacted (kv : string * value) : bool :=
  if is_sensitive (fst kv)
  then match snd kv with
       | VStr s => String.eqb s "[REDACTED]"
       | _ => false
       end
  else redacted (snd kv).

(** [Object.keys(v)] of an object or an array. *)
Definition keys (v : value) : list string :=
  match v with
  | VObj fields => map fst fields
  | VArr items => map pretty (seq 0 (length items))
  | _ => []
  end.

End ErrorResponses.

(** ** response-aggregator.ts: extraction, merging and statistics *)

Module Discovery.

Import Aggregator.

(** [String(v)], as a template literal renders a value; [None] is the
    [TypeError] for an object that cannot be made a primitive. An object
    that came as JSON has no function of its own: with a property
    [toString] of its own it cannot be rendered, and without one it
    renders as [[object Object]]. An array joins the renderings of its
    items. A whole number prints in decimal (below 10^21). *)
Fixpoint to_string (v : value) : option string :=
  match v with
  | VUndefined => Some "undefined"
  | VNull => Some "null"
  | VBool true => Some "true"
  | VBool false => Some "false"
  | VNum n => Some (pretty n)
  | VStr s => Some s
  | VArr items =>
      (fix join (first : bool) (l : list value) : option string :=
         match l with
         | [] => Some EmptyString
         | x :: l' =>
             match match x with
                   | VUndefined | VNull => Some EmptyString
                   | _ => to_string x
                   end, join false l' with
             | Some here, Some rest =>
                 Some ((if first then EmptyString else ",") ++ here ++ rest)
             | _, _ => None
             end
         end) true items
  | VObj fields =>
      match assoc "toString" fields with
      | Some _ => None
      | None => Some "[object Object]"
      end
  end.

(** [a || b] *)
Definition js_or (a b : value) : value := if truthy a then a else b.

Definition isArray (v : value) : bool :=
  match v with VArr _ => true | _ => false end.

Definition defaultSchema : value :=
  VObj [("type", VStr "object"); ("properties", VObj []); ("required", VArr [])].

(** The list [extractMethodsFromResponse] maps over. *)
Definition tools_of (result : value) : list value :=
  match prop result "tools", prop result "methods", result with
  | VArr tools, _, _ => tools
  | _, VArr methods, _ => methods
  | _, _, VArr items => items
  | _, _, _ => []
  end.

(** [tool.description || `${tool.name || 'Tool'} from ${serverName} server`]:
    the template is rendered only when the description is falsy. *)
Definition description_of (serverName : string) (tool : value) : option value :=
  if truthy (prop tool "description") then Some (prop tool "description")
  else
    match to_string (js_or (prop tool "name") (VStr "Tool")) with
    | Some text => Some (VStr (text ++ " from " ++ serverName ++ " server"))
    | None => None
    end.

(** One capability record; [None] is a [TypeError]: reading a property
    of [null] or [undefined], or rendering a name that cannot be made a
    primitive. *)
Definition extract_tool (serverName : string) (tool : value) : option value :=
  match tool with
  | VUndefined | VNull => None
  | _ =>
      match description_of serverName tool with
      | Some description =>
          Some (VObj
            [("name", js_or (prop tool "name") (VStr "unknown"));
             ("description", description);
             ("inputSchema",
              js_or (prop tool "inputSchema")
                (js_or (prop tool "parameters")
                   (js_or (prop tool "schema") defaultSchema)))])
      | None => None
      end
  end.

(** The entries on which [extract_tool] throws. *)
Definition throws (serverName : string) (tool : value) : bool :=
  match extract_tool serverName tool with
  | Some _ => false
  | None => true
  end.

Fixpoint extract_all (serverName : string) (tools : list value)
    : option (list value) :=
  match tools with
  | [] => Some []
  | tool :: rest =>
      match extract_tool serverName tool with
      | None => None
      | Some m =>
          match extract_all serverName rest with
          | None => None
          | Some ms => Some (m :: ms)
          end
      end
  end.

Definition extractMethodsFromResponse (response : value) (serverName : string)
    : option (list value) :=
  if negb (truthy (prop response "result")) then Some []
  else extract_all serverName (tools_of (prop response "result")).

Record MCPMethodsResponse := { r_methods : option (list MCPMethod) }.

Definition mergeMethodLists (responses : list MCPMethodsResponse)
    : option (list MCPMethod) :=
  resolveMethodConflicts
    (concat (map (fun r => default [] (r_methods r)) responses)) Prefix.

(** [averageResponseTime] is absent where the whole numbers of this
    model do not follow the doubles, see [adds_exactly]. *)
Record AggregationStats := {
  totalServers : Z;
  successfulServers : Z;
  failedServers : Z;
  averageResponseTime : option Z;
  totalMethods : Z
}.

Definition sumZ (l : list Z) : Z := fold_right Z.add 0 l.

(** The times whose sums the doubles hold exactly, and whose mean they
    round as the whole numbers do: the absolute values add up to less
    than 2^50. Then every partial sum is exact, and the quotient by the
    count, which is computed to the nearest double, lies on the same
    side of every half as the exact quotient. *)
Definition adds_exactly (times : list Z) : bool :=
  sumZ (map Z.abs times) <? 2 ^ 50.

(** [Math.round(total / n)], halves going up. *)
Definition round_div (total n : Z) : Z := (2 * total + n) / (2 * n).

Definition getAggregationStats (serverResults : list ServerMethodResult)
    : AggregationStats :=
  let successfulResults := List.filter success serverResults in
  let totalMethods :=
    sumZ (map (fun r => Z.of_nat (length (default [] (methods r))))
              successfulResults) in
  let times := map (fun r => default 0 (responseTime r)) serverResults in
  let totalResponseTime := sumZ times in
  let n := Z.of_nat (length serverResults) in
  {| totalServers := n;
     successfulServers := Z.of_nat (length successfulResults);
     failedServers := n - Z.of_nat (length successfulResults);
     averageResponseTime :=
       if adds_exactly times
       then Some (if 0 <? n then round_div totalResponseTime n else 0)
       else None;
     totalMethods := totalMethods |}.

(** What [\w+] matches whole: a run of word characters that is not
    empty. *)
Fixpoint word_chars (s : string) : bool :=
  match s with
  | EmptyString => true
  | String c s' => is_word_char c && word_chars s'
  end.

Definition is_word (s : string) : bool :=
  negb (String.eqb s EmptyString) && word_chars s.

(** The first record of each name, in order. *)
Fixpoint first_occurrences (seen : list string) (methods : list MCPMethod)
    : list MCPMethod :=
  match methods with
  | [] => []
  | m :: rest =>
      if existsb (String.eqb (name m)) seen then first_occurrences seen rest
      else m :: first_occurrences (name m :: seen) rest
  end.

End Discovery.

(** ** Vocabulary for the properties of the forwarder *)

Module ForwarderTerms.

Import Forwarder.

(** An outcome after which the loop goes on, while attempts are left: a
    rejection other than an axios 4xx, or a reply that fails validation. *)
Definition retried (r : PostResult) : Prop :=
  match r with
  | Rejected e => (isAxiosError e && is_client_error e) = false
  | Resolved resp => isValidMCPResponse (data resp) = false
  end.

(** The error the [catch] block sees for such an outcome. *)
Definition caught (url : string) (r : PostResult) : JsError :=
  match r with
  | Rejected e => e
  | Resolved _ => invalid_format url
  end.

(** The envelope built when the loop is left without a reply. *)
Definition failure_envelope (url : string) (request : MCPRequest)
    (options : ForwardingOptions) (lastError : option JsError)
    (totalDuration : Z) : value :=
  createMCPErrorResponse (-32603)
    ("Failed to forward request to " ++ url ++ ": "
     ++ str_or (message <$> lastError) "Unknown error")
    (id request)
    (VObj [("serverUrl", VStr url);
           ("attempts", VNum (num (maxRetries (spread defaultOptions options))));
           ("totalDuration", VStr (pretty totalDuration ++ "ms"))]).

End ForwarderTerms.

(** ** response-aggregator.ts: the query of one backend *)

Module ServerQuery.

Import Forwarder.

(** The [ServerMethodResult] as [getMethodsFromServer] builds it: its
    capabilities are the records of [extractMethodsFromResponse], whose
    fields hold whatever the backend sent. *)
Record QueryResult := {
  serverName : string;
  success : bool;
  methods : option (list value);
  error : option string;
  responseTime : Z
}.

Definition methodNames : list string :=
  ["tools/list"; "get_methods"; "list_tools"].

Definition query_request (serverName methodName : string) (w : World)
    : MCPRequest :=
  {| method := methodName;
     params := VObj [];
     id := Some ("get-methods-" ++ serverName ++ "-" ++ pretty (now w));
     jsonrpc := "2.0" |}.

(** [{ timeout }] *)
Definition query_options (tmo : Z) : ForwardingOptions :=
  {| timeout := Some tmo; maxRetries := None; retryDelay := None |}.

Section GetMethodsFromServer.

(** The message of the engine's [TypeError] for the entry it is thrown
    on. *)
Variable typeErrorMessage : value -> string.
Variable backend : Backend.
Variable serverName : string.
Variable serverUrl : string.
Variable tmo : Z.

(** [for (const methodName of methodNames)]: [forwardRequest] returns an
    envelope whatever happens, so the inner [catch] is never entered and
    [lastError] stays [null]. *)
Fixpoint query_loop (names : list string) (response : option value) (w : World)
    : option value * World :=
  match names with
  | [] => (response, w)
  | methodName :: rest =>
      let '(r, w') :=
        forwardRequest backend serverUrl
          (query_request serverName methodName w) (query_options tmo) w in
      if truthy (prop r "result") then (Some r, w')
      else query_loop rest (Some r) w'
  end.

Definition getMethodsFromServer (w : World) : QueryResult * World :=
  let startTime := now w in
  let '(response, w') := query_loop methodNames None w in
  let failed (errorMessage : string) :=
    ({| ServerQuery.serverName := serverName; success := false;
        methods := None;
        error := Some errorMessage; responseTime := now w' - startTime |},
     w') in
  match response with
  | None => failed ("No valid response from " ++ serverName)
  | Some r =>
      if truthy (prop r "error")
      then failed ("No valid response from " ++ serverName)
      else
        match Discovery.extractMethodsFromResponse r serverName with
        | Some extracted =>
            ({| ServerQuery.serverName := serverName; success := true;
                methods := Some extracted; error := None;
                responseTime := now w' - startTime |},
             w')
        | None =>
            failed (typeErrorMessage
                      (default VUndefined
                         (find (Discovery.throws serverName)
                            (Discovery.tools_of (prop r "result")))))
        end
  end.

End GetMethodsFromServer.

(** Every call of the forwarder for this backend ends in the error
    envelope after [n] POSTs. *)
Definition call_fails (backend : Backend) (serverName serverUrl : string)
    (tmo : Z) (n : nat) : Prop :=
  forall methodName w, exists lastError duration w1,
    forwardRequest backend serverUrl (query_request serverName methodName w)
      (query_options tmo) w
    = (ForwarderTerms.failure_envelope serverUrl
         (query_request serverName methodName w) (query_options tmo)
         lastError duration, w1)
    /\ posts (trace w1) = (posts (trace w) + n)%nat.

End ServerQuery.

(** * Properties of the request forwarder *)

Module ForwarderFacts.

Import Forwarder.
Local Open Scope list_scope.

Lemma posts_app (t1 t2 : list Event) :
  posts (t1 ++ t2) = (posts t1 + posts t2)%nat.
Proof.
  induction t1 as [|e t1 IH]; simpl; [reflexivity|].
  destruct (is_post e); simpl; rewrite IH; reflexivity.
Qed.

Lemma sleeps_app (t1 t2 : list Event) :
  sleeps (t1 ++ t2) = sleeps t1 ++ sleeps t2.
Proof.
  induction t1 as [|[u q t|ms] t1 IH]; simpl; rewrite ?IH; reflexivity.
Qed.

Lemma posts_waits_trace url q tmo b k a :
  posts (waits_trace url q tmo b k a) = S k.
Proof.
  revert a; induction k as [|k IH]; intros a; simpl; [reflexivity|].
  rewrite IH; reflexivity.
Qed.

Lemma sleeps_waits_trace url q tmo b k a :
  sleeps (waits_trace url q tmo b k a)
  = map (fun i => times_pow2 b (a + Z.of_nat i - 1)) (seq 0 k).
Proof.
  revert a; induction k as [|k IH]; intros a; [reflexivity|].
  cbn [waits_trace sleeps seq map].
  rewrite IH, <- seq_shift, map_map. f_equal.
  - f_equal. lia.
  - apply map_ext; intros i. f_equal. lia.
Qed.

Lemma http_post_trace backend url q tmo w r w1 :
  http_post backend url q tmo w = (r, w1) ->
  r = attempt_outcome backend w url q 0
  /\ trace w1 = trace w ++ [EvPost url q tmo].
Proof.
  unfold http_post, attempt_outcome. rewrite Nat.add_0_r.
  destruct (backend _ _ _) as [r0 took]; intros [= <- <-]; auto.
Qed.

Lemma on_error_trace opts attempt e w w2 :
  on_error opts attempt e w = Some w2 ->
  (isAxiosError e && is_client_error e) = false
  /\ (((attempt <? num (maxRetries opts)) = true
       /\ trace w2 = trace w
            ++ [EvSleep (times_pow2 (num (retryDelay opts)) (attempt - 1))])
      \/ ((attempt <? num (maxRetries opts)) = false /\ w2 = w)).
Proof.
  unfold on_error.
  destruct (isAxiosError e && is_client_error e); [discriminate|].
  destruct (attempt <? num (maxRetries opts)); intros [= <-]; auto.
Qed.

Lemma on_error_posts opts attempt e w w2 :
  on_error opts attempt e w = Some w2 -> posts (trace w2) = posts (trace w).
Proof.
  intros H; apply on_error_trace in H as [_ [[_ ->]|[_ ->]]]; [|reflexivity].
  rewrite posts_app; simpl; lia.
Qed.

(** The structural loop is the [for] loop: the next iteration runs exactly
    when [attempt <= maxRetries]. *)
Lemma attempt_loop_for backend url q opts M attempt le w :
  attempt_loop backend url q opts (iterations M attempt) attempt le w
  = if attempt <=? M
    then attempt_body backend url q opts
           (attempt_loop backend url q opts (iterations M (attempt + 1))
              (attempt + 1))
           attempt w
    else (LoopEnd le, w).
Proof.
  unfold iterations. destruct (Z.leb_spec attempt M) as [Hle|Hgt].
  - replace (Z.to_nat (M - attempt + 1))
      with (S (Z.to_nat (M - (attempt + 1) + 1))) by lia.
    reflexivity.
  - replace (Z.to_nat (M - attempt + 1)) with O by lia. reflexivity.
Qed.

Section Loop.

Variable backend : Backend.
Variable url : string.
Variable q : MCPRequest.
Variable opts : ForwardingOptions.

Let M := num (maxRetries opts).
Let b := num (retryDelay opts).
Let tmo := num (timeout opts).

(** What an iteration does, by cases on the POST's outcome. *)
Lemma attempt_body_cases continue attempt w x w' :
  attempt_body backend url q opts continue attempt w = (x, w') ->
  exists w1 e,
    trace w1 = trace w ++ [EvPost url q tmo]
    /\ ((exists resp, attempt_outcome backend w url q 0 = Resolved resp
           /\ isValidMCPResponse (data resp) = true
           /\ x = LoopReturn (data resp) /\ w' = w1)
        \/ ((attempt_outcome backend w url q 0 = Rejected e
             \/ exists resp, attempt_outcome backend w url q 0 = Resolved resp
                  /\ isValidMCPResponse (data resp) = false
                  /\ e = invalid_format url)
            /\ ((on_error opts attempt e w1 = None
                 /\ x = LoopEnd (Some e) /\ w' = w1)
                \/ exists w2, on_error opts attempt e w1 = Some w2
                     /\ continue (Some e) w2 = (x, w')))).
Proof.
  unfold attempt_body.
  destruct (http_post backend url q (num (timeout opts)) w) as [r w1] eqn:Hp.
  apply http_post_trace in Hp as [-> Ht].
  destruct (attempt_outcome backend w url q 0) as [resp|e] eqn:Ho.
  - destruct (isValidMCPResponse (data resp)) eqn:Hv.
    + intros [= <- <-]. exists w1, (invalid_format url). split; [exact Ht|].
      left. exists resp. auto.
    + intros H. exists w1, (invalid_format url). split; [exact Ht|]. right.
      split; [right; exists resp; auto|].
      destruct (on_error opts attempt (invalid_format url) w1) as [w2|].
      * right. exists w2. auto.
      * left. injection H as <- <-. auto.
  - intros H. exists w1, e. split; [exact Ht|]. right. split; [left; auto|].
    destruct (on_error opts attempt e w1) as [w2|].
    + right. exists w2. auto.
    + left. injection H as <- <-. auto.
Qed.

(** A call's trace: attempts, each but the last followed by its wait. *)
Lemma attempt_loop_shape remaining attempt le w x w' :
  Z.of_nat remaining = M - attempt + 1 ->
  attempt_loop backend url q opts remaining attempt le w = (x, w') ->
  (remaining = O /\ w' = w)
  \/ exists k, (k < remaining)%nat
       /\ trace w' = trace w ++ waits_trace url q tmo b k attempt.
Proof.
  revert attempt le w. induction remaining as [|r IH]; intros attempt le w Hr.
  - simpl. intros [= <- <-]. left; auto.
  - simpl. intros H. right.
    apply attempt_body_cases in H as (w1 & e & Ht & [Hret|[_ [Hbrk|Hgo]]]).
    + destruct Hret as (resp & _ & _ & _ & ->). exists O. split; [lia|exact Ht].
    + destruct Hbrk as (_ & _ & ->). exists O. split; [lia|exact Ht].
    + destruct Hgo as (w2 & He & Hrec).
      apply on_error_trace in He as [_ [[Hlt Ht2]|[Hge ->]]].
      * apply IH in Hrec as [[-> _]|(k & Hk & Htr)]; [| |fold M in Hlt; lia].
        { fold M in Hlt. apply Z.ltb_lt in Hlt. lia. }
        exists (S k). split; [lia|].
        rewrite Htr, Ht2, Ht. rewrite <- !app_assoc. reflexivity.
      * fold M in Hge. apply Z.ltb_ge in Hge.
        assert (r = O) as -> by lia. simpl in Hrec. injection Hrec as _ <-.
        exists O. split; [lia|exact Ht].
Qed.

(** An iteration that runs makes a POST. *)
Lemma attempt_loop_posts remaining attempt le w x w' :
  attempt_loop backend url q opts remaining attempt le w = (x, w') ->
  (posts (trace w) + (match remaining with O => 0 | S _ => 1 end) <= posts (trace w'))%nat
  /\ (posts (trace w') <= posts (trace w) + remaining)%nat.
Proof.
  revert attempt le w. induction remaining as [|r IH]; intros attempt le w.
  - simpl. intros [= <- <-]. lia.
  - simpl. intros H.
    apply attempt_body_cases in H as (w1 & e & Ht & [Hret|[_ [Hbrk|Hgo]]]).
    + destruct Hret as (resp & _ & _ & _ & ->).
      rewrite Ht, posts_app; simpl; lia.
    + destruct Hbrk as (_ & _ & ->). rewrite Ht, posts_app; simpl; lia.
    + destruct Hgo as (w2 & He & Hrec).
      apply on_error_posts in He. apply IH in Hrec as [Hlo Hhi].
      rewrite He, Ht, posts_app in Hlo, Hhi. simpl in Hlo, Hhi.
      destruct r; lia.
Qed.

Lemma attempt_outcome_shift w w2 k :
  posts (trace w2) = S (posts (trace w)) ->
  attempt_outcome backend w2 url q k = attempt_outcome backend w url q (S k).
Proof.
  unfold attempt_outcome. intros ->. f_equal. f_equal. lia.
Qed.

(** After the continuation of an iteration, the POST counter has moved
    by one. *)
Lemma continue_posts attempt e w w1 w2 :
  trace w1 = trace w ++ [EvPost url q tmo] ->
  on_error opts attempt e w1 = Some w2 ->
  posts (trace w2) = S (posts (trace w)).
Proof.
  intros Ht He. apply on_error_posts in He.
  rewrite He, Ht, posts_app. simpl. lia.
Qed.

(** No attempt follows one that axios rejects with a 4xx status. *)
Lemma client_error_final remaining attempt le w x w' k e :
  attempt_loop backend url q opts remaining attempt le w = (x, w') ->
  attempt_outcome backend w url q k = Rejected e ->
  isAxiosError e = true -> is_client_error e = true ->
  (posts (trace w') <= posts (trace w) + k + 1)%nat.
Proof.
  revert attempt le w k.
  induction remaining as [|r IH]; intros attempt le w k Hl Ho Ha Hc.
  - simpl in Hl. injection Hl as _ <-. lia.
  - simpl in Hl.
    apply attempt_body_cases in Hl as (w1 & e1 & Ht & [Hret|[Hout [Hbrk|Hgo]]]).
    + destruct Hret as (resp & _ & _ & _ & ->).
      rewrite Ht, posts_app; simpl; lia.
    + destruct Hbrk as (_ & _ & ->). rewrite Ht, posts_app; simpl; lia.
    + destruct Hgo as (w2 & He & Hrec).
      pose proof (continue_posts _ _ _ _ _ Ht He) as Hp.
      destruct k as [|k].
      * exfalso. apply on_error_trace in He as [Hn _].
        destruct Hout as [Hout|(resp & Hout & _)]; rewrite Ho in Hout;
          [|discriminate].
        injection Hout as <-. rewrite Ha, Hc in Hn. discriminate.
      * rewrite <- (attempt_outcome_shift w w2 k Hp) in Ho.
        specialize (IH _ _ _ _ Hrec Ho Ha Hc). lia.
Qed.

(** Another attempt follows one that fails otherwise, while the loop
    has iterations left. *)
Lemma failure_retried remaining attempt le w x w' k e :
  attempt_loop backend url q opts remaining attempt le w = (x, w') ->
  (posts (trace w) + k < posts (trace w'))%nat ->
  attempt_outcome backend w url q k = Rejected e ->
  (isAxiosError e && is_client_error e) = false ->
  (k + 1 < remaining)%nat ->
  (posts (trace w) + k + 2 <= posts (trace w'))%nat.
Proof.
  revert attempt le w k.
  induction remaining as [|r IH]; intros attempt le w k Hl Hk Ho Hn Hr; [lia|].
  simpl in Hl.
  apply attempt_body_cases in Hl as (w1 & e1 & Ht & [Hret|[Hout [Hbrk|Hgo]]]).
  - destruct Hret as (resp & Hres & _ & _ & ->).
    destruct k as [|k]; [congruence|].
    rewrite Ht, posts_app in Hk; simpl in Hk; lia.
  - destruct Hbrk as (Hnone & _ & ->).
    destruct k as [|k]; [|rewrite Ht, posts_app in Hk; simpl in Hk; lia].
    exfalso. destruct Hout as [Hout|(resp & Hout & _)]; rewrite Ho in Hout;
      [|discriminate].
    injection Hout as <-. unfold on_error in Hnone. rewrite Hn in Hnone.
    destruct (attempt <? num (maxRetries opts)); discriminate.
  - destruct Hgo as (w2 & He & Hrec).
    pose proof (continue_posts _ _ _ _ _ Ht He) as Hp.
    destruct k as [|k].
    + apply attempt_loop_posts in Hrec as [Hlo _].
      destruct r; [lia|]. lia.
    + rewrite <- (attempt_outcome_shift w w2 k Hp) in Ho.
      assert (posts (trace w2) + k < posts (trace w'))%nat as Hk' by lia.
      specialize (IH _ _ _ _ Hrec Hk' Ho Hn). lia.
Qed.

(** When every POST fails and none with a 4xx status, the loop runs all
    its iterations. *)
Lemma attempt_loop_exhausts remaining attempt le w x w' :
  (forall k, exists e, attempt_outcome backend w url q k = Rejected e
               /\ (isAxiosError e && is_client_error e) = false) ->
  attempt_loop backend url q opts remaining attempt le w = (x, w') ->
  posts (trace w') = (posts (trace w) + remaining)%nat
  /\ exists le', x = LoopEnd le'
       /\ (remaining = O -> le' = le)
       /\ (remaining <> O -> exists e, le' = Some e
             /\ attempt_outcome backend w url q (remaining - 1) = Rejected e).
Proof.
  revert attempt le w.
  induction remaining as [|r IH]; intros attempt le w Hall Hl.
  - simpl in Hl. injection Hl as <- <-. split; [lia|].
    exists le. repeat split; auto. intros []; reflexivity.
  - simpl in Hl.
    apply attempt_body_cases in Hl as (w1 & e1 & Ht & [Hret|[Hout [Hbrk|Hgo]]]).
    + destruct Hret as (resp & Hres & _). destruct (Hall O) as (e & He & _).
      congruence.
    + destruct Hbrk as (Hnone & _). destruct (Hall O) as (e & He & Hn).
      destruct Hout as [Hout|(resp & Hout & _)]; rewrite He in Hout;
        [|discriminate].
      injection Hout as <-. unfold on_error in Hnone. rewrite Hn in Hnone.
      destruct (attempt <? num (maxRetries opts)); discriminate.
    + destruct Hgo as (w2 & He & Hrec).
      pose proof (continue_posts _ _ _ _ _ Ht He) as Hp.
      assert (attempt_outcome backend w url q 0 = Rejected e1) as H0.
      { destruct (Hall O) as (e & Hq & _).
        destruct Hout as [Hout|(resp & Hout & _)]; congruence. }
      apply IH in Hrec as (Hposts & le' & -> & Hzero & Hlast).
      * split; [lia|]. exists le'. split; [reflexivity|].
        split; [discriminate|]. intros _.
        destruct r as [|r].
        { exists e1. split; [apply Hzero; reflexivity|exact H0]. }
        destruct Hlast as (e & -> & Hq); [discriminate|].
        exists e. split; [reflexivity|].
        rewrite (attempt_outcome_shift w w2 _ Hp) in Hq.
        replace (S (S r) - 1)%nat with (S (S r - 1)) by lia. exact Hq.
      * intros k. destruct (Hall (S k)) as (e & Hq & Hn). exists e.
        rewrite (attempt_outcome_shift w w2 _ Hp). auto.
Qed.

End Loop.

Section Call.

Variable backend : Backend.
Variable url : string.
Variable q : MCPRequest.
Variable options : ForwardingOptions.
Variable w : World.

Let opts := spread defaultOptions options.
Let M := num (maxRetries opts).
Let b := num (retryDelay opts).
Let tmo := num (timeout opts).
Let w' := snd (forwardRequest backend url q options w).

Lemma forwardRequest_world :
  exists x, attempt_loop backend url q opts (Z.to_nat M) 1 None w = (x, w').
Proof.
  subst w'. unfold forwardRequest. fold opts. fold M.
  replace (iterations M 1) with (Z.to_nat M) by (unfold iterations; lia).
  destruct (attempt_loop backend url q opts (Z.to_nat M) 1 None w)
    as [[d|le] w1]; simpl; eauto.
Qed.

(** The trace of a call: nothing when [maxRetries] allows no attempt,
    else some attempts with their waits and a last attempt. *)
Lemma forwardRequest_trace :
  (M <= 0 /\ w' = w)
  \/ exists k, (k < Z.to_nat M)%nat
       /\ trace w' = trace w ++ waits_trace url q tmo b k 1.
Proof.
  destruct forwardRequest_world as [x Hx].
  destruct (Z.le_gt_cases M 0) as [Hle|Hgt].
  - left. split; [exact Hle|].
    replace (Z.to_nat M) with O in Hx by lia. simpl in Hx. congruence.
  - right. apply attempt_loop_shape in Hx as [[H0 _]|Hk]; [lia|exact Hk|].
    fold M. lia.
Qed.

Lemma forwardRequest_attempts_bound :
  (posts (trace w) <= posts (trace w'))%nat
  /\ (attempts_made w w' <= Z.to_nat M)%nat.
Proof.
  destruct forwardRequest_world as [x Hx].
  apply attempt_loop_posts in Hx. unfold attempts_made.
  destruct (Z.to_nat M); lia.
Qed.

End Call.

(** *** Envelope validation *)

Lemma isValidMCPResponse_sound (data : value) :
  isValidMCPResponse data = true ->
  exactly_one data
  /\ prop data "jsonrpc" = VStr "2.0"
  /\ (has_key "error" data = true ->
      typeof_number (prop (prop data "error") "code") = true
      /\ typeof_string (prop (prop data "error") "message") = true).
Proof.
  unfold isValidMCPResponse, exactly_one.
  destruct (negb (truthy data) || negb (typeof_object data)); [discriminate|].
  destruct (prop data "jsonrpc") as [| | | |v| |] eqn:Hj; simpl; try discriminate.
  destruct (String.eqb_spec v "2.0") as [->|]; simpl; [|discriminate].
  destruct (has_key "result" data), (has_key "error" data); simpl;
    try discriminate; intros H; repeat split; try discriminate; auto.
  all: destruct (negb (truthy (prop data "error"))
                 || negb (typeof_object (prop data "error"))); [discriminate|].
  all: destruct (typeof_number (prop (prop data "error") "code")),
         (typeof_string (prop (prop data "error") "message"));
       simpl in H; auto; discriminate.
Qed.

Lemma createMCPErrorResponse_valid code message id data :
  isValidMCPResponse (createMCPErrorResponse code message id data) = true.
Proof. reflexivity. Qed.

Lemma attempt_loop_returns_valid backend url q opts remaining attempt le w d w' :
  attempt_loop backend url q opts remaining attempt le w = (LoopReturn d, w') ->
  isValidMCPResponse d = true.
Proof.
  revert attempt le w. induction remaining as [|r IH]; intros attempt le w.
  - discriminate.
  - simpl. intros H.
    apply attempt_body_cases in H as (w1 & e & _ & [Hret|[_ [Hbrk|Hgo]]]).
    + destruct Hret as (resp & _ & Hv & [= ->] & _). exact Hv.
    + destruct Hbrk as (_ & [=] & _).
    + destruct Hgo as (w2 & _ & Hrec). eapply IH, Hrec.
Qed.

Lemma forwardRequest_valid backend url q options w :
  isValidMCPResponse (fst (forwardRequest backend url q options w)) = true.
Proof.
  unfold forwardRequest.
  destruct (attempt_loop _ _ _ _ _ _ _ _) as [[d|le] w1] eqn:Hl; simpl.
  - eapply attempt_loop_returns_valid, Hl.
  - reflexivity.
Qed.

Lemma attempt_body_ext backend url q opts c1 c2 attempt w :
  (forall le w2, c1 le w2 = c2 le w2) ->
  attempt_body backend url q opts c1 attempt w
  = attempt_body backend url q opts c2 attempt w.
Proof.
  intros Hc. unfold attempt_body.
  destruct (http_post _ _ _ _ _) as [[resp|e] w1].
  - destruct (isValidMCPResponse (data resp)); [reflexivity|].
    destruct (on_error _ _ _ _); [apply Hc|reflexivity].
  - destruct (on_error _ _ _ _); [apply Hc|reflexivity].
Qed.

(** A malformed reply has the effect of a POST that failed. *)
Lemma attempt_loop_reject_invalid backend url q opts remaining attempt le w :
  attempt_loop (reject_invalid url backend) url q opts remaining attempt le w
  = attempt_loop backend url q opts remaining attempt le w.
Proof.
  revert attempt le w. induction remaining as [|r IH]; intros attempt le w.
  - reflexivity.
  - simpl.
    rewrite (attempt_body_ext _ _ _ _ _
               (attempt_loop backend url q opts r (attempt + 1))) by apply IH.
    unfold attempt_body, http_post, reject_invalid.
    destruct (backend _ _ _) as [[resp|e] took]; [|reflexivity].
    destruct (isValidMCPResponse (data resp)) eqn:Hv; [rewrite Hv|]; reflexivity.
Qed.

(** C5: every envelope the forwarder returns has exactly one of [result]
    and [error]; a reply passes validation only with version 2.0, exactly
    one of the two keys and, for an error, a numeric code and a string
    message; a reply that fails validation acts as a failed POST and is
    never what the caller gets. *)
Theorem forwardRequest_envelope_invariant backend url q options w :
  let envelope := fst (forwardRequest backend url q options w) in
  exactly_one envelope
  /\ (forall data, isValidMCPResponse data = true ->
        exactly_one data
        /\ prop data "jsonrpc" = VStr "2.0"
        /\ (has_key "error" data = true ->
            typeof_number (prop (prop data "error") "code") = true
            /\ typeof_string (prop (prop data "error") "message") = true))
  /\ forwardRequest (reject_invalid url backend) url q options w
     = forwardRequest backend url q options w
  /\ (forall data, isValidMCPResponse data = false -> envelope <> data).
Proof.
  intros envelope.
  pose proof (forwardRequest_valid backend url q options w) as Hv.
  fold envelope in Hv. repeat split.
  - apply isValidMCPResponse_sound, Hv.
  - apply isValidMCPResponse_sound; assumption.
  - apply isValidMCPResponse_sound; assumption.
  - apply isValidMCPResponse_sound; assumption.
  - apply isValidMCPResponse_sound; assumption.
  - unfold forwardRequest. rewrite attempt_loop_reject_invalid. reflexivity.
  - intros data Hd ->. congruence.
Qed.

(** *** Retry policy *)

Lemma axios_error_client s :
  400 <= s < 500 ->
  isAxiosError (axios_error (BackendStatus s)) = true
  /\ is_client_error (axios_error (BackendStatus s)) = true.
Proof.
  intros Hs. split; [reflexivity|]. unfold is_client_error; simpl.
  destruct (Z.eqb_spec s 0); [lia|].
  destruct (Z.leb_spec 400 s); [|lia]. destruct (Z.ltb_spec s 500); [|lia].
  reflexivity.
Qed.

Lemma axios_error_retryable f :
  retryable f ->
  (isAxiosError (axios_error f) && is_client_error (axios_error f)) = false.
Proof.
  destruct f as [msg|ms|s]; simpl; try reflexivity.
  intros Hs. unfold is_client_error; simpl.
  destruct (Z.ltb_spec s 500); [lia|]. rewrite andb_false_r. reflexivity.
Qed.

(** Within the limit of the code: a call makes at most [maxRetries]
    attempts; no attempt follows one answered with a 4xx status; an
    attempt that ends in a network failure, a timeout or a 5xx status is
    followed by another one while it is not the last the limit allows.
    Attempts are counted from 0. *)
Lemma forwardRequest_retry_policy backend url q options w :
  let opts := spread defaultOptions options in
  let w' := snd (forwardRequest backend url q options w) in
  Z.of_nat (attempts_made w w') <= Z.max 0 (num (maxRetries opts))
  /\ (forall k s,
        attempt_outcome backend w url q k
        = Rejected (axios_error (BackendStatus s)) ->
        400 <= s < 500 ->
        (attempts_made w w' <= k + 1)%nat)
  /\ (forall k f,
        (k < attempts_made w w')%nat ->
        attempt_outcome backend w url q k = Rejected (axios_error f) ->
        retryable f ->
        Z.of_nat k + 1 < num (maxRetries opts) ->
        (k + 2 <= attempts_made w w')%nat).
Proof.
  intros opts w'.
  destruct (forwardRequest_world backend url q options w) as [x Hx].
  destruct (forwardRequest_attempts_bound backend url q options w) as [Hmono Hb].
  fold opts in Hx, Hb. fold w' in Hx, Hb, Hmono.
  unfold attempts_made in *. repeat split.
  - lia.
  - intros k s Ho Hs. apply axios_error_client in Hs as [Ha Hc].
    pose proof (client_error_final _ _ _ _ _ _ _ _ _ _ _ _ Hx Ho Ha Hc). lia.
  - intros k f Hk Ho Hf Hlim. apply axios_error_retryable in Hf.
    assert (posts (trace w) + k < posts (trace w'))%nat as Hk' by lia.
    assert (k + 1 < Z.to_nat (num (maxRetries opts)))%nat as Hr by lia.
    pose proof (failure_retried _ _ _ _ _ _ _ _ _ _ _ _ Hx Hk' Ho Hf Hr). lia.
Qed.

Lemma forwardRequest_envelope_invariant_witness :
  exactly_one (createMCPResponse (VObj []) None)
  /\ fst (forwardRequest (Samples.always (Resolved {| status := 200; data := VNum 7 |}))
            "http://localhost:8001" Samples.req noOptions Samples.w0)
     <> VNum 7.
Proof.
  split.
  - apply (proj1 (proj2 (forwardRequest_envelope_invariant
             (Samples.always (Rejected Samples.networkError))
             "http://localhost:8001" Samples.req noOptions Samples.w0))
             (createMCPResponse (VObj []) None)).
    reflexivity.
  - apply (proj2 (proj2 (proj2 (forwardRequest_envelope_invariant
             (Samples.always (Resolved {| status := 200; data := VNum 7 |}))
             "http://localhost:8001" Samples.req noOptions Samples.w0)))).
    reflexivity.
Defined.

(** *** The attempt budget *)

(** When every POST fails, none with a 4xx status, a call makes
    [maxRetries] attempts and reports as many. *)
Lemma forwardRequest_exhaustion backend url q options w :
  let opts := spread defaultOptions options in
  let M := num (maxRetries opts) in
  (forall k, exists e, attempt_outcome backend w url q k = Rejected e
               /\ (isAxiosError e && is_client_error e) = false) ->
  let '(envelope, w') := forwardRequest backend url q options w in
  attempts_made w w' = Z.to_nat M
  /\ error_code envelope = Some (-32603)
  /\ prop (error_data envelope) "serverUrl" = VStr url
  /\ prop (error_data envelope) "attempts" = VNum M
  /\ prop (error_data envelope) "totalDuration"
     = VStr (pretty (now w' - now w) ++ "ms")%string
  /\ (0 < M -> exists e,
        attempt_outcome backend w url q (Z.to_nat M - 1) = Rejected e
        /\ error_message envelope
           = Some ("Failed to forward request to " ++ url ++ ": "
                   ++ str_or (Some (message e)) "Unknown error")%string).
Proof.
  intros opts M Hall. unfold forwardRequest. fold opts. fold M.
  replace (iterations M 1) with (Z.to_nat M) by (unfold iterations; lia).
  destruct (attempt_loop backend url q opts (Z.to_nat M) 1 None w)
    as [x w'] eqn:Hl.
  apply attempt_loop_exhausts in Hl as (Hp & le' & -> & _ & Hlast); [|exact Hall].
  unfold attempts_made. repeat split; try reflexivity; [lia|].
  intros HM. destruct Hlast as (e & -> & He); [lia|].
  exists e. split; [exact He|reflexivity].
Qed.

(** C3: with [maxRetries] 2 and a backend that never answers, a call
    makes two attempts and reports two, where the specification has
    three; a call without options makes the three attempts of the
    default [maxRetries] 3, where the specification has four. The loop
    runs [maxRetries] times, not [maxRetries + 1]. *)
Theorem forwardRequest_two_attempts_for_maxRetries_2 :
  let options := {| timeout := Some 5000; maxRetries := Some 2;
                    retryDelay := Some 100 |} in
  let run := forwardRequest (Samples.always (Rejected Samples.networkError))
               "http://localhost:8001" Samples.req options Samples.w0 in
  let run' := forwardRequest (Samples.always (Rejected Samples.networkError))
                "http://localhost:8001" Samples.req noOptions Samples.w0 in
  attempts_made Samples.w0 (snd run) = 2%nat
  /\ attempts_made Samples.w0 (snd run) <> Z.to_nat (2 + 1)
  /\ error_code (fst run) = Some (-32603)
  /\ error_message (fst run)
     = Some "Failed to forward request to http://localhost:8001: Connection timeout"
  /\ prop (error_data (fst run)) "serverUrl" = VStr "http://localhost:8001"
  /\ prop (error_data (fst run)) "attempts" = VNum 2
  /\ attempts_made Samples.w0 (snd run') = 3%nat
  /\ prop (error_data (fst run')) "attempts" = VNum 3.
Proof. vm_compute. repeat split; congruence. Qed.

(** C6: a failure that the specification retries is not retried at
    attempt [maxRetries], one short of the specification's limit of
    [maxRetries + 1] attempts. With [maxRetries] 2 and a backend that
    answers every POST with a 503, with a network failure or with a
    timeout, the second failure ends the call; with [maxRetries] 1 a
    503 is not retried at all. A 404 ends the call at once. *)
Theorem forwardRequest_no_retry_at_maxRetries :
  let attempts (maxRetries : Z) (f : Failure) :=
    attempts_made Samples.w0
      (snd (forwardRequest (Samples.always (Rejected (axios_error f)))
              "http://localhost:8001" Samples.req
              {| timeout := None; maxRetries := Some maxRetries;
                 retryDelay := Some 100 |}
              Samples.w0)) in
  attempts 2 (BackendStatus 503) = 2%nat
  /\ attempts 2 (NetworkFailure "connect ECONNREFUSED") = 2%nat
  /\ attempts 2 (AttemptTimeout 30000) = 2%nat
  /\ attempts 2 (BackendStatus 503) <> Z.to_nat (2 + 1)
  /\ attempts 1 (BackendStatus 503) = 1%nat
  /\ attempts 2 (BackendStatus 404) = 1%nat.
Proof. vm_compute. repeat split; congruence. Qed.

(** *** Backoff *)

(** The waits of a call: after attempt [n], [retryDelay * 2^(n-1)]. *)
Lemma forwarder_backoff_delays backend url q options w :
  let opts := spread defaultOptions options in
  let b := num (retryDelay opts) in
  let w' := snd (forwardRequest backend url q options w) in
  (num (maxRetries opts) <= 0 /\ w' = w)
  \/ exists k, (k < Z.to_nat (num (maxRetries opts)))%nat
       /\ trace w' = trace w ++ waits_trace url q (num (timeout opts)) b k 1
       /\ sleeps (trace w')
          = sleeps (trace w)
            ++ map (fun n => times_pow2 b (Z.of_nat n - 1)) (seq 1 k).
Proof.
  intros opts b w'.
  destruct (forwardRequest_trace backend url q options w) as [H|(k & Hk & Ht)];
    [left; exact H|right].
  exists k. split; [exact Hk|]. split; [exact Ht|].
  fold w' in Ht. rewrite Ht, sleeps_app, sleeps_waits_trace.
  f_equal. rewrite <- seq_shift, map_map. apply map_ext. intros i.
  f_equal. lia.
Qed.

(** C4: the wait of the forwarder has no cap. With [retryDelay] 1000 and
    [maxRetries] 7 the waits of a call that fails throughout are 1000,
    2000, 4000, 8000, 16000 and 32000 ms: the wait between attempts 6
    and 7 is above the 30000 of the specification, which is what
    [getRetryDelay 6 1000] gives. *)
Theorem forwarder_delay_exceeds_cap :
  let options := {| timeout := None; maxRetries := Some 7;
                    retryDelay := Some 1000 |} in
  let w' := snd (forwardRequest
                   (Samples.always (Rejected (axios_error (BackendStatus 503))))
                   "http://localhost:8001" Samples.req options Samples.w0) in
  sleeps (trace w')
  = [Whole 1000; Whole 2000; Whole 4000; Whole 8000; Whole 16000; Whole 32000]
  /\ map (fun n => ErrorHandler.getRetryDelay n 1000) [1; 2; 3; 4; 5; 6]
     = [Whole 1000; Whole 2000; Whole 4000; Whole 8000; Whole 16000;
        Whole 30000]
  /\ sleeps (trace w') !! 5%nat <> Some (ErrorHandler.getRetryDelay 6 1000).
Proof. vm_compute. repeat split; congruence. Qed.

End ForwarderFacts.

(** * Properties of the router and of the gateway's routing path *)

Module RouterFacts.

Import Router.

(** The lookup key of a path: what lies between the leading slashes and
    the next slash. *)
Lemma first_segment_spec (s : string) :
  exists rest,
    s = (first_segment s ++ rest)%string
    /\ slash_free (first_segment s) = true
    /\ (rest = EmptyString \/ exists r, rest = String "/" r).
Proof.
  induction s as [|c s IH].
  - exists EmptyString. simpl. auto.
  - simpl. destruct (Ascii.eqb_spec c "/") as [->|Hc].
    + exists (String "/" s). simpl. eauto.
    + destruct IH as (rest & Hs & Hf & Hr).
      exists rest. split; [|split; [|exact Hr]].
      { change (String c s = String c (first_segment s ++ rest)%string).
        f_equal; exact Hs. }
      simpl. destruct (Ascii.eqb_spec c "/"); [contradiction|]. exact Hf.
Qed.

Lemma prefix_key_spec (path : string) :
  let key := key_of path in
  exists n rest,
    path = (slashes n ++ key ++ rest)%string
    /\ slash_free key = true
    /\ (rest = EmptyString \/ (key <> EmptyString /\ exists r, rest = String "/" r)).
Proof.
  unfold key_of. simpl. induction path as [|c path IH].
  - exists O, EmptyString. simpl. auto.
  - simpl strip_leading_slashes. destruct (Ascii.eqb_spec c "/") as [->|Hc].
    + destruct IH as (n & rest & Hp & Hf & Hr).
      exists (S n), rest. split; [|auto].
      change (String "/" path
              = String "/" (slashes n ++ first_segment (strip_leading_slashes path)
                            ++ rest)%string).
      f_equal; exact Hp.
    + destruct (first_segment_spec (String c path)) as (rest & Hs & Hf & Hr).
      exists O, rest. simpl slashes. simpl append at 1.
      split; [exact Hs|]. split; [exact Hf|].
      destruct Hr as [->|Hr]; [left; reflexivity|right]. split; [|exact Hr].
      simpl. destruct (Ascii.eqb_spec c "/"); [contradiction|discriminate].
Qed.

Lemma routeByPrefix_key config path :
  routeByPrefix config (Some path)
  = if String.eqb (key_of path) EmptyString then None
    else rule_for config (key_of path).
Proof.
  unfold routeByPrefix, key_of.
  destruct (String.eqb_spec path EmptyString) as [->|]; reflexivity.
Qed.

Lemma routeRequest_of_route config servers request requestPath headers :
  routeRequest config servers request requestPath headers
  = match route config servers requestPath headers with
    | inr (serverName, serverUrl) =>
        {| serverName := serverName; serverUrl := serverUrl;
           success := true; error := None |}
    | inl e => routing_failure (message e)
    end.
Proof. reflexivity. Qed.

Lemma dispatch_prefix config requestPath headers :
  strategy config = "prefix" ->
  dispatch config requestPath headers = inr (routeByPrefix config requestPath).
Proof. unfold dispatch. intros ->. reflexivity. Qed.

Lemma dispatch_invalid config requestPath headers :
  strategy config <> "prefix" -> strategy config <> "header" ->
  exists e, dispatch config requestPath headers = inl e
            /\ message e = "Invalid routing strategy".
Proof.
  unfold dispatch. intros Hp Hh.
  destruct (String.eqb_spec (strategy config) "prefix"); [contradiction|].
  destruct (String.eqb_spec (strategy config) "header"); [contradiction|].
  eexists; split; reflexivity.
Qed.

(** A resolved name is looked up among the servers, and then among the
    members the servers object inherits. *)
Lemma route_resolved config servers request requestPath headers target serverName :
  dispatch config requestPath headers = inr target ->
  or_default config target = Some serverName ->
  routeRequest config servers request requestPath headers
  = match assoc (text_of serverName) servers with
    | Some server =>
        {| serverName := serverName; serverUrl := Some (url server);
           success := true; error := None |}
    | None =>
        if inherited (text_of serverName)
        then {| serverName := serverName; serverUrl := None;
                success := true; error := None |}
        else routing_failure "Server not found"
    end.
Proof.
  intros Hd Ho. unfold routeRequest, route, getServerUrl. rewrite Hd, Ho.
  destruct (assoc (text_of serverName) servers); [reflexivity|].
  destruct (inherited (text_of serverName)); reflexivity.
Qed.

(** The text of a built-in member is the name of none. *)
Lemma builtin_text_not_inherited member :
  inherited (builtin_text member) = false.
Proof.
  unfold builtin_text. destruct (String.eqb member "__proto__"); [reflexivity|].
  unfold inherited, prototype_members. cbn [existsb].
  repeat (apply orb_false_iff; split); try reflexivity;
    apply String.eqb_neq; intros H;
    apply (f_equal (fun t => String.get 8 t)) in H; discriminate H.
Qed.

(** What prefix routing does with a name that is no inherited member:
    the key is the first segment after the leading slashes; a rule of
    that name resolves to its server; an empty or absent segment, or a
    name without a rule, falls through to the default server, and fails
    with [No route found] when there is none; a server that is not
    configured is the failure [Server not found]. *)
Lemma routeRequest_prefix_rules config servers request headers :
  strategy config = "prefix" ->
  (forall path,
     exists n rest,
       path = (slashes n ++ key_of path ++ rest)%string
       /\ slash_free (key_of path) = true
       /\ (rest = EmptyString
           \/ (key_of path <> EmptyString /\ exists r, rest = String "/" r)))
  /\ (forall path target server,
        key_of path <> EmptyString ->
        assoc (key_of path) (rules config) = Some target ->
        target <> EmptyString ->
        assoc target servers = Some server ->
        routeRequest config servers request (Some path) headers
        = {| serverName := Text target; serverUrl := Some (url server);
             success := true; error := None |})
  /\ (forall requestPath d server,
        requestPath = None
        \/ (exists path, requestPath = Some path
              /\ (key_of path = EmptyString
                  \/ (assoc (key_of path) (rules config) = None
                      /\ inherited (key_of path) = false))) ->
        defaultServer config = Some d -> d <> EmptyString ->
        assoc d servers = Some server ->
        routeRequest config servers request requestPath headers
        = {| serverName := Text d; serverUrl := Some (url server);
             success := true; error := None |})
  /\ (forall requestPath,
        requestPath = None
        \/ (exists path, requestPath = Some path
              /\ (key_of path = EmptyString
                  \/ (assoc (key_of path) (rules config) = None
                      /\ inherited (key_of path) = false))) ->
        defaultServer config = None ->
        routeRequest config servers request requestPath headers
        = routing_failure "No route found")
  /\ (forall path target,
        key_of path <> EmptyString ->
        assoc (key_of path) (rules config) = Some target ->
        target <> EmptyString ->
        assoc target servers = None -> inherited target = false ->
        routeRequest config servers request (Some path) headers
        = routing_failure "Server not found").
Proof.
  intros Hs.
  assert (Hnone : forall requestPath,
            requestPath = None
            \/ (exists path, requestPath = Some path
                  /\ (key_of path = EmptyString
                      \/ (assoc (key_of path) (rules config) = None
                          /\ inherited (key_of path) = false))) ->
            routeByPrefix config requestPath = None).
  { intros requestPath [->|(path & -> & Hk)]; [reflexivity|].
    rewrite routeByPrefix_key. destruct Hk as [->|[Hk Hi]]; [reflexivity|].
    unfold rule_for. rewrite Hk, Hi.
    destruct (String.eqb (key_of path) EmptyString); reflexivity. }
  assert (Hrule : forall path target,
            key_of path <> EmptyString ->
            assoc (key_of path) (rules config) = Some target ->
            target <> EmptyString ->
            routeByPrefix config (Some path) = Some (Text target)).
  { intros path target Hk Hr Ht. rewrite routeByPrefix_key.
    destruct (String.eqb_spec (key_of path) EmptyString); [contradiction|].
    unfold rule_for. rewrite Hr.
    destruct (String.eqb_spec target EmptyString); [contradiction|].
    reflexivity. }
  split; [|split; [|split; [|split]]].
  - intros path. apply prefix_key_spec.
  - intros path target server Hk Hr Ht Hsrv.
    erewrite route_resolved;
      [|apply dispatch_prefix, Hs|rewrite (Hrule path target) by assumption;
                                  reflexivity].
    simpl text_of. rewrite Hsrv. reflexivity.
  - intros requestPath d server Hp Hd Hne Hsrv.
    erewrite route_resolved;
      [|apply dispatch_prefix, Hs|
       rewrite Hnone by exact Hp; unfold or_default; rewrite Hd;
       destruct (String.eqb_spec d EmptyString); [contradiction|reflexivity]].
    simpl text_of. rewrite Hsrv. reflexivity.
  - intros requestPath Hp Hd. unfold routeRequest, route.
    rewrite dispatch_prefix by exact Hs. rewrite Hnone by exact Hp.
    unfold or_default. rewrite Hd. reflexivity.
  - intros path target Hk Hr Ht Hsrv Hi.
    erewrite route_resolved;
      [|apply dispatch_prefix, Hs|rewrite (Hrule path target) by assumption;
                                  reflexivity].
    simpl text_of. rewrite Hsrv, Hi. reflexivity.
Qed.

(** C7: the lookups of the router also find the members that a plain
    object inherits. Under the rule github -> github-backend and no
    default, the path [/github/x] resolves to github-backend. The path
    [/constructor/x], whose key has no rule, does not fail with
    [No route found] but with [Server not found]: the lookup gives the
    inherited [constructor], whose text names no server. And a rule
    that names the backend [toString], absent from the servers, does not
    fail with [Server not found]: the lookup among the servers gives the
    inherited [toString], and the request is routed with no address. An
    unsupported strategy fails with [Invalid routing strategy]. *)
Theorem routeRequest_prefix_inherited_names :
  let server := {| name := "github-backend"; url := "http://localhost:8001";
                   timeout := None; maxRetries := None;
                   healthCheckPath := None |} in
  let servers := [("github-backend", server)] in
  let config := {| strategy := "prefix";
                   rules := [("github", "github-backend")];
                   defaultServer := None |} in
  let misnamed := {| strategy := "prefix";
                     rules := [("github", "toString")];
                     defaultServer := None |} in
  routeRequest config servers Samples.req (Some "/github/x") None
  = {| serverName := Text "github-backend";
       serverUrl := Some "http://localhost:8001";
       success := true; error := None |}
  /\ key_of "/constructor/x" = "constructor"
  /\ assoc "constructor" (rules config) = None
  /\ routeRequest config servers Samples.req (Some "/constructor/x") None
     = routing_failure "Server not found"
  /\ routeRequest config servers Samples.req (Some "/constructor/x") None
     <> routing_failure "No route found"
  /\ assoc "toString" servers = None
  /\ routeRequest misnamed servers Samples.req (Some "/github/x") None
     = {| serverName := Text "toString"; serverUrl := None;
          success := true; error := None |}
  /\ routeRequest misnamed servers Samples.req (Some "/github/x") None
     <> routing_failure "Server not found"
  /\ routeRequest {| strategy := "suffix"; rules := []; defaultServer := None |}
       servers Samples.req (Some "/github/x") None
     = routing_failure "Invalid routing strategy".
Proof. vm_compute. repeat split; congruence. Qed.

End RouterFacts.

Module GatewayFacts.

Import Forwarder Router Gateway.

Lemma routeRequest_failure_iff config servers request requestPath headers :
  success (routeRequest config servers request requestPath headers) = false
  <-> exists e, route config servers requestPath headers = inl e.
Proof.
  unfold routeRequest.
  destruct (route config servers requestPath headers) as [e|[n u]]; simpl.
  - split; eauto.
  - split; [discriminate|]. intros [e He]. discriminate.
Qed.

(** The three ways for [route] to throw. *)
Lemma route_failure_causes config servers requestPath headers e :
  route config servers requestPath headers = inl e ->
  message e = "Invalid routing strategy"
  \/ message e = "No route found"
  \/ message e = "Server not found".
Proof.
  unfold route, getServerUrl.
  destruct (dispatch config requestPath headers) as [e'|found] eqn:Hd.
  - intros [= <-]. left. unfold dispatch in Hd.
    destruct (String.eqb (strategy config) "prefix"); [discriminate|].
    destruct (String.eqb (strategy config) "header"); [discriminate|].
    injection Hd as <-. reflexivity.
  - destruct (or_default config found) as [n|].
    + destruct (assoc (text_of n) servers); [discriminate|].
      destruct (inherited (text_of n)); [discriminate|].
      intros [= <-]. right. right. reflexivity.
    + intros [= <-]. right. left. reflexivity.
Qed.

Lemma handleRequest_unrouted
    aggregate backend unaddressed config request requestPath headers w :
  method request <> "get_methods" ->
  success (routeRequest (routing config) (servers config) request
             requestPath headers) = false ->
  handleRequest aggregate backend unaddressed config request requestPath
    headers w
  = (createMCPErrorResponse (-32601)
       (str_or (error (routeRequest (routing config) (servers config) request
                         requestPath headers))
               "No route found for request")
       (id request)
       (VObj [("requestPath", opt_str requestPath);
              ("availableServers",
               VArr (map (fun entry => VStr (fst entry)) (servers config)))]),
     w).
Proof.
  intros Hm Hf. unfold handleRequest.
  destruct (String.eqb_spec (method request) "get_methods"); [contradiction|].
  rewrite Hf. reflexivity.
Qed.

(** C10: a request other than the discovery call whose routing fails gets
    an error envelope with code -32601 and is not forwarded. [routeRequest]
    turns each thrown routing error (invalid strategy, no route, server
    not found) into a failure result, and the gateway maps every failure
    result to -32601, also the invalid strategy for which
    [getErrorCodeForRoutingError] has -32602. *)
Theorem handleRequest_routing_failure
    aggregate backend unaddressed config request requestPath headers w :
  method request <> "get_methods" ->
  let run := handleRequest aggregate backend unaddressed config request
               requestPath headers w in
  let routed := routeRequest (routing config) (servers config) request
                  requestPath headers in
  (forall e,
     route (routing config) (servers config) requestPath headers = inl e ->
     routed = routing_failure (message e)
     /\ (message e = "Invalid routing strategy"
         \/ message e = "No route found"
         \/ message e = "Server not found"))
  /\ (success routed = false ->
      error_code (fst run) = Some (-32601)
      /\ has_key "result" (fst run) = false
      /\ snd run = w)
  /\ (strategy (routing config) <> "prefix" ->
      strategy (routing config) <> "header" ->
      routed = routing_failure "Invalid routing strategy"
      /\ ErrorHandler.getErrorCodeForRoutingError "Invalid routing strategy"
         = -32602
      /\ error_code (fst run) = Some (-32601)).
Proof.
  intros Hm run routed. split; [|split].
  - intros e He. split.
    + subst routed. unfold routeRequest. rewrite He. reflexivity.
    + eapply route_failure_causes, He.
  - intros Hf. subst run. rewrite handleRequest_unrouted by assumption.
    repeat split.
  - intros Hp Hh.
    assert (routed = routing_failure "Invalid routing strategy") as Hr.
    { subst routed. unfold routeRequest, route.
      destruct (RouterFacts.dispatch_invalid (routing config) requestPath
                  headers Hp Hh) as (e & -> & ->).
      reflexivity. }
    split; [exact Hr|]. split; [reflexivity|].
    subst run. rewrite handleRequest_unrouted; [reflexivity|exact Hm|].
    fold routed. rewrite Hr. reflexivity.
Qed.

Lemma handleRequest_routing_failure_witness :
  let config := {| servers := [];
                   routing := {| strategy := "round-robin"; rules := [];
                                 defaultServer := None |} |} in
  let run := handleRequest (fun _ w => (inr VNull, w))
               (Samples.always (Rejected Samples.networkError))
               (fun _ w => (VNull, w))
               config Samples.req (Some "/github/x") None Samples.w0 in
  error_code (fst run) = Some (-32601).
Proof.
  intros config run.
  apply (proj2 (proj2 (handleRequest_routing_failure (fun _ w => (inr VNull, w))
           (Samples.always (Rejected Samples.networkError))
           (fun _ w => (VNull, w))
           config Samples.req (Some "/github/x") None Samples.w0
           ltac:(discriminate)))).
  - discriminate.
  - discriminate.
Defined.

End GatewayFacts.

(** * Properties of the error handler's redaction *)

Module SanitizeFacts.

Import ErrorHandler.

Lemma prefix_spec (a s : string) :
  String.prefix a s = true <-> exists post, s = (a ++ post)%string.
Proof.
  revert s. induction a as [|c a IH]; intros s.
  - split; [intros _; exists s; reflexivity|destruct s; reflexivity].
  - destruct s as [|d s]; simpl.
    + split; [discriminate|]. intros [post Hp]. discriminate.
    + destruct (ascii_dec c d) as [->|Hne].
      * rewrite IH. split; intros [post Hp]; exists post.
        -- change (String d s = String d (a ++ post)%string). f_equal; exact Hp.
        -- change (String d s = String d (a ++ post)%string) in Hp.
           congruence.
      * split; [discriminate|]. intros [post Hp].
        change (String d s = String c (a ++ post)%string) in Hp. congruence.
Qed.

Lemma string_app_assoc (a b c : string) :
  ((a ++ b) ++ c = a ++ (b ++ c))%string.
Proof.
  induction a as [|x a IH]; [reflexivity|].
  change (String x ((a ++ b) ++ c) = String x (a ++ (b ++ c)))%string.
  f_equal; exact IH.
Qed.

Lemma includes_nil (a : string) :
  includes a EmptyString = String.prefix a EmptyString.
Proof. unfold includes. apply orb_false_r. Qed.

Lemma includes_cons (a : string) (d : ascii) (s : string) :
  includes a (String d s) = String.prefix a (String d s) || includes a s.
Proof. reflexivity. Qed.

Lemma includes_spec (a s : string) :
  includes a s = true <-> exists pre post, s = (pre ++ a ++ post)%string.
Proof.
  induction s as [|d s IH].
  - rewrite includes_nil, prefix_spec. split.
    + intros [post Hp]. exists EmptyString, post. exact Hp.
    + intros (pre & post & Hp). destruct pre as [|x pre]; [eauto|discriminate].
  - rewrite includes_cons, orb_true_iff, prefix_spec, IH. split.
    + intros [[post Hp]|(pre & post & Hp)].
      * exists EmptyString, post. exact Hp.
      * exists (String d pre), post.
        change (String d s = String d (pre ++ a ++ post)%string).
        f_equal; exact Hp.
    + intros (pre & post & Hp). destruct pre as [|x pre].
      * left. exists post. exact Hp.
      * right. exists pre, post.
        change (String d s = String x (pre ++ a ++ post)%string) in Hp.
        congruence.
Qed.

Lemma includes_trans (a b c : string) :
  includes a b = true -> includes b c = true -> includes a c = true.
Proof.
  rewrite !includes_spec. intros (p1 & q1 & ->) (p2 & q2 & ->).
  exists (p2 ++ p1)%string, (q1 ++ q2)%string.
  rewrite !string_app_assoc. reflexivity.
Qed.

Lemma is_sensitive_unfold (key : string) :
  is_sensitive key
  = existsb (fun sensitive => includes sensitive (toLowerCase key)) sensitiveKeys.
Proof. reflexivity. Qed.

(** The ten entries of [sensitiveKeys] match what the six patterns match. *)
Lemma is_sensitive_patterns (key : string) :
  is_sensitive key = true
  <-> exists p, In p patterns /\ includes p (toLowerCase key) = true.
Proof.
  rewrite is_sensitive_unfold. unfold sensitiveKeys, patterns.
  set (k := toLowerCase key). cbn [existsb]. split.
  - intros H. repeat (apply orb_true_iff in H as [H|H]);
      try discriminate;
      try (eexists; split; [|exact H]; simpl; tauto).
    + exists "key". split; [simpl; tauto|].
      eapply includes_trans; [|exact H]. reflexivity.
    + exists "token". split; [simpl; tauto|].
      eapply includes_trans; [|exact H]. reflexivity.
    + exists "token". split; [simpl; tauto|].
      eapply includes_trans; [|exact H]. reflexivity.
    + exists "auth". split; [simpl; tauto|].
      eapply includes_trans; [|exact H]. reflexivity.
  - intros (p & Hin & Hp). simpl in Hin.
    destruct Hin as [<-|[<-|[<-|[<-|[<-|[<-|[]]]]]]]; rewrite Hp;
      rewrite ?orb_true_r; reflexivity.
Qed.

(** *** The shape of a sanitized object *)

Lemma sanitize_primitive (v : value) :
  typeof_object v = false -> sanitizeErrorData v = v.
Proof. destruct v; simpl; try reflexivity; discriminate. Qed.

Lemma sanitize_null : sanitizeErrorData VNull = VNull.
Proof. reflexivity. Qed.

Lemma sanitizeErrorData_object (fields : list (string * value)) :
  sanitizeErrorData (VObj fields)
  = VObj (map (fun kv =>
                 (fst kv, sanitize_entry (sanitizeErrorData (snd kv))
                            (fst kv) (snd kv)))
              fields).
Proof.
  simpl. f_equal. induction fields as [|[key v] fields IH]; [reflexivity|].
  simpl. rewrite IH. reflexivity.
Qed.

Lemma assoc_map_values {A B : Type} (f : string -> A -> B) key
    (l : list (string * A)) :
  assoc key (map (fun kv => (fst kv, f (fst kv) (snd kv))) l)
  = option_map (f key) (assoc key l).
Proof.
  induction l as [|[k v] l IH]; [reflexivity|]. simpl.
  destruct (String.eqb_spec key k) as [->|]; [reflexivity|exact IH].
Qed.

(** A key that is not sensitive holds the sanitized value. *)
Lemma sanitize_entry_keep rec key v :
  is_sensitive key = false -> rec = sanitizeErrorData v ->
  sanitize_entry rec key v = sanitizeErrorData v.
Proof.
  intros Hk ->. unfold sanitize_entry. rewrite Hk.
  destruct (typeof_object v) eqn:Ht; [reflexivity|].
  symmetry. apply sanitize_primitive, Ht.
Qed.

Lemma sanitize_lookup (fields : list (string * value)) (key : string) :
  assoc key (map (fun kv =>
                    (fst kv, sanitize_entry (sanitizeErrorData (snd kv))
                               (fst kv) (snd kv)))
                 fields)
  = option_map (fun v => if is_sensitive key then REDACTED
                         else sanitizeErrorData v)
               (assoc key fields).
Proof.
  rewrite (assoc_map_values
             (fun k v => sanitize_entry (sanitizeErrorData v) k v)).
  destruct (assoc key fields) as [v|]; [|reflexivity]. simpl. f_equal.
  destruct (is_sensitive key) eqn:Hk.
  - unfold sanitize_entry. rewrite Hk. reflexivity.
  - apply sanitize_entry_keep; [exact Hk|reflexivity].
Qed.

Lemma lookup_path_cons key path fields :
  lookup_path (key :: path) (VObj fields)
  = match assoc key fields with
    | Some x => lookup_path path x
    | None => None
    end.
Proof. reflexivity. Qed.

(** Below keys that are not sensitive, the value at a path is the
    sanitized value of the input at that path. *)
Lemma sanitize_path (path : list string) (v x : value) :
  Forall (fun key => is_sensitive key = false) path ->
  lookup_path path v = Some x ->
  lookup_path path (sanitizeErrorData v) = Some (sanitizeErrorData x).
Proof.
  revert v. induction path as [|key path IH]; intros v Hp Hl.
  - simpl in *. congruence.
  - inversion Hp as [|? ? Hk Hp']; subst.
    destruct v as [| | | | | |fields]; try discriminate.
    rewrite lookup_path_cons in Hl.
    destruct (assoc key fields) as [v0|] eqn:Ha; [|discriminate].
    rewrite sanitizeErrorData_object, lookup_path_cons, sanitize_lookup.
    rewrite Ha, Hk. simpl. apply IH; assumption.
Qed.

(** A sensitive key at any depth below keys that are not holds the marker. *)
Lemma sanitize_redacts (path : list string) (key : string) (v x : value) :
  Forall (fun key => is_sensitive key = false) path ->
  is_sensitive key = true ->
  lookup_path (path ++ [key]) v = Some x ->
  lookup_path (path ++ [key]) (sanitizeErrorData v) = Some REDACTED.
Proof.
  revert v. induction path as [|k path IH]; intros v Hp Hk Hl.
  - destruct v as [| | | | | |fields]; try discriminate.
    simpl app in *. rewrite lookup_path_cons in Hl.
    destruct (assoc key fields) as [v0|] eqn:Ha; [|discriminate].
    rewrite sanitizeErrorData_object, lookup_path_cons, sanitize_lookup.
    rewrite Ha, Hk. reflexivity.
  - inversion Hp as [|? ? Hk0 Hp']; subst.
    destruct v as [| | | | | |fields]; try discriminate.
    simpl app in *. rewrite lookup_path_cons in Hl.
    destruct (assoc k fields) as [v0|] eqn:Ha; [|discriminate].
    rewrite sanitizeErrorData_object, lookup_path_cons, sanitize_lookup.
    rewrite Ha, Hk0. simpl. apply IH; assumption.
Qed.

(** A value without arrays and without sensitive keys comes back as is. *)
Lemma sanitize_plain (v : value) :
  plain v = true -> sanitizeErrorData v = v.
Proof.
  revert v. fix IH 1. intros [| | | | |items|fields]; try reflexivity.
  - discriminate.
  - intros Hp. simpl in *. f_equal.
    induction fields as [|[key x] fields IHf]; [reflexivity|].
    apply andb_true_iff in Hp as [Hp Hrest].
    apply andb_true_iff in Hp as [Hk Hx].
    apply negb_true_iff in Hk.
    rewrite (IHf Hrest). f_equal. f_equal.
    rewrite (sanitize_entry_keep _ _ _ Hk eq_refl). apply IH, Hx.
Qed.

(** C8: an array does not come back as an array: the object spread turns
    it into an object keyed by the indices, at the top and under a key
    that is not sensitive, where the specification has arrays left intact. Keys
    inside are still redacted. *)
Theorem sanitizeErrorData_array_becomes_object :
  sanitizeErrorData (VArr [VNum 1; VNum 2])
  = VObj [("0", VNum 1); ("1", VNum 2)]
  /\ sanitizeErrorData
       (VObj [("user", VStr "u");
              ("items", VArr [VStr "a"; VObj [("token", VStr "t")]])])
     = VObj [("user", VStr "u");
             ("items", VObj [("0", VStr "a");
                             ("1", VObj [("token", VStr "[REDACTED]")])])]
  /\ sanitizeErrorData (VArr [VNum 1; VNum 2]) <> VArr [VNum 1; VNum 2].
Proof. vm_compute. repeat split. discriminate. Qed.

End SanitizeFacts.

(** * Properties of the response aggregator *)

Module AggregatorFacts.

Import Aggregator.
Local Open Scope nat_scope.
Local Open Scope list_scope.

(** *** The numbered names are distinct, so a scan meets a free one *)

Lemma numbered_inj (name : string) (c1 c2 : nat) :
  numbered name c1 = numbered name c2 -> c1 = c2.
Proof.
  unfold numbered. intros H.
  apply (inj (String.app name)) in H.
  apply (inj (String.app "_")) in H.
  apply (inj pretty) in H. exact H.
Qed.

Lemma map_has_elem (k : string) (m : MethodMap) :
  map_has k m = true -> k ∈ map fst m.
Proof.
  unfold map_has. induction m as [|[k' v] m IH]; simpl; [discriminate|].
  destruct (String.eqb_spec k k') as [->|_].
  - intros _. left.
  - intros H. right. apply IH, H.
Qed.

(** Among [length m + 1] numbered names one is not a key of [m]. *)
Lemma free_number (m : MethodMap) (name : string) (from : nat) :
  exists j, from <= j < from + S (length m)
            /\ map_has (numbered name j) m = false.
Proof.
  destruct (Exists_dec (fun j => map_has (numbered name j) m = false)
              (seq from (S (length m)))) as [Hex|Hall].
  - apply Exists_exists in Hex as (j & Hj & Hf). exists j.
    apply elem_of_seq in Hj. split; [lia|exact Hf].
  - exfalso.
    assert (numbered name <$> seq from (S (length m)) ⊆+ map fst m) as Hsub.
    { apply NoDup_submseteq.
      - apply NoDup_fmap_2_strong; [|apply NoDup_seq].
        intros c1 c2 _ _. apply numbered_inj.
      - intros k Hk. apply list_elem_of_fmap in Hk as (j & -> & Hj).
        apply map_has_elem.
        destruct (map_has (numbered name j) m) eqn:Hm; [reflexivity|].
        exfalso. apply Hall, Exists_exists. exists j.
        split; [exact Hj|exact Hm]. }
    apply submseteq_length in Hsub.
    rewrite length_fmap, length_seq, length_map in Hsub. lia.
Qed.

(** The first loop stops at the least free number from [counter] on. *)
Lemma suffix_scan_least (m : MethodMap) (name : string) (fuel counter : nat) :
  (exists j, counter <= j < counter + fuel
             /\ map_has (numbered name j) m = false) ->
  exists c, suffix_scan fuel m name counter = Some c
            /\ counter <= c
            /\ map_has (numbered name c) m = false
            /\ forall c', counter <= c' < c ->
                 map_has (numbered name c') m = true.
Proof.
  revert counter. induction fuel as [|fuel IH]; intros counter (j & Hj & Hf).
  - lia.
  - simpl. destruct (map_has (numbered name counter) m) eqn:Hc.
    + destruct (IH (S counter)) as (c & Hs & Hle & Hfree & Hbelow).
      { exists j. split; [|exact Hf].
        assert (j <> counter) by congruence. lia. }
      exists c. split; [exact Hs|]. split; [lia|]. split; [exact Hfree|].
      intros c' Hc'. destruct (Nat.eq_dec c' counter) as [->|]; [exact Hc|].
      apply Hbelow. lia.
    + exists counter. split; [reflexivity|]. split; [lia|].
      split; [exact Hc|]. intros c' Hc'. lia.
Qed.

Lemma suffix_scan_spec (m : MethodMap) (name : string) :
  exists c, suffix_scan (S (length m)) m name 1 = Some c
            /\ 1 <= c
            /\ map_has (numbered name c) m = false
            /\ forall c', 1 <= c' < c -> map_has (numbered name c') m = true.
Proof. apply suffix_scan_least, free_number. Qed.

(** The second loop stops as well. *)
Lemma unique_scan_stops (m : MethodMap) (finalName originalName : string)
    (fuel counter : nat) (uniqueName : string) :
  (exists j, counter <= j < counter + fuel
             /\ map_has (numbered finalName j) m = false) ->
  exists u, unique_scan (S fuel) m finalName originalName uniqueName counter
            = Some u.
Proof.
  revert counter uniqueName.
  induction fuel as [|fuel IH]; intros counter uniqueName (j & Hj & Hf).
  - lia.
  - cbn [unique_scan].
    destruct (map_has uniqueName m && negb (String.eqb uniqueName originalName));
      [|eauto].
    destruct (Nat.eq_dec j counter) as [->|Hne].
    + rewrite Hf. simpl. eauto.
    + fold (unique_scan (S fuel) m finalName originalName
              (numbered finalName counter) (S counter)).
      apply IH. exists j. split; [lia|exact Hf].
Qed.

Lemma unique_scan_free (m : MethodMap) (finalName originalName : string)
    (fuel counter : nat) :
  map_has finalName m = false ->
  unique_scan (S fuel) m finalName originalName finalName counter
  = Some finalName.
Proof. intros H. simpl. rewrite H. reflexivity. Qed.

Lemma unique_scan_original (m : MethodMap) (name : string) (fuel counter : nat) :
  unique_scan (S fuel) m name name name counter = Some name.
Proof.
  simpl. rewrite String.eqb_refl, andb_false_r. reflexivity.
Qed.

Lemma map_set_fresh (k : string) (v : MCPMethod) (m : MethodMap) :
  map_has k m = false -> map_set k v m = m ++ [(k, v)].
Proof.
  unfold map_has. induction m as [|[k' v'] m IH]; simpl; [reflexivity|].
  destruct (String.eqb k k'); [discriminate|].
  intros H. rewrite IH by exact H. reflexivity.
Qed.

(** *** [resolveMethodConflicts] returns *)

Lemma on_conflict_total strategy m method :
  exists d, on_conflict strategy m method = Some d.
Proof.
  destruct strategy.
  - unfold on_conflict. destruct (includes "/" (name method)); eauto.
  - destruct (suffix_scan_spec m (name method)) as (c & Hc & _).
    unfold on_conflict. rewrite Hc. simpl. eauto.
  - simpl. eauto.
  - simpl. eauto.
Qed.

Lemma resolve_step_eq strategy m method :
  resolve_step strategy m method
  = match (if map_has (name method) m then on_conflict strategy m method
           else Some (Named (name method))) with
    | None => None
    | Some Skip => Some m
    | Some (Named finalName) =>
        match unique_scan (S (S (length m))) m finalName (name method)
                finalName 1 with
        | Some uniqueName =>
            Some (map_set uniqueName (with_name method uniqueName) m)
        | None => None
        end
    end.
Proof.
  unfold resolve_step.
  destruct (if map_has (name method) m then on_conflict strategy m method
            else Some (Named (name method))) as [[|finalName]|];
    reflexivity.
Qed.

Lemma resolve_step_total strategy m method :
  exists m', resolve_step strategy m method = Some m'.
Proof.
  rewrite resolve_step_eq.
  assert (exists d, (if map_has (name method) m
                     then on_conflict strategy m method
                     else Some (Named (name method))) = Some d) as [d ->].
  { destruct (map_has (name method) m); [apply on_conflict_total|eauto]. }
  destruct d as [|finalName]; [eauto|].
  destruct (unique_scan_stops m finalName (name method) (S (length m)) 1
              finalName (free_number m finalName 1)) as [u ->].
  eauto.
Qed.

Lemma resolve_loop_cons strategy m method rest :
  resolve_loop strategy m (method :: rest)
  = match resolve_step strategy m method with
    | Some m' => resolve_loop strategy m' rest
    | None => None
    end.
Proof. reflexivity. Qed.

Lemma resolve_loop_total strategy methods m :
  exists m', resolve_loop strategy m methods = Some m'.
Proof.
  revert m. induction methods as [|method rest IH]; intros m; [simpl; eauto|].
  rewrite resolve_loop_cons.
  destruct (resolve_step_total strategy m method) as [m' ->]. apply IH.
Qed.

Lemma resolveMethodConflicts_total methods strategy :
  exists resolved, resolveMethodConflicts methods strategy = Some resolved.
Proof.
  unfold resolveMethodConflicts.
  destruct (resolve_loop_total strategy methods []) as [m' ->]. simpl. eauto.
Qed.

(** *** The suffix strategy *)

Lemma resolve_step_fresh strategy m method :
  map_has (name method) m = false ->
  resolve_step strategy m method
  = Some (m ++ [(name method, with_name method (name method))]).
Proof.
  intros Hf. rewrite resolve_step_eq, Hf.
  rewrite unique_scan_free by exact Hf.
  rewrite map_set_fresh by exact Hf. reflexivity.
Qed.

Lemma resolve_step_suffix m method :
  map_has (name method) m = true ->
  exists c, 1 <= c
    /\ map_has (numbered (name method) c) m = false
    /\ (forall c', 1 <= c' < c ->
          map_has (numbered (name method) c') m = true)
    /\ resolve_step Suffix m method
       = Some (m ++ [(numbered (name method) c,
                      with_name method (numbered (name method) c))]).
Proof.
  intros Ht. destruct (suffix_scan_spec m (name method))
    as (c & Hc & Hle & Hfree & Hbelow).
  exists c. split; [exact Hle|]. split; [exact Hfree|]. split; [exact Hbelow|].
  rewrite resolve_step_eq, Ht. unfold on_conflict. rewrite Hc.
  cbn [mbind option_bind].
  rewrite unique_scan_free by exact Hfree.
  rewrite map_set_fresh by exact Hfree. reflexivity.
Qed.

(** C9: under the suffix strategy a capability whose name is taken is
    kept under that name followed by [_c], for the least [c >= 1] such
    that the numbered name is free, and a capability whose name is free
    keeps it; merging A's [t1, t2] followed by B's [t2, t3] gives
    t1, t2, t2_1, t3. *)
Theorem resolveMethodConflicts_suffix :
  (forall m method,
     map_has (name method) m = true ->
     exists c, 1 <= c
       /\ map_has (numbered (name method) c) m = false
       /\ (forall c', 1 <= c' < c ->
             map_has (numbered (name method) c') m = true)
       /\ resolve_step Suffix m method
          = Some (m ++ [(numbered (name method) c,
                         with_name method (numbered (name method) c))]))
  /\ (forall m method,
        map_has (name method) m = false ->
        resolve_step Suffix m method
        = Some (m ++ [(name method, with_name method (name method))]))
  /\ (forall a1 a2 b2 b3,
        name a1 = "t1" -> name a2 = "t2" -> name b2 = "t2" -> name b3 = "t3" ->
        resolveMethodConflicts ([a1; a2] ++ [b2; b3]) Suffix
        = Some [a1; a2; with_name b2 "t2_1"; b3]
        /\ map name <$> resolveMethodConflicts ([a1; a2] ++ [b2; b3]) Suffix
           = Some ["t1"; "t2"; "t2_1"; "t3"]).
Proof.
  split; [exact resolve_step_suffix|]. split; [intros; apply resolve_step_fresh; assumption|].
  intros [n1 d1 i1 p1] [n2 d2 i2 p2] [n3 d3 i3 p3] [n4 d4 i4 p4].
  simpl. intros -> -> -> ->. split; reflexivity.
Qed.

Lemma resolveMethodConflicts_suffix_witness :
  map name <$> resolveMethodConflicts
                 ([Samples.tool "t1"; Samples.tool "t2"]
                  ++ [Samples.tool "t2"; Samples.tool "t3"]) Suffix
  = Some ["t1"; "t2"; "t2_1"; "t3"].
Proof.
  apply (proj2 (proj2 resolveMethodConflicts_suffix)
           (Samples.tool "t1") (Samples.tool "t2")
           (Samples.tool "t2") (Samples.tool "t3")); reflexivity.
Defined.

(** *** Partial failure *)

Lemma aggregateMethods_eq round options totalTime :
  aggregateMethods round options totalTime
  = let opts := spread_aggregation defaultOptions options in
    let serverResults := map collect round in
    let successfulResults := List.filter success serverResults in
    if (length successfulResults =? 0)
       && negb (flag (continueOnPartialFailure opts))
    then Some (createMCPErrorResponse (-32603)%Z
                 "All downstream servers failed to respond" None
                 (VObj [("serverResults", VArr (map result_value serverResults))]))
    else
      match resolveMethodConflicts (concat (map collected_methods round))
              (default Prefix (conflictResolution opts)) with
      | None => None
      | Some resolvedMethods =>
          Some (createMCPResponse
                  (VObj ([("methods", VArr (map method_value resolvedMethods))]
                         ++ if flag (includeServerInfo opts)
                            then [("serverResults",
                                   VArr (map result_value serverResults));
                                  ("aggregationStats",
                                   VObj [("totalServers",
                                          VNum (Z.of_nat (length round)));
                                         ("successfulServers",
                                          VNum (Z.of_nat (length successfulResults)));
                                         ("totalMethods",
                                          VNum (Z.of_nat (length resolvedMethods)));
                                         ("aggregationTime", VNum totalTime)])]
                            else []))
                  None)
      end.
Proof.
  unfold aggregateMethods. cbv zeta.
  destruct ((length (List.filter success (map collect round)) =? 0)
            && negb (flag (continueOnPartialFailure (spread_aggregation defaultOptions options))));
    [reflexivity|].
  destruct (resolveMethodConflicts _ _); reflexivity.
Qed.

(** With a backend that succeeded, or with the flag set, the answer is a
    success envelope with the merged capabilities of the backends that
    succeeded. *)
Lemma aggregateMethods_success round options totalTime :
  List.filter success (map collect round) <> []
  \/ flag (continueOnPartialFailure (spread_aggregation defaultOptions options)) = true ->
  exists resolved envelope,
    resolveMethodConflicts (concat (map collected_methods round))
      (default Prefix (conflictResolution (spread_aggregation defaultOptions options)))
    = Some resolved
    /\ aggregateMethods round options totalTime = Some envelope
    /\ prop (prop envelope "result") "methods" = VArr (map method_value resolved)
    /\ has_key "result" envelope = true
    /\ has_key "error" envelope = false.
Proof.
  intros H.
  destruct (resolveMethodConflicts_total (concat (map collected_methods round))
              (default Prefix (conflictResolution (spread_aggregation defaultOptions options))))
    as [resolved Hr].
  exists resolved. rewrite aggregateMethods_eq. cbv zeta. rewrite Hr.
  assert ((length (List.filter success (map collect round)) =? 0)
          && negb (flag (continueOnPartialFailure (spread_aggregation defaultOptions options)))
          = false) as ->.
  { destruct H as [H| ->]; [|apply andb_false_r].
    destruct (List.filter success (map collect round)); [contradiction|reflexivity]. }
  eexists. split; [reflexivity|]. split; [reflexivity|]. repeat split.
Qed.

(** The aggregation always returns an envelope: the fuel of the merge
    is enough. *)
Lemma aggregateMethods_returns round options totalTime :
  exists envelope, aggregateMethods round options totalTime = Some envelope.
Proof.
  rewrite aggregateMethods_eq. cbv zeta.
  destruct (_ && _); [eauto|].
  destruct (resolveMethodConflicts_total (concat (map collected_methods round))
              (default Prefix
                 (conflictResolution (spread_aggregation defaultOptions options))))
    as [resolved ->].
  eauto.
Qed.

(** C1, as the code has it: when no backend succeeded and
    [continueOnPartialFailure] is false, the answer is the error envelope
    with code -32603. *)
Theorem aggregateMethods_total_outage round options totalTime :
  List.filter success (map collect round) = [] ->
  continueOnPartialFailure options = Some false ->
  exists envelope,
    aggregateMethods round options totalTime = Some envelope
    /\ envelope = createMCPErrorResponse (-32603)%Z
                    "All downstream servers failed to respond" None
                    (VObj [("serverResults",
                            VArr (map result_value (map collect round)))])
    /\ error_code envelope = Some (-32603)%Z
    /\ has_key "result" envelope = false.
Proof.
  intros Hz Hf. eexists. rewrite aggregateMethods_eq. cbv zeta.
  rewrite Hz. unfold spread_aggregation. rewrite Hf. simpl.
  split; [reflexivity|]. repeat split.
Qed.

Lemma aggregateMethods_total_outage_witness :
  exists envelope,
    aggregateMethods [Samples.down "server1" "http://localhost:8001";
                      Samples.down "server2" "http://localhost:8002"]
      Samples.stopOnFailure 12%Z = Some envelope
    /\ error_code envelope = Some (-32603)%Z.
Proof.
  destruct (aggregateMethods_total_outage
              [Samples.down "server1" "http://localhost:8001";
               Samples.down "server2" "http://localhost:8002"]
              Samples.stopOnFailure 12%Z eq_refl eq_refl)
    as (envelope & He & _ & Hc & _).
  exists envelope. split; [exact He|exact Hc].
Defined.

(** C1 as stated fails: with the flag true and every backend down the
    answer is a success envelope with an empty list, not an error. *)
Lemma aggregateMethods_outage_flag_true :
  let round := [Samples.down "server1" "http://localhost:8001";
                Samples.down "server2" "http://localhost:8002"] in
  List.filter success (map collect round) = []
  /\ exists envelope,
       aggregateMethods round Samples.continueOnFailure 12%Z = Some envelope
       /\ has_key "result" envelope = true
       /\ prop (prop envelope "result") "methods" = VArr []
       /\ has_key "error" envelope = false
       /\ error_code envelope <> Some (-32603)%Z.
Proof.
  split; [reflexivity|]. eexists. split; [vm_compute; reflexivity|].
  repeat split. discriminate.
Qed.

(** C2: with [continueOnPartialFailure] false, one backend up and one
    down, the answer is a success envelope built from the backend that
    is up, where the specification has an aggregate error;
    [handlePartialFailures] on the same results says to stop. *)
Theorem aggregateMethods_partial_failure_flag_false :
  let round := [Samples.up "working" "http://localhost:8001" [Samples.tool "working_tool"];
                Samples.down "broken" "http://localhost:8002"] in
  exists envelope,
    aggregateMethods round Samples.stopOnFailure 12%Z = Some envelope
    /\ has_key "result" envelope = true
    /\ has_key "error" envelope = false
    /\ prop (prop envelope "result") "methods"
       = VArr [method_value (Samples.tool "working_tool")]
    /\ handlePartialFailures (map collect round) false
       = (false, Some "1 servers failed: broken").
Proof.
  eexists. split; [vm_compute; reflexivity|]. repeat split.
Qed.

End AggregatorFacts.

(** * Further properties of the router *)

Module RouterProps.

Import Router RouterAdmin.

Lemma find_target_header_app pre k v post :
  Forall (fun h => toLowerCase (fst h) <> "x-target-mcp") pre ->
  toLowerCase k = "x-target-mcp" ->
  find_target_header (pre ++ (k, v) :: post)%list = Some k
  /\ assoc k (pre ++ (k, v) :: post)%list = Some v.
Proof.
  intros Hpre Hk. induction Hpre as [|[k' v'] pre Hh Hpre IH]; simpl.
  - rewrite Hk. simpl. rewrite String.eqb_refl. auto.
  - simpl in Hh. destruct (String.eqb_spec (toLowerCase k') "x-target-mcp");
      [contradiction|].
    destruct (String.eqb_spec k k') as [->|_]; [contradiction|]. exact IH.
Qed.

(** X1: the routing header is found whatever the case of its name: with
    the first header whose lower-cased name is x-target-mcp holding [v],
    the lookup key is [v], and an empty [v] finds nothing. *)
Theorem routeByHeader_case_insensitive config pre k v post :
  Forall (fun h => toLowerCase (fst h) <> "x-target-mcp") pre ->
  toLowerCase k = "x-target-mcp" ->
  routeByHeader config (Some (pre ++ (k, v) :: post)%list)
  = if String.eqb v EmptyString then None else rule_for config v.
Proof.
  intros Hpre Hk. unfold routeByHeader.
  destruct (find_target_header_app pre k v post Hpre Hk) as [-> ->].
  reflexivity.
Qed.

Lemma routeByHeader_case_insensitive_witness :
  let config := {| strategy := "header";
                   rules := [("github", "github-backend")];
                   defaultServer := None |} in
  routeByHeader config
    (Some ([("Accept", "application/json")] ++ ("X-Target-MCP", "github") :: [])%list)
  = Some (Text "github-backend").
Proof.
  intros config.
  apply (routeByHeader_case_insensitive config
           [("Accept", "application/json")] "X-Target-MCP" "github" []).
  - repeat constructor; simpl; discriminate.
  - reflexivity.
Defined.

Lemma assoc_In {A : Type} (key : string) (l : list (string * A)) (v : A) :
  assoc key l = Some v -> In (key, v) l.
Proof.
  induction l as [|[k x] l IH]; simpl; [discriminate|].
  destruct (String.eqb_spec key k) as [->|_].
  - intros [= ->]. left. reflexivity.
  - intros H. right. apply IH, H.
Qed.

(** What a lookup among the rules finds: the server of a rule of that
    name, or the inherited member of that name when no rule has it. *)
Lemma rule_for_cases config key target :
  rule_for config key = Some target ->
  (exists n, target = Text n /\ assoc key (rules config) = Some n
             /\ n <> EmptyString)
  \/ (target = Builtin key /\ assoc key (rules config) = None
      /\ inherited key = true).
Proof.
  unfold rule_for. destruct (assoc key (rules config)) as [n|].
  - destruct (String.eqb_spec n EmptyString); [discriminate|].
    intros [= <-]. left. eauto.
  - destruct (inherited key) eqn:Hi; [|discriminate].
    intros [= <-]. right. auto.
Qed.

(** Under a strategy the router knows, the strategy looks its key up
    among the rules. *)
Lemma dispatch_lookup config requestPath headers :
  known_strategy (strategy config) = true ->
  dispatch config requestPath headers
  = inr match lookup_key config requestPath headers with
        | Some key => rule_for config key
        | None => None
        end.
Proof.
  unfold known_strategy, dispatch, lookup_key.
  destruct (String.eqb (strategy config) "prefix").
  - intros _. unfold routeByPrefix. destruct requestPath as [path|]; [|reflexivity].
    destruct (String.eqb_spec path EmptyString) as [->|]; [reflexivity|].
    destruct (String.eqb (key_of path) EmptyString); reflexivity.
  - destruct (String.eqb (strategy config) "header"); [|discriminate].
    intros _. unfold routeByHeader. destruct headers as [hs|]; [|reflexivity].
    destruct (find_target_header hs) as [t|]; [|reflexivity].
    destruct (assoc t hs) as [v|]; [|reflexivity].
    destruct (String.eqb v EmptyString); reflexivity.
Qed.

Lemma or_default_cases config target n :
  or_default config target = Some n ->
  target = Some n
  \/ (target = None /\ exists d, n = Text d /\ defaultServer config = Some d
                                  /\ d <> EmptyString).
Proof.
  unfold or_default. destruct target as [m|]; [intros [= ->]; auto|].
  destruct (defaultServer config) as [d|]; [|discriminate].
  destruct (String.eqb_spec d EmptyString); [discriminate|].
  intros [= <-]. right. eauto.
Qed.

Lemma builtin_text_nonempty member : builtin_text member <> EmptyString.
Proof.
  unfold builtin_text. destruct (String.eqb member "__proto__"); discriminate.
Qed.

(** The name the router resolves is never empty. *)
Lemma resolved_nonempty config requestPath headers target n :
  dispatch config requestPath headers = inr target ->
  or_default config target = Some n ->
  text_of n <> EmptyString.
Proof.
  intros Hd Ho. apply or_default_cases in Ho as [->|(_ & d & -> & _ & Hne)];
    [|exact Hne].
  assert (exists key, rule_for config key = Some n) as [key Hk].
  { unfold dispatch in Hd.
    destruct (String.eqb (strategy config) "prefix").
    - injection Hd as Hd. unfold routeByPrefix in Hd.
      destruct requestPath as [path|]; [|discriminate].
      destruct (String.eqb path EmptyString); [discriminate|].
      destruct (String.eqb (key_of path) EmptyString); [discriminate|]. eauto.
    - destruct (String.eqb (strategy config) "header"); [|discriminate].
      injection Hd as Hd. unfold routeByHeader in Hd.
      destruct headers as [hs|]; [|discriminate].
      destruct (find_target_header hs) as [t|]; [|discriminate].
      destruct (assoc t hs) as [v|]; [|discriminate].
      destruct (String.eqb v EmptyString); [discriminate|]. eauto. }
  apply rule_for_cases in Hk as [(t & -> & _ & Hne)|(-> & _)]; [exact Hne|].
  apply builtin_text_nonempty.
Qed.

(** X2: a routing result is a success or a failure, never an exception.
    A success has no error and a name that is not empty; the name is
    that of a configured server, and the address is that server's, or
    else it is the name of a member that the servers object inherits,
    and there is no address. A failure has empty name and address and
    one of the three routing errors. *)
Theorem routeRequest_result config servers request requestPath headers :
  let r := routeRequest config servers request requestPath headers in
  (success r = true
   /\ error r = None
   /\ text_of (serverName r) <> EmptyString
   /\ ((exists server,
          assoc (text_of (serverName r)) servers = Some server
          /\ serverUrl r = Some (url server))
       \/ (assoc (text_of (serverName r)) servers = None
           /\ inherited (text_of (serverName r)) = true
           /\ serverUrl r = None)))
  \/ (success r = false
      /\ serverName r = Text EmptyString
      /\ serverUrl r = Some EmptyString
      /\ (error r = Some "Invalid routing strategy"
          \/ error r = Some "No route found"
          \/ error r = Some "Server not found")).
Proof.
  unfold routeRequest, route, getServerUrl.
  destruct (dispatch config requestPath headers) as [e|target] eqn:Hd.
  - right. simpl. repeat split; auto. left. unfold dispatch in Hd.
    destruct (String.eqb (strategy config) "prefix"); [discriminate|].
    destruct (String.eqb (strategy config) "header"); [discriminate|].
    injection Hd as <-. reflexivity.
  - destruct (or_default config target) as [n|] eqn:Ho.
    + pose proof (resolved_nonempty _ _ _ _ _ Hd Ho) as Hne.
      destruct (assoc (text_of n) servers) as [server|] eqn:Ha.
      * left. simpl. repeat split; [exact Hne|]. left. eauto.
      * destruct (inherited (text_of n)) eqn:Hi.
        -- left. simpl. repeat split; [exact Hne|]. right. auto.
        -- right. simpl. repeat split; auto.
    + right. simpl. repeat split; auto.
Qed.

Lemma flat_map_nil {A B : Type} (f : A -> list B) (l : list A) x :
  flat_map f l = [] -> In x l -> f x = [].
Proof.
  induction l as [|a l IH]; simpl; [contradiction|].
  intros H [<-|Hin].
  - destruct (f a); [reflexivity|discriminate].
  - apply IH; [|exact Hin]. destruct (f a); [exact H|discriminate].
Qed.

Lemma validateConfig_valid config servers :
  fst (validateConfig config servers) = true ->
  known_strategy (strategy config) = true
  /\ (forall key n, assoc key (rules config) = Some n ->
        hasServer servers n = true)
  /\ (forall d, defaultServer config = Some d -> d <> EmptyString ->
        hasServer servers d = true).
Proof.
  unfold validateConfig. cbv zeta. simpl fst. intros H.
  apply Nat.eqb_eq in H. apply length_zero_iff_nil in H.
  apply app_eq_nil in H as [Hs H]. apply app_eq_nil in H as [Hr Hd].
  split; [|split].
  - destruct (known_strategy (strategy config)); [reflexivity|discriminate].
  - intros key n Hk.
    assert (rule_error servers (key, n) = []) as He.
    { eapply flat_map_nil; [exact Hr|]. apply assoc_In, Hk. }
    unfold rule_error in He. simpl in He.
    destruct (hasServer servers n); [reflexivity|discriminate].
  - intros d Hdef Hne. rewrite Hdef in Hd.
    destruct (String.eqb_spec d EmptyString); [contradiction|]. simpl in Hd.
    destruct (hasServer servers d); [reflexivity|discriminate].
Qed.

(** A name that [hasServer] accepts is routed. *)
Lemma hasServer_routed servers n :
  hasServer servers n = true ->
  exists serverUrl, getServerUrl servers (Text n) = inr serverUrl.
Proof.
  unfold hasServer, getServerUrl. simpl text_of.
  destruct (assoc n servers); [eauto|]. intros ->. eauto.
Qed.

(** X3: under a configuration that [validateConfig] accepts, routing
    never fails for an unknown strategy, and fails for a server that is
    not found only when the name the request is looked up by is the name
    of an inherited member that no rule has. Otherwise the request is
    routed, or no rule matched and there is no default. *)
Theorem validateConfig_routing config servers request requestPath headers :
  fst (validateConfig config servers) = true ->
  let r := routeRequest config servers request requestPath headers in
  (success r = true
   \/ (r = routing_failure "No route found"
       /\ forall d, defaultServer config = Some d -> d = EmptyString)
   \/ (r = routing_failure "Server not found"
       /\ exists key,
            lookup_key config requestPath headers = Some key
            /\ assoc key (rules config) = None
            /\ inherited key = true)).
Proof.
  intros Hv. apply validateConfig_valid in Hv as (Hs & Hr & Hd).
  cbv zeta. unfold routeRequest, route.
  rewrite (dispatch_lookup config requestPath headers Hs).
  set (target := match lookup_key config requestPath headers with
                 | Some key => rule_for config key
                 | None => None
                 end).
  assert (target = None
          \/ (exists n, target = Some (Text n) /\ hasServer servers n = true)
          \/ (exists key, target = Some (Builtin key)
                /\ lookup_key config requestPath headers = Some key
                /\ assoc key (rules config) = None
                /\ inherited key = true)) as Ht.
  { subst target.
    destruct (lookup_key config requestPath headers) as [key|]; [|auto].
    destruct (rule_for config key) as [t|] eqn:Hk; [|auto]. right.
    apply rule_for_cases in Hk as [(n & -> & Hn & _)|(-> & Hn & Hi)].
    - left. exists n. split; [reflexivity|]. eapply Hr, Hn.
    - right. exists key. auto. }
  destruct Ht as [->|[(n & -> & Hn)|(key & -> & Hk & Hn & Hi)]].
  - unfold or_default. destruct (defaultServer config) as [d|] eqn:Hdef.
    + destruct (String.eqb_spec d EmptyString) as [->|Hne].
      * right. left. split; [reflexivity|]. intros d [= <-]. reflexivity.
      * destruct (hasServer_routed servers d (Hd d eq_refl Hne)) as [u ->].
        left. reflexivity.
    + right. left. split; [reflexivity|]. discriminate.
  - unfold or_default. destruct (hasServer_routed servers n Hn) as [u ->].
    left. reflexivity.
  - unfold or_default, getServerUrl. simpl text_of.
    destruct (assoc (builtin_text key) servers); [left; reflexivity|].
    rewrite RouterFacts.builtin_text_not_inherited.
    right. right. split; [reflexivity|]. exists key. auto.
Qed.

Lemma validateConfig_routing_witness :
  let server := {| name := "github-backend"; url := "http://localhost:8001";
                   timeout := None; maxRetries := None;
                   healthCheckPath := None |} in
  let config := {| strategy := "prefix";
                   rules := [("github", "github-backend")];
                   defaultServer := Some "github-backend" |} in
  success (routeRequest config [("github-backend", server)] Samples.req
             (Some "/unknown/x") None) = true
  /\ routeRequest config [("github-backend", server)] Samples.req
       (Some "/valueOf/x") None
     = routing_failure "Server not found".
Proof.
  intros server config. split.
  - destruct (validateConfig_routing config [("github-backend", server)]
                Samples.req (Some "/unknown/x") None eq_refl)
      as [H|[[H _]|[H _]]]; [exact H|discriminate H|discriminate H].
  - destruct (validateConfig_routing config [("github-backend", server)]
                Samples.req (Some "/valueOf/x") None eq_refl)
      as [H|[[H _]|[H _]]]; [discriminate H|discriminate H|exact H].
Defined.

End RouterProps.

(** * Further properties of the request forwarder *)

Module ForwarderProps.

Import Forwarder ForwarderTerms ForwarderFacts.
Local Open Scope list_scope.

Lemma attempt_outcome_from backend url q w w2 k j :
  posts (trace w2) = (posts (trace w) + k)%nat ->
  attempt_outcome backend w2 url q j
  = attempt_outcome backend w url q (k + j).
Proof.
  unfold attempt_outcome. intros ->. do 2 f_equal. lia.
Qed.

Lemma attempt_outcome_at backend url q w w2 k :
  posts (trace w2) = (posts (trace w) + k)%nat ->
  attempt_outcome backend w2 url q 0 = attempt_outcome backend w url q k.
Proof.
  intros H. rewrite (attempt_outcome_from backend url q w w2 k 0 H).
  f_equal. lia.
Qed.

(** An outcome the loop retries hands the next iteration the caught
    error, one POST later. *)
Lemma attempt_body_retried backend url q opts continue attempt w :
  retried (attempt_outcome backend w url q 0) ->
  exists w2,
    attempt_body backend url q opts continue attempt w
    = continue (Some (caught url (attempt_outcome backend w url q 0))) w2
    /\ posts (trace w2) = S (posts (trace w)).
Proof.
  unfold attempt_body, http_post, attempt_outcome. rewrite Nat.add_0_r.
  destruct (backend (posts (trace w)) url q) as [[resp|e] took]; simpl; intros Hr.
  - rewrite Hr. unfold on_error. simpl.
    destruct (attempt <? num (maxRetries opts)); eexists; split;
      try reflexivity; simpl; rewrite !posts_app; simpl; lia.
  - unfold on_error. rewrite Hr.
    destruct (attempt <? num (maxRetries opts)); eexists; split;
      try reflexivity; simpl; rewrite !posts_app; simpl; lia.
Qed.

(** [k] retried outcomes take the loop [k] iterations further. *)
Lemma attempt_loop_skip backend url q opts k r attempt le w :
  (forall j, (j < k)%nat -> retried (attempt_outcome backend w url q j)) ->
  exists le' w2,
    attempt_loop backend url q opts (k + r) attempt le w
    = attempt_loop backend url q opts r (attempt + Z.of_nat k) le' w2
    /\ posts (trace w2) = (posts (trace w) + k)%nat
    /\ (k = O -> le' = le /\ w2 = w)
    /\ (k <> O ->
        le' = Some (caught url (attempt_outcome backend w url q (k - 1)))).
Proof.
  revert attempt le w. induction k as [|k IH]; intros attempt le w Hk.
  - exists le, w. rewrite Z.add_0_r. split; [reflexivity|].
    split; [lia|]. split; [auto|]. intros H. contradiction H. reflexivity.
  - destruct (attempt_body_retried backend url q opts
                (attempt_loop backend url q opts (k + r) (attempt + 1))
                attempt w (Hk O ltac:(lia))) as (w1 & Hb & Hp).
    destruct (IH (attempt + 1)
                (Some (caught url (attempt_outcome backend w url q 0))) w1)
      as (le' & w2 & Hl & Hp2 & Hz & Hnz).
    { intros j Hj.
      rewrite (attempt_outcome_from backend url q w w1 1 j) by lia.
      apply Hk. lia. }
    exists le', w2. split; [|split; [|split]].
    + change (S k + r)%nat with (S (k + r)). simpl attempt_loop.
      rewrite Hb, Hl. f_equal. lia.
    + lia.
    + discriminate.
    + intros _. destruct k as [|k].
      * destruct (Hz eq_refl) as [-> _]. reflexivity.
      * rewrite Hnz by discriminate.
        rewrite (attempt_outcome_from backend url q w w1 1) by lia.
        do 3 f_equal. lia.
Qed.

Lemma attempt_body_valid backend url q opts continue attempt w resp :
  attempt_outcome backend w url q 0 = Resolved resp ->
  isValidMCPResponse (data resp) = true ->
  exists w1,
    attempt_body backend url q opts continue attempt w
    = (LoopReturn (data resp), w1)
    /\ posts (trace w1) = S (posts (trace w)).
Proof.
  unfold attempt_body, http_post, attempt_outcome. rewrite Nat.add_0_r.
  destruct (backend (posts (trace w)) url q) as [r took]; simpl.
  intros -> Hv. rewrite Hv. eexists. split; [reflexivity|].
  simpl. rewrite posts_app. simpl. lia.
Qed.

Lemma attempt_body_client_error backend url q opts continue attempt w e :
  attempt_outcome backend w url q 0 = Rejected e ->
  isAxiosError e = true -> is_client_error e = true ->
  exists w1,
    attempt_body backend url q opts continue attempt w
    = (LoopEnd (Some e), w1)
    /\ posts (trace w1) = S (posts (trace w)).
Proof.
  unfold attempt_body, http_post, attempt_outcome. rewrite Nat.add_0_r.
  destruct (backend (posts (trace w)) url q) as [r took]; simpl.
  intros -> Ha Hc. unfold on_error. rewrite Ha, Hc. simpl.
  eexists. split; [reflexivity|]. simpl. rewrite posts_app. simpl. lia.
Qed.

Section Call.

Variable backend : Backend.
Variable url : string.
Variable q : MCPRequest.
Variable options : ForwardingOptions.
Variable w : World.

Let M := num (maxRetries (spread defaultOptions options)).
Let run := forwardRequest backend url q options w.

Lemma forwardRequest_unfold :
  run = match attempt_loop backend url q (spread defaultOptions options)
                (Z.to_nat M) 1 None w with
        | (LoopReturn d, w') => (d, w')
        | (LoopEnd le, w') =>
            (failure_envelope url q options le (now w' - now w), w')
        end.
Proof.
  subst run M. unfold forwardRequest, failure_envelope.
  replace (iterations (num (maxRetries (spread defaultOptions options))) 1)
    with (Z.to_nat (num (maxRetries (spread defaultOptions options))))
    by (unfold iterations; lia).
  destruct (attempt_loop _ _ _ _ _ _ _ _) as [[d|le] w']; reflexivity.
Qed.

(** X4: the first reply that passes validation is what the call returns,
    unchanged, and no attempt follows it: when the attempts before
    number [k] are retried and attempt [k] (from 0, below [maxRetries])
    gets a valid reply, the result is that reply after [k + 1] POSTs. *)
Theorem forwardRequest_first_valid_reply (k : nat) (resp : AxiosResponse) :
  (forall j, (j < k)%nat -> retried (attempt_outcome backend w url q j)) ->
  attempt_outcome backend w url q k = Resolved resp ->
  isValidMCPResponse (data resp) = true ->
  Z.of_nat k < M ->
  fst run = data resp /\ attempts_made w (snd run) = S k.
Proof.
  intros Hk Ho Hv HM. rewrite forwardRequest_unfold.
  replace (Z.to_nat M) with (k + S (Z.to_nat M - S k))%nat by lia.
  destruct (attempt_loop_skip backend url q (spread defaultOptions options)
              k (S (Z.to_nat M - S k)) 1 None w Hk)
    as (le' & w2 & -> & Hp & _).
  simpl attempt_loop.
  destruct (attempt_body_valid backend url q (spread defaultOptions options)
              (attempt_loop backend url q (spread defaultOptions options)
                 (Z.to_nat M - S k) (1 + Z.of_nat k + 1))
              (1 + Z.of_nat k) w2 resp) as (w1 & -> & Hp1).
  { rewrite (attempt_outcome_at backend url q w w2 k Hp). exact Ho. }
  { exact Hv. }
  simpl. split; [reflexivity|]. unfold attempts_made. lia.
Qed.

(** X5: a 4xx answer ends the call at once: when the attempts before
    number [k] are retried and attempt [k] is rejected with a 4xx
    status, the result is the error envelope -32603 naming that error,
    after [k + 1] POSTs, and its [attempts] field still holds
    [maxRetries]. *)
Theorem forwardRequest_client_error (k : nat) (e : JsError) :
  (forall j, (j < k)%nat -> retried (attempt_outcome backend w url q j)) ->
  attempt_outcome backend w url q k = Rejected e ->
  isAxiosError e = true -> is_client_error e = true ->
  Z.of_nat k < M ->
  fst run = failure_envelope url q options (Some e) (now (snd run) - now w)
  /\ prop (error_data (fst run)) "attempts" = VNum M
  /\ attempts_made w (snd run) = S k.
Proof.
  intros Hk Ho Ha Hc HM. rewrite forwardRequest_unfold.
  replace (Z.to_nat M) with (k + S (Z.to_nat M - S k))%nat by lia.
  destruct (attempt_loop_skip backend url q (spread defaultOptions options)
              k (S (Z.to_nat M - S k)) 1 None w Hk)
    as (le' & w2 & -> & Hp & _).
  simpl attempt_loop.
  destruct (attempt_body_client_error backend url q
              (spread defaultOptions options)
              (attempt_loop backend url q (spread defaultOptions options)
                 (Z.to_nat M - S k) (1 + Z.of_nat k + 1))
              (1 + Z.of_nat k) w2 e) as (w1 & -> & Hp1).
  { rewrite (attempt_outcome_at backend url q w w2 k Hp). exact Ho. }
  { exact Ha. }
  { exact Hc. }
  simpl. split; [reflexivity|]. split; [reflexivity|].
  unfold attempts_made. lia.
Qed.

(** X6: with [maxRetries] zero or negative no POST is made at all: the
    call answers at once with the error envelope, whose message ends in
    [Unknown error]. *)
Theorem forwardRequest_no_attempt :
  M <= 0 ->
  run = (failure_envelope url q options None 0, w)
  /\ error_message (fst run)
     = Some ("Failed to forward request to " ++ url ++ ": Unknown error")%string.
Proof.
  intros HM. rewrite forwardRequest_unfold.
  replace (Z.to_nat M) with O by lia. simpl.
  rewrite Z.sub_diag. split; reflexivity.
Qed.

Lemma attempt_loop_return_origin opts remaining attempt le w0 d w' :
  attempt_loop backend url q opts remaining attempt le w0 = (LoopReturn d, w') ->
  exists k resp,
    attempt_outcome backend w0 url q k = Resolved resp
    /\ isValidMCPResponse (data resp) = true
    /\ d = data resp
    /\ posts (trace w') = (posts (trace w0) + S k)%nat.
Proof.
  revert attempt le w0. induction remaining as [|r IH]; intros attempt le w0.
  - discriminate.
  - simpl. intros H.
    apply attempt_body_cases in H as (w1 & e & Ht & [Hret|[_ [Hbrk|Hgo]]]).
    + destruct Hret as (resp & Ho & Hv & [= ->] & ->).
      exists O, resp. repeat split; auto.
      rewrite Ht, posts_app. simpl. lia.
    + destruct Hbrk as (_ & [=] & _).
    + destruct Hgo as (w2 & He & Hrec).
      pose proof (continue_posts url q opts _ _ _ _ _ Ht He) as Hp.
      apply IH in Hrec as (k & resp & Ho & Hv & -> & Hposts).
      exists (S k), resp. repeat split; auto.
      * rewrite (attempt_outcome_from backend url q w0 w2 1 k) in Ho by lia.
        exact Ho.
      * lia.
Qed.

(** X7: a call never fails otherwise than by an envelope: what it
    returns is a valid reply of the last attempt it made, or the error
    envelope -32603 carrying the request's own id. *)
Theorem forwardRequest_contract :
  (exists k resp,
     attempt_outcome backend w url q k = Resolved resp
     /\ isValidMCPResponse (data resp) = true
     /\ fst run = data resp
     /\ attempts_made w (snd run) = S k)
  \/ (exists lastError,
        fst run = failure_envelope url q options lastError
                    (now (snd run) - now w)
        /\ error_code (fst run) = Some (-32603)
        /\ prop (fst run) "id" = opt_str (id q)).
Proof.
  rewrite forwardRequest_unfold.
  destruct (attempt_loop backend url q (spread defaultOptions options)
              (Z.to_nat M) 1 None w) as [[d|le] w'] eqn:Hl.
  - left. apply attempt_loop_return_origin in Hl as (k & resp & Ho & Hv & -> & Hp).
    exists k, resp. simpl. repeat split; auto. unfold attempts_made. lia.
  - right. exists le. simpl. repeat split.
Qed.

End Call.

Lemma forwardRequest_first_valid_reply_witness :
  let reply := createMCPResponse (VObj [("success", VBool true)]) None in
  let backend : Backend :=
    fun n _ _ =>
      if (n <? 2)%nat then (Rejected Samples.networkError, 5)
      else (Resolved {| status := 200; data := reply |}, 5) in
  fst (forwardRequest backend "http://localhost:8001" Samples.req noOptions
         Samples.w0) = reply.
Proof.
  intros reply backend.
  apply (forwardRequest_first_valid_reply backend "http://localhost:8001"
           Samples.req noOptions Samples.w0 2
           {| status := 200; data := reply |}).
  - intros [|[|j]] Hj; [reflexivity|reflexivity|lia].
  - reflexivity.
  - reflexivity.
  - simpl. lia.
Defined.

Lemma forwardRequest_client_error_witness :
  attempts_made Samples.w0
    (snd (forwardRequest
            (Samples.always (Rejected (axios_error (BackendStatus 404))))
            "http://localhost:8001" Samples.req noOptions Samples.w0))
  = 1%nat.
Proof.
  apply (forwardRequest_client_error
           (Samples.always (Rejected (axios_error (BackendStatus 404))))
           "http://localhost:8001" Samples.req noOptions Samples.w0 O
           (axios_error (BackendStatus 404))).
  - intros j Hj. lia.
  - reflexivity.
  - reflexivity.
  - reflexivity.
  - simpl. lia.
Defined.

Lemma forwardRequest_no_attempt_witness :
  snd (forwardRequest (Samples.always (Rejected Samples.networkError))
         "http://localhost:8001" Samples.req
         {| timeout := None; maxRetries := Some 0; retryDelay := None |}
         Samples.w0) = Samples.w0.
Proof.
  rewrite (proj1 (forwardRequest_no_attempt
                    (Samples.always (Rejected Samples.networkError))
                    "http://localhost:8001" Samples.req
                    {| timeout := None; maxRetries := Some 0;
                       retryDelay := None |}
                    Samples.w0 ltac:(simpl; lia))).
  reflexivity.
Defined.

End ForwarderProps.

(** * Further properties of the error handler *)

Module ErrorProps.

Import ErrorHandler ErrorResponses SanitizeFacts.
Local Open Scope list_scope.

(** Induction on values, through the lists of arrays and objects. *)
Lemma value_induction (P : value -> Prop) :
  P VUndefined -> P VNull -> (forall b, P (VBool b)) ->
  (forall n, P (VNum n)) -> (forall s, P (VStr s)) ->
  (forall items, Forall P items -> P (VArr items)) ->
  (forall fields, Forall (fun kv => P (snd kv)) fields -> P (VObj fields)) ->
  forall v, P v.
Proof.
  intros Hu Hn Hb Hz Hs Ha Ho. fix IH 1.
  intros [| |b|n|s|items|fields];
    [exact Hu|exact Hn|apply Hb|apply Hz|apply Hs| |].
  - apply Ha. induction items as [|x items IHl]; constructor.
    + apply IH.
    + exact IHl.
  - apply Ho. induction fields as [|[k x] fields IHl]; constructor.
    + apply IH.
    + exact IHl.
Qed.

Lemma sanitizeErrorData_array (items : list value) :
  sanitizeErrorData (VArr items) = VObj (array_entries 0 items).
Proof.
  reflexivity.
Qed.

(** *** The delay policy *)

(** X8: for a whole base delay that is not negative, the delay of
    [getRetryDelay] at an attempt from the first on is a whole number
    between 0 and 30000 that never decreases from one attempt to a later
    one, except that with base delay 0 the attempts from the 1025th on,
    where the power of two is infinite, give no number at all. *)
Theorem getRetryDelay_bounds (n m b : Z) :
  0 <= b -> 1 <= n <= m ->
  (m <= 1024 \/ 0 < b ->
   exists dn dm,
     getRetryDelay n b = Whole dn /\ getRetryDelay m b = Whole dm
     /\ 0 <= dn <= dm /\ dm <= 30000)
  /\ (1025 <= m -> b = 0 -> getRetryDelay m b = NotANumber).
Proof.
  intros Hb Hnm. split.
  - intros Hm.
    assert (0 < overflow) as Ho by (apply Z.pow_pos_nonneg; lia).
    assert (forall k, 1 <= k -> (k <= 1024 \/ 0 < b) ->
            exists d, getRetryDelay k b = Whole d
                      /\ d = (if (1024 <=? k - 1) || (overflow <=? b * 2 ^ (k - 1))
                              then 30000 else Z.min (b * 2 ^ (k - 1)) 30000))
      as Hd.
    { intros k Hk Hk'. unfold getRetryDelay, times_pow2.
      assert (0 <= b * 2 ^ (k - 1))
        by (apply Z.mul_nonneg_nonneg; [lia|apply Z.pow_nonneg; lia]).
      destruct (Z.leb_spec 1024 (k - 1)).
      - destruct (Z.eqb_spec b 0); [lia|].
        destruct (Z.ltb_spec 0 b); [|lia]. simpl. eauto.
      - destruct (Z.leb_spec 0 (k - 1)); [|lia].
        destruct (Z.leb_spec overflow (b * 2 ^ (k - 1))); simpl; [eauto|].
        destruct (Z.leb_spec (b * 2 ^ (k - 1)) (- overflow)); [lia|].
        simpl. eauto. }
    destruct (Hd n) as (dn & Hn & Hdn); [lia|lia|].
    destruct (Hd m) as (dm & Hm' & Hdm); [lia|lia|].
    exists dn, dm. split; [exact Hn|]. split; [exact Hm'|].
    assert (0 < 2 ^ (n - 1)) by (apply Z.pow_pos_nonneg; lia).
    assert (2 ^ (n - 1) <= 2 ^ (m - 1)) by (apply Z.pow_le_mono_r; lia).
    assert (b * 2 ^ (n - 1) <= b * 2 ^ (m - 1)) by nia.
    assert (0 <= b * 2 ^ (n - 1)) by nia.
    assert (2 ^ (m - 1) < overflow \/ 1024 <= m - 1) as Hcase.
    { destruct (Z.leb_spec 1024 (m - 1)); [auto|left].
      apply Z.pow_lt_mono_r; lia. }
    subst dn dm.
    destruct (Z.leb_spec 1024 (n - 1)), (Z.leb_spec 1024 (m - 1)),
      (Z.leb_spec overflow (b * 2 ^ (n - 1))),
      (Z.leb_spec overflow (b * 2 ^ (m - 1))); simpl; lia.
  - intros Hm ->. unfold getRetryDelay, times_pow2.
    destruct (Z.leb_spec 1024 (m - 1)); [reflexivity|lia].
Qed.

Lemma getRetryDelay_bounds_witness :
  (exists dn dm,
     getRetryDelay 2 1000 = Whole dn /\ getRetryDelay 7 1000 = Whole dm
     /\ 0 <= dn <= dm /\ dm <= 30000)
  /\ getRetryDelay 1025 0 = NotANumber.
Proof.
  split.
  - apply (proj1 (getRetryDelay_bounds 2 7 1000 ltac:(lia) ltac:(lia))). lia.
  - apply (proj2 (getRetryDelay_bounds 1 1025 0 ltac:(lia) ltac:(lia)));
      [lia|reflexivity].
Defined.

(** *** Redaction *)

Lemma sanitize_entry_twice key v :
  sanitizeErrorData (sanitizeErrorData v) = sanitizeErrorData v ->
  sanitized_entry (sanitized_entry (key, v)) = sanitized_entry (key, v).
Proof.
  intros IH. unfold sanitized_entry. simpl. f_equal.
  destruct (is_sensitive key) eqn:Hk.
  - unfold sanitize_entry. rewrite Hk. reflexivity.
  - rewrite (sanitize_entry_keep _ key v Hk eq_refl).
    rewrite (sanitize_entry_keep _ key _ Hk eq_refl). exact IH.
Qed.

Lemma array_entries_twice items :
  Forall (fun v => sanitizeErrorData (sanitizeErrorData v) = sanitizeErrorData v)
         items ->
  forall i, map sanitized_entry (array_entries i items) = array_entries i items.
Proof.
  induction 1 as [|v items Hv _ IH]; intros i; [reflexivity|].
  simpl. rewrite IH. f_equal.
  exact (sanitize_entry_twice (pretty i) v Hv).
Qed.

(** X9: sanitizing twice is sanitizing once. *)
Theorem sanitizeErrorData_idempotent (data : value) :
  sanitizeErrorData (sanitizeErrorData data) = sanitizeErrorData data.
Proof.
  induction data as [| | | | |items IH|fields IH] using value_induction;
    try reflexivity.
  - rewrite sanitizeErrorData_array, sanitizeErrorData_object.
    f_equal. apply (array_entries_twice items IH).
  - rewrite !sanitizeErrorData_object. f_equal.
    fold sanitized_entry. rewrite map_map.
    induction IH as [|[key v] fields Hv _ IHf]; [reflexivity|].
    simpl. rewrite IHf. f_equal. exact (sanitize_entry_twice key v Hv).
Qed.

Lemma redacted_object (fields : list (string * value)) :
  redacted (VObj fields) = forallb entry_redacted fields.
Proof.
  simpl. induction fields as [|[key v] fields IH]; [reflexivity|].
  simpl. rewrite IH. reflexivity.
Qed.

Lemma sanitized_entry_redacted key v :
  redacted (sanitizeErrorData v) = true ->
  entry_redacted (sanitized_entry (key, v)) = true.
Proof.
  intros IH. unfold entry_redacted, sanitized_entry. simpl.
  destruct (is_sensitive key) eqn:Hk.
  - unfold sanitize_entry. rewrite Hk. reflexivity.
  - rewrite (sanitize_entry_keep _ key v Hk eq_refl). exact IH.
Qed.

(** X10: nothing sensitive survives: in the sanitized value every key
    that matches a pattern, at every depth, holds the marker, and no
    array is left. *)
Theorem sanitizeErrorData_redacted (data : value) :
  redacted (sanitizeErrorData data) = true.
Proof.
  induction data as [| | | | |items IH|fields IH] using value_induction;
    try reflexivity.
  - rewrite sanitizeErrorData_array, redacted_object. generalize O.
    induction IH as [|v items Hv _ IHl]; intros i; [reflexivity|].
    simpl. rewrite IHl, andb_true_r.
    exact (sanitized_entry_redacted (pretty i) v Hv).
  - rewrite sanitizeErrorData_object, redacted_object.
    induction IH as [|[key v] fields Hv _ IHf]; [reflexivity|].
    simpl. rewrite IHf, andb_true_r.
    exact (sanitized_entry_redacted key v Hv).
Qed.

Lemma keys_array_entries items i :
  map fst (array_entries i items) = map pretty (seq i (length items)).
Proof.
  revert i. induction items as [|v items IH]; intros i; [reflexivity|].
  simpl. rewrite IH. reflexivity.
Qed.

(** X11: the sanitized value has the keys of the input, in the same
    order: those of an object, or the indices of an array; and a value
    without arrays and without sensitive keys comes back as it is. *)
Theorem sanitizeErrorData_preserves (data : value) :
  keys (sanitizeErrorData data) = keys data
  /\ (plain data = true -> sanitizeErrorData data = data).
Proof.
  split; [|apply sanitize_plain].
  destruct data as [| | | | |items|fields]; try reflexivity.
  - rewrite sanitizeErrorData_array. simpl. apply keys_array_entries.
  - rewrite sanitizeErrorData_object. simpl. rewrite map_map. reflexivity.
Qed.

Lemma sanitizeErrorData_preserves_witness :
  sanitizeErrorData (VObj [("username", VStr "user123");
                           ("nested", VObj [("publicData", VStr "public")])])
  = VObj [("username", VStr "user123");
          ("nested", VObj [("publicData", VStr "public")])].
Proof.
  apply (proj2 (sanitizeErrorData_preserves
                  (VObj [("username", VStr "user123");
                         ("nested", VObj [("publicData", VStr "public")])]))).
  reflexivity.
Defined.

(** *** The error envelopes *)

(** X12: each of the six translations gives an envelope that passes the
    forwarder's validation, has no result, echoes the request id of the
    context, and carries its kind tag and the time stamp; the code is
    -32600 for a validation error, -32603 for a timeout, -32000 for a
    rate limit, one of -32602 and -32603 for a downstream error, one of
    -32601, -32602 and -32603 for a routing error, and for a protocol
    error the caller's code unless it is absent or 0. *)
Theorem handlers_well_formed (context : option ErrorContext) (timestamp : string) :
  (forall error,
     let envelope := handleRoutingError error context timestamp in
     well_formed envelope context "routing_error" timestamp
     /\ (error_code envelope = Some (-32601)
         \/ error_code envelope = Some (-32602)
         \/ error_code envelope = Some (-32603)))
  /\ (forall error,
        let envelope := handleDownstreamError error context timestamp in
        well_formed envelope context "downstream_error" timestamp
        /\ (error_code envelope = Some (-32602)
            \/ error_code envelope = Some (-32603)))
  /\ (forall name message customCode,
        let envelope :=
          handleProtocolError name message context customCode timestamp in
        well_formed envelope context "protocol_error" timestamp
        /\ error_code envelope
           = Some (match customCode with
                   | Some c => if c =? 0 then -32603 else c
                   | None => -32603
                   end))
  /\ (forall validationErrors,
        let envelope :=
          handleValidationError validationErrors context timestamp in
        well_formed envelope context "validation_error" timestamp
        /\ error_code envelope = Some (-32600))
  /\ (forall timeoutMs,
        let envelope := handleTimeoutError timeoutMs context timestamp in
        well_formed envelope context "timeout_error" timestamp
        /\ error_code envelope = Some (-32603)
        /\ prop (error_data envelope) "timeoutMs" = VNum timeoutMs)
  /\ (forall limit windowMs,
        let envelope := handleRateLimitError limit windowMs context timestamp in
        well_formed envelope context "rate_limit_error" timestamp
        /\ error_code envelope = Some (-32000)).
Proof.
  unfold well_formed. repeat split; try reflexivity.
  - unfold handleRoutingError, getErrorCodeForRoutingError. simpl.
    destruct (includes "Invalid routing strategy" _); [auto|].
    destruct (includes "Server not found" _); [auto|].
    destruct (includes "No route found" _); auto.
  - unfold handleDownstreamError, getErrorCodeForDownstreamError. simpl.
    destruct (status_of error) as [s|]; [|auto].
    destruct ((400 <=? s) && (s <? 500)); [auto|].
    destruct (500 <=? s); auto.
Qed.

(** X13: a downstream error is retryable exactly when it has no status
    (or status 0) or a status of 500 and more, and then it is reported
    with -32603; the code is -32602 exactly for a status from 400 to
    499, which is never retryable. *)
Theorem downstream_retry_and_code (error : DownstreamError) :
  (isRetryableError (Downstream error) = true
   <-> (status_of error = None
        \/ exists s, status_of error = Some s /\ 500 <= s))
  /\ (isRetryableError (Downstream error) = true ->
      getErrorCodeForDownstreamError error = -32603)
  /\ (getErrorCodeForDownstreamError error = -32602
      <-> exists s, statusCode error = Some s /\ 400 <= s < 500)
  /\ (getErrorCodeForDownstreamError error = -32602 ->
      isRetryableError (Downstream error) = false).
Proof.
  unfold isRetryableError, getErrorCodeForDownstreamError, status_of.
  destruct (statusCode error) as [s|].
  - destruct (Z.eqb_spec s 0) as [->|Hs0].
    + repeat split; try discriminate; auto.
      intros (s & [= <-] & Hs). lia.
    + destruct (Z.leb_spec 500 s), (Z.leb_spec 400 s), (Z.ltb_spec s 500);
        simpl; repeat split; try discriminate; try lia; auto;
        try (intros _; right; exists s; split; [reflexivity|lia]);
        try (intros _; exists s; split; [reflexivity|lia]);
        try (intros [H'|(s' & [= <-] & H')]; [discriminate|lia]);
        try (intros (s' & [= <-] & H'); lia).
  - repeat split; try discriminate; auto.
    intros (s & [=] & _).
Qed.

Lemma downstream_retry_and_code_witness :
  getErrorCodeForDownstreamError
    {| d_message := "Bad gateway"; d_serverName := "files";
       d_serverUrl := "http://localhost:8001"; statusCode := Some 502;
       responseData := VUndefined |}
  = -32603.
Proof.
  apply (proj1 (proj2 (downstream_retry_and_code
                         {| d_message := "Bad gateway"; d_serverName := "files";
                            d_serverUrl := "http://localhost:8001";
                            statusCode := Some 502;
                            responseData := VUndefined |}))).
  reflexivity.
Defined.

(** X14: for every error that routing can throw, the translation has
    -32602 when the strategy is invalid and -32601 when no route or no
    server is found, never -32603, and its message is the fixed text of
    that case. *)
Theorem handleRoutingError_of_route config servers requestPath headers
    error context timestamp :
  Router.route config servers requestPath headers = inl error ->
  let envelope := handleRoutingError error context timestamp in
  (Router.message error = "Invalid routing strategy"
   /\ error_code envelope = Some (-32602)
   /\ error_message envelope
      = Some "Invalid routing configuration. Please check the proxy configuration.")
  \/ (Router.message error = "No route found"
      /\ error_code envelope = Some (-32601)
      /\ error_message envelope
         = Some "No routing rule found for the request. Please check the request path or headers.")
  \/ (Router.message error = "Server not found"
      /\ error_code envelope = Some (-32601)
      /\ error_message envelope
         = Some "The target server is not configured. Please check the server configuration.").
Proof.
  intros Hr. cbv zeta.
  unfold handleRoutingError, error_code, error_message. simpl.
  destruct (GatewayFacts.route_failure_causes _ _ _ _ _ Hr) as [-> | [-> | ->]].
  - left. repeat split.
  - right; left. repeat split.
  - right; right. repeat split.
Qed.

Lemma handleRoutingError_of_route_witness :
  error_code (handleRoutingError
                {| Router.message := "No route found";
                   Router.details := "No matching routing rule found and no default server configured";
                   Router.requestPath := Some "/x";
                   Router.headers := None |}
                None "2026-01-01T00:00:00.000Z")
  = Some (-32601).
Proof.
  assert (Hr : Router.route
                 {| Router.strategy := "prefix";
                    Router.rules := [];
                    Router.defaultServer := None |}
                 [] (Some "/x") None
               = inl {| Router.message := "No route found";
                        Router.details := "No matching routing rule found and no default server configured";
                        Router.requestPath := Some "/x";
                        Router.headers := None |})
    by (vm_compute; reflexivity).
  destruct (handleRoutingError_of_route _ _ _ _ _ None
              "2026-01-01T00:00:00.000Z" Hr)
    as [(H & _)|[(_ & H & _)|(H & _)]].
  - discriminate H.
  - exact H.
  - discriminate H.
Defined.


End ErrorProps.

(** * More properties of the response aggregator *)

Module AggregatorProps.

Import Aggregator Discovery AggregatorFacts.
Local Open Scope nat_scope.
Local Open Scope list_scope.

(** *** The map of [resolveMethodConflicts] *)

Lemma with_name_same method : with_name method (name method) = method.
Proof. destruct method; reflexivity. Qed.

Lemma assoc_app {A : Type} (k : string) (l1 l2 : list (string * A)) :
  assoc k (l1 ++ l2)
  = match assoc k l1 with Some v => Some v | None => assoc k l2 end.
Proof.
  induction l1 as [|[k' v] l1 IH]; simpl; [reflexivity|].
  destruct (String.eqb k k'); [reflexivity|exact IH].
Qed.

Lemma map_has_app k (m1 m2 : MethodMap) :
  map_has k (m1 ++ m2) = map_has k m1 || map_has k m2.
Proof.
  unfold map_has. rewrite assoc_app. destruct (assoc k m1); reflexivity.
Qed.

Lemma map_has_spec k (m : MethodMap) : map_has k m = true <-> k ∈ map fst m.
Proof.
  split; [apply map_has_elem|].
  unfold map_has. induction m as [|[k' v] m IH]; simpl.
  - intros H. inversion H.
  - intros H. destruct (String.eqb_spec k k') as [->|Hne]; [reflexivity|].
    apply IH. inversion H; subst; [contradiction|assumption].
Qed.

Lemma map_has_false k (m : MethodMap) : map_has k m = false <-> k ∉ map fst m.
Proof.
  rewrite <- map_has_spec. destruct (map_has k m); split; congruence.
Qed.

Lemma assoc_map_set k k' v (m : MethodMap) :
  assoc k (map_set k' v m) = if String.eqb k k' then Some v else assoc k m.
Proof.
  induction m as [|[k0 v0] m IH]; simpl.
  - destruct (String.eqb k k'); reflexivity.
  - destruct (String.eqb_spec k' k0) as [->|Hne]; simpl.
    + destruct (String.eqb k k0); reflexivity.
    + rewrite IH. destruct (String.eqb_spec k k0) as [->|]; [|reflexivity].
      destruct (String.eqb_spec k0 k'); [congruence|reflexivity].
Qed.

Lemma map_has_map_set k k' v (m : MethodMap) :
  map_has k (map_set k' v m) = String.eqb k k' || map_has k m.
Proof.
  unfold map_has. rewrite assoc_map_set.
  destruct (String.eqb k k'); reflexivity.
Qed.

Lemma map_set_keys k v (m : MethodMap) :
  map fst (map_set k v m)
  = if map_has k m then map fst m else map fst m ++ [k].
Proof.
  unfold map_has. induction m as [|[k' v'] m IH]; simpl; [reflexivity|].
  destruct (String.eqb_spec k k') as [->|Hne]; simpl; [reflexivity|].
  rewrite IH. destruct (assoc k m); reflexivity.
Qed.

Lemma map_set_NoDup k v (m : MethodMap) :
  NoDup (map fst m) -> NoDup (map fst (map_set k v m)).
Proof.
  intros Hm. rewrite map_set_keys. destruct (map_has k m) eqn:Hk; [exact Hm|].
  apply NoDup_app. split; [exact Hm|]. split; [|apply NoDup_singleton].
  intros x Hx Hin. apply list_elem_of_singleton in Hin as ->.
  apply map_has_false in Hk. contradiction.
Qed.

Lemma map_set_Forall (P : string * MCPMethod -> Prop) k v (m : MethodMap) :
  P (k, v) -> Forall P m -> Forall P (map_set k v m).
Proof.
  intros Hv. induction 1 as [|[k' v'] m Hx Hm IH]; simpl.
  - repeat constructor. exact Hv.
  - destruct (String.eqb k k'); constructor; assumption.
Qed.

(** What one iteration does to the map: nothing, or one [set]. *)
Lemma resolve_step_shape strategy m method m' :
  resolve_step strategy m method = Some m' ->
  m' = m \/ exists u, m' = map_set u (with_name method u) m.
Proof.
  rewrite resolve_step_eq.
  destruct (if map_has (name method) m then on_conflict strategy m method
            else Some (Named (name method))) as [[|finalName]|];
    [intros [= <-]; left; reflexivity| |discriminate].
  destruct (unique_scan _ _ _ _ _ _) as [u|]; [|discriminate].
  intros [= <-]. right. exists u. reflexivity.
Qed.

Lemma resolve_loop_preserves (I : MethodMap -> Prop) strategy methods :
  (forall m x u, x ∈ methods -> I m -> I (map_set u (with_name x u) m)) ->
  forall m m', I m -> resolve_loop strategy m methods = Some m' -> I m'.
Proof.
  induction methods as [|x rest IH]; intros Hstep m m' Hm.
  - simpl. intros [= <-]. exact Hm.
  - rewrite resolve_loop_cons.
    destruct (resolve_step strategy m x) as [m1|] eqn:Hs; [|discriminate].
    apply IH.
    + intros m0 y u Hy. apply Hstep. right. exact Hy.
    + destruct (resolve_step_shape _ _ _ _ Hs) as [->|[u ->]]; [exact Hm|].
      apply Hstep; [left|exact Hm].
Qed.

Lemma resolve_loop_invariant methods strategy m' :
  resolve_loop strategy [] methods = Some m' ->
  NoDup (map fst m')
  /\ Forall (fun kv => exists x, x ∈ methods
                        /\ snd kv = with_name x (fst kv)) m'.
Proof.
  intros Hm'.
  apply (resolve_loop_preserves
           (fun m : MethodMap =>
              NoDup (map fst m)
              /\ Forall (fun kv => exists x, x ∈ methods
                                    /\ snd kv = with_name x (fst kv)) m)
           strategy methods) with (m := []);
    [|split; constructor|exact Hm'].
  intros m x u Hx [Hnd Hall]. split; [apply map_set_NoDup, Hnd|].
  apply map_set_Forall; [|exact Hall]. exists x. split; [exact Hx|reflexivity].
Qed.

(** Every entry of the map is filed under the name it carries. *)
Lemma keyed_names (methods : list MCPMethod) (m : MethodMap) :
  Forall (fun kv => exists x : MCPMethod, x ∈ methods
                      /\ snd kv = with_name x (fst kv)) m ->
  map name (map_values m) = map fst m.
Proof.
  unfold map_values.
  induction 1 as [|[k v] m (x & _ & Hv) _ IH]; [reflexivity|].
  simpl in *. rewrite IH, Hv. reflexivity.
Qed.

Lemma resolved_distinct methods strategy :
  exists resolved,
    resolveMethodConflicts methods strategy = Some resolved
    /\ NoDup (map name resolved).
Proof.
  unfold resolveMethodConflicts.
  destruct (resolve_loop_total strategy methods []) as [m' Hm'].
  rewrite Hm'. exists (map_values m'). split; [reflexivity|].
  apply resolve_loop_invariant in Hm' as [Hnd Hall].
  rewrite (keyed_names methods) by exact Hall. exact Hnd.
Qed.

(** X16: whatever the strategy, the merge returns, the names of the
    capabilities it returns are pairwise distinct, and each of them is
    a capability of the input under the name it now has. *)
Theorem resolveMethodConflicts_distinct methods strategy :
  exists resolved,
    resolveMethodConflicts methods strategy = Some resolved
    /\ NoDup (map name resolved)
    /\ Forall (fun r => exists x, x ∈ methods /\ r = with_name x (name r))
         resolved.
Proof.
  unfold resolveMethodConflicts.
  destruct (resolve_loop_total strategy methods []) as [m' Hm'].
  rewrite Hm'. exists (map_values m'). split; [reflexivity|].
  apply resolve_loop_invariant in Hm' as [Hnd Hall].
  split; [rewrite (keyed_names methods) by exact Hall; exact Hnd|].
  unfold map_values. clear -Hall.
  induction Hall as [|[k v] m (x & Hx & Hv) _ IH]; simpl; constructor;
    [|exact IH].
  exists x. split; [exact Hx|]. simpl in Hv. rewrite Hv. reflexivity.
Qed.

(** *** Input without a repeated name *)

Lemma resolve_loop_fresh strategy methods : forall m,
  NoDup (map fst m ++ map name methods) ->
  resolve_loop strategy m methods
  = Some (m ++ map (fun x => (name x, x)) methods).
Proof.
  induction methods as [|x rest IH]; intros m Hnd.
  - simpl. rewrite app_nil_r. reflexivity.
  - rewrite resolve_loop_cons.
    assert (map_has (name x) m = false) as Hf.
    { apply map_has_false. apply NoDup_app in Hnd as (_ & Hd & _).
      intros Hin. apply (Hd _ Hin). left. }
    rewrite resolve_step_fresh by exact Hf. rewrite with_name_same.
    rewrite IH.
    + rewrite <- app_assoc. reflexivity.
    + rewrite map_app, <- app_assoc. exact Hnd.
Qed.

Lemma map_named (methods : list MCPMethod) :
  map_values (map (fun x => (name x, x)) methods) = methods.
Proof.
  unfold map_values. induction methods as [|x l IH]; [reflexivity|].
  simpl. rewrite IH. reflexivity.
Qed.

(** X17: when no name occurs twice, every strategy returns the input as
    it is, and [mergeMethodLists] returns the lists of the responses one
    after the other, a response without a list giving nothing. *)
Theorem resolveMethodConflicts_no_conflict :
  (forall methods strategy,
     NoDup (map name methods) ->
     resolveMethodConflicts methods strategy = Some methods)
  /\ (forall responses,
        NoDup (map name (concat (map (fun r => default [] (r_methods r))
                                     responses))) ->
        mergeMethodLists responses
        = Some (concat (map (fun r => default [] (r_methods r)) responses))).
Proof.
  assert (forall methods strategy,
            NoDup (map name methods) ->
            resolveMethodConflicts methods strategy = Some methods) as H.
  { intros methods strategy Hnd. unfold resolveMethodConflicts.
    rewrite resolve_loop_fresh by exact Hnd. simpl.
    rewrite map_named. reflexivity. }
  split; [exact H|]. intros responses Hnd. apply H, Hnd.
Qed.

Lemma resolveMethodConflicts_no_conflict_witness :
  resolveMethodConflicts [Samples.tool "read"; Samples.tool "write"] KeepLast
  = Some [Samples.tool "read"; Samples.tool "write"]
  /\ mergeMethodLists [ {| r_methods := Some [Samples.tool "read"] |};
                        {| r_methods := None |};
                        {| r_methods := Some [Samples.tool "write"] |} ]
     = Some [Samples.tool "read"; Samples.tool "write"].
Proof.
  split.
  - apply (proj1 resolveMethodConflicts_no_conflict).
    apply (bool_decide_unpack _). vm_compute. exact I.
  - apply (proj2 resolveMethodConflicts_no_conflict
             [ {| r_methods := Some [Samples.tool "read"] |};
               {| r_methods := None |};
               {| r_methods := Some [Samples.tool "write"] |} ]).
    apply (bool_decide_unpack _). vm_compute. exact I.
Defined.

(** *** Keeping the first or the last *)

Lemma map_has_single k n (x : MCPMethod) :
  map_has k [(n, x)] = String.eqb k n.
Proof. unfold map_has. simpl. destruct (String.eqb k n); reflexivity. Qed.

Lemma resolve_loop_keep_first methods : forall m seen,
  (forall k, existsb (String.eqb k) seen = map_has k m) ->
  resolve_loop KeepFirst m methods
  = Some (m ++ map (fun x => (name x, x)) (first_occurrences seen methods)).
Proof.
  induction methods as [|x rest IH]; intros m seen Hseen.
  - simpl. rewrite app_nil_r. reflexivity.
  - rewrite resolve_loop_cons. cbn [first_occurrences]. rewrite Hseen.
    destruct (map_has (name x) m) eqn:Hx.
    + rewrite resolve_step_eq, Hx. simpl. apply IH, Hseen.
    + rewrite resolve_step_fresh by exact Hx. rewrite with_name_same.
      rewrite (IH _ (name x :: seen)).
      * simpl. rewrite <- app_assoc. reflexivity.
      * intros k. simpl. rewrite map_has_app, map_has_single, Hseen.
        apply orb_comm.
Qed.

(** X18: keep-first returns the first capability of each name, in the
    order of the input. *)
Theorem resolveMethodConflicts_keep_first methods :
  resolveMethodConflicts methods KeepFirst
  = Some (first_occurrences [] methods).
Proof.
  unfold resolveMethodConflicts.
  rewrite (resolve_loop_keep_first methods [] []) by reflexivity.
  simpl. rewrite map_named. reflexivity.
Qed.

Lemma resolve_step_keep_last m x :
  resolve_step KeepLast m x = Some (map_set (name x) x m).
Proof.
  rewrite resolve_step_eq.
  assert ((if map_has (name x) m then on_conflict KeepLast m x
           else Some (Named (name x))) = Some (Named (name x))) as ->
    by (destruct (map_has (name x) m); reflexivity).
  rewrite unique_scan_original, with_name_same. reflexivity.
Qed.

Lemma resolve_loop_keep_last methods : forall m,
  resolve_loop KeepLast m methods
  = Some (fold_left (fun m x => map_set (name x) x m) methods m).
Proof.
  induction methods as [|x rest IH]; intros m; [reflexivity|].
  rewrite resolve_loop_cons, resolve_step_keep_last. apply IH.
Qed.

Lemma find_app {A : Type} (p : A -> bool) (l1 l2 : list A) :
  find p (l1 ++ l2)
  = match find p l1 with Some x => Some x | None => find p l2 end.
Proof.
  induction l1 as [|a l1 IH]; simpl; [reflexivity|].
  destruct (p a); [reflexivity|exact IH].
Qed.

Lemma keep_last_lookup n methods : forall m,
  assoc n (fold_left (fun m x => map_set (name x) x m) methods m)
  = match find (fun x => String.eqb (name x) n) (rev methods) with
    | Some x => Some x
    | None => assoc n m
    end.
Proof.
  induction methods as [|x rest IH]; intros m; [reflexivity|].
  simpl. rewrite IH, find_app, assoc_map_set. simpl.
  rewrite (String.eqb_sym n).
  destruct (find _ (rev rest)); [reflexivity|].
  destruct (String.eqb (name x) n); reflexivity.
Qed.

Lemma keep_last_keys methods : forall m seen,
  (forall k, existsb (String.eqb k) seen = map_has k m) ->
  map fst (fold_left (fun m x => map_set (name x) x m) methods m)
  = map fst m ++ map name (first_occurrences seen methods).
Proof.
  induction methods as [|x rest IH]; intros m seen Hseen.
  - simpl. rewrite app_nil_r. reflexivity.
  - cbn [fold_left first_occurrences]. rewrite Hseen.
    destruct (map_has (name x) m) eqn:Hx.
    + rewrite (IH _ seen).
      * rewrite map_set_keys, Hx. reflexivity.
      * intros k. rewrite map_has_map_set, Hseen.
        destruct (String.eqb_spec k (name x)) as [->|]; [exact Hx|reflexivity].
    + rewrite (IH _ (name x :: seen)).
      * rewrite map_set_keys, Hx. simpl. rewrite <- app_assoc. reflexivity.
      * intros k. simpl. rewrite map_has_map_set, Hseen. reflexivity.
Qed.

Lemma keep_last_keyed methods : forall m,
  Forall (fun kv => name (snd kv) = fst kv) m ->
  Forall (fun kv => name (snd kv) = fst kv)
    (fold_left (fun m x => map_set (name x) x m) methods m).
Proof.
  induction methods as [|x rest IH]; intros m Hm; [exact Hm|].
  simpl. apply IH, map_set_Forall; [reflexivity|exact Hm].
Qed.

Lemma find_values n (m : MethodMap) :
  Forall (fun kv => name (snd kv) = fst kv) m ->
  find (fun x => String.eqb (name x) n) (map_values m) = assoc n m.
Proof.
  unfold map_values. induction 1 as [|[k v] m Hv _ IH]; [reflexivity|].
  simpl in *. rewrite Hv, (String.eqb_sym n), IH. reflexivity.
Qed.

(** X19: keep-last returns, for each name, the last capability of that
    name, at the place of the first: the names come in the order of
    keep-first. *)
Theorem resolveMethodConflicts_keep_last methods :
  exists resolved,
    resolveMethodConflicts methods KeepLast = Some resolved
    /\ map name resolved = map name (first_occurrences [] methods)
    /\ forall n,
         find (fun x => String.eqb (name x) n) resolved
         = find (fun x => String.eqb (name x) n) (rev methods).
Proof.
  unfold resolveMethodConflicts. rewrite resolve_loop_keep_last.
  eexists. split; [reflexivity|].
  pose proof (keep_last_keyed methods [] (List.Forall_nil _)) as Hk.
  split.
  - change (map name (first_occurrences [] methods))
      with (map fst ([] : MethodMap)
            ++ map name (first_occurrences [] methods)).
    rewrite <- (keep_last_keys methods [] []) by reflexivity.
    unfold map_values. clear -Hk.
    induction Hk as [|[k v] m Hv _ IH]; [reflexivity|].
    simpl in *. rewrite IH, Hv. reflexivity.
  - intros n. rewrite find_values by exact Hk.
    rewrite keep_last_lookup. destruct (find _ (rev methods)); reflexivity.
Qed.

(** *** The suffix strategy keeps every capability *)

Lemma resolve_loop_suffix methods : forall m,
  exists added,
    resolve_loop Suffix m methods = Some (m ++ added)
    /\ Forall2 (fun x kv =>
                  snd kv = with_name x (fst kv)
                  /\ (fst kv = name x
                      \/ exists c, 1 <= c /\ fst kv = numbered (name x) c))
         methods added.
Proof.
  induction methods as [|x rest IH]; intros m.
  - exists []. simpl. rewrite app_nil_r. split; [reflexivity|constructor].
  - rewrite resolve_loop_cons. destruct (map_has (name x) m) eqn:Hx.
    + destruct (resolve_step_suffix m x Hx) as (c & Hc & _ & _ & ->).
      destruct (IH (m ++ [(numbered (name x) c,
                           with_name x (numbered (name x) c))]))
        as (added & -> & Hall).
      eexists (_ :: added). rewrite <- app_assoc. split; [reflexivity|].
      constructor; [|exact Hall]. split; [reflexivity|]. right. eauto.
    + rewrite resolve_step_fresh by exact Hx.
      destruct (IH (m ++ [(name x, with_name x (name x))]))
        as (added & -> & Hall).
      eexists (_ :: added). rewrite <- app_assoc. split; [reflexivity|].
      constructor; [|exact Hall]. split; [reflexivity|]. left. reflexivity.
Qed.

(** X20: the suffix strategy drops nothing: the result has one
    capability for each of the input, in its order, the same but for the
    name, which is the old one or the old one with [_c] for some
    [c >= 1]. *)
Theorem resolveMethodConflicts_suffix_keeps_all methods :
  exists resolved,
    resolveMethodConflicts methods Suffix = Some resolved
    /\ length resolved = length methods
    /\ Forall2 (fun x r =>
                  r = with_name x (name r)
                  /\ (name r = name x
                      \/ exists c, 1 <= c /\ name r = numbered (name x) c))
         methods resolved.
Proof.
  unfold resolveMethodConflicts.
  destruct (resolve_loop_suffix methods []) as (added & -> & Hall).
  exists (map_values added). split; [reflexivity|].
  assert (Forall2 (fun x r =>
                     r = with_name x (name r)
                     /\ (name r = name x
                         \/ exists c, 1 <= c /\ name r = numbered (name x) c))
            methods (map_values added)) as H.
  { unfold map_values. clear -Hall.
    induction Hall as [|x [k v] methods added (Hv & Hk) _ IH];
      simpl; constructor; [|exact IH].
    simpl in *. subst v. split; [reflexivity|exact Hk]. }
  split; [|exact H]. symmetry. eapply Forall2_length, H.
Qed.

(** *** The prefix strategy and the server it infers *)

Lemma take_word_spec s : forall w r,
  take_word s = (w, r) -> s = (w ++ r)%string /\ word_chars w = true.
Proof.
  induction s as [|c s IH]; intros w r; simpl.
  - intros [= <- <-]. split; reflexivity.
  - destruct (is_word_char c) eqn:Hc.
    + destruct (take_word s) as [w' r']. intros [= <- <-].
      destruct (IH _ _ eq_refl) as [-> Hw]. split; [reflexivity|].
      simpl. rewrite Hc, Hw. reflexivity.
    + intros [= <- <-]. split; reflexivity.
Qed.

Lemma take_word_word w : forall r,
  word_chars w = true ->
  take_word (w ++ String " " r) = (w, String " " r).
Proof.
  induction w as [|c w IH]; intros r Hw; [reflexivity|].
  simpl in Hw. apply andb_true_iff in Hw as [Hc Hw].
  change (take_word (String c (w ++ String " " r))
          = (String c w, String " " r)).
  simpl. rewrite Hc, (IH r Hw). reflexivity.
Qed.

Lemma match_here_sound s w :
  match_here s = Some w ->
  is_word w = true
  /\ exists post, s = ("from " ++ w ++ " server" ++ post)%string.
Proof.
  unfold match_here.
  destruct (String.prefix "from " s) eqn:Hp; [|discriminate].
  apply SanitizeFacts.prefix_spec in Hp as [rest ->].
  change (skip 5 ("from " ++ rest)) with rest.
  destruct (take_word rest) as [w' r] eqn:Ht.
  destruct (negb (String.eqb w' EmptyString) && String.prefix " server" r)
    eqn:Hc; [|discriminate].
  intros [= ->]. apply andb_true_iff in Hc as [Hne Hs].
  apply SanitizeFacts.prefix_spec in Hs as [post ->].
  apply take_word_spec in Ht as [-> Hw].
  split; [unfold is_word; rewrite Hne, Hw; reflexivity|].
  exists post. reflexivity.
Qed.

Lemma match_from_server_eq s :
  match_from_server s
  = match match_here s with
    | Some w => Some w
    | None =>
        match s with
        | EmptyString => None
        | String _ s' => match_from_server s'
        end
    end.
Proof. destruct s; reflexivity. Qed.

Lemma match_here_word w post :
  is_word w = true ->
  match_here ("from " ++ w ++ " server" ++ post) = Some w.
Proof.
  unfold is_word. intros Hw. apply andb_true_iff in Hw as [Hne Hw].
  unfold match_here.
  change (String.prefix "from " ("from " ++ w ++ " server" ++ post))
    with (String.prefix EmptyString (w ++ " server" ++ post)).
  change (skip 5 ("from " ++ w ++ " server" ++ post))
    with (w ++ String " " ("server" ++ post))%string.
  rewrite take_word_word by exact Hw. rewrite Hne.
  change (String.prefix " server" (String " " ("server" ++ post)))
    with (String.prefix EmptyString post).
  destruct (w ++ _)%string; destruct post; reflexivity.
Qed.

(** X21: the server the prefix strategy reads off a description is a
    run of word characters that the description has between [from] and
    [server]; a description that starts with such a phrase gives its
    word, and one that has such a phrase anywhere gives some server. *)
Theorem match_from_server_spec :
  (forall d w,
     match_from_server d = Some w ->
     is_word w = true
     /\ exists pre post, d = (pre ++ "from " ++ w ++ " server" ++ post)%string)
  /\ (forall w post,
        is_word w = true ->
        match_from_server ("from " ++ w ++ " server" ++ post) = Some w)
  /\ (forall pre w post,
        is_word w = true ->
        exists w',
          match_from_server (pre ++ "from " ++ w ++ " server" ++ post)
          = Some w').
Proof.
  split; [|split].
  - intros d. induction d as [|c d IH]; intros w; rewrite match_from_server_eq.
    + destruct (match_here EmptyString) as [w'|] eqn:Hm; [|discriminate].
      intros [= ->]. apply match_here_sound in Hm as (Hw & post & Hd).
      split; [exact Hw|]. exists EmptyString, post. exact Hd.
    + destruct (match_here (String c d)) as [w'|] eqn:Hm.
      * intros [= ->]. apply match_here_sound in Hm as (Hw & post & Hd).
        split; [exact Hw|]. exists EmptyString, post. exact Hd.
      * intros Hd. destruct (IH _ Hd) as (Hw & pre & post & ->).
        split; [exact Hw|]. exists (String c pre), post. reflexivity.
  - intros w post Hw. rewrite match_from_server_eq, match_here_word by exact Hw.
    reflexivity.
  - intros pre w post Hw. induction pre as [|c pre IH].
    + exists w. change (EmptyString ++ ?s)%string with s.
      rewrite match_from_server_eq, match_here_word by exact Hw. reflexivity.
    + rewrite match_from_server_eq.
      destruct (match_here _) as [w'|]; [eauto|].
      change (String c pre ++ ?s)%string with (String c (pre ++ s)).
      exact IH.
Qed.

Lemma match_from_server_spec_witness :
  match_from_server "from github server" = Some "github".
Proof.
  apply (proj1 (proj2 match_from_server_spec) "github" EmptyString).
  reflexivity.
Defined.

Lemma unique_scan_result m finalName originalName fuel :
  forall uniqueName counter u,
    unique_scan fuel m finalName originalName uniqueName counter = Some u ->
    (map_has u m = false \/ u = originalName)
    /\ (u = uniqueName
        \/ exists c, counter <= c /\ u = numbered finalName c).
Proof.
  induction fuel as [|fuel IH]; intros uniqueName counter u; [discriminate|].
  simpl.
  destruct (map_has uniqueName m && negb (String.eqb uniqueName originalName))
    eqn:Hc.
  - intros Hu. destruct (IH _ _ _ Hu) as [H1 [->|(c & Hc' & ->)]].
    + split; [exact H1|]. right. exists counter. split; [lia|reflexivity].
    + split; [exact H1|]. right. exists c. split; [lia|reflexivity].
  - intros [= <-]. split; [|left; reflexivity].
    apply andb_false_iff in Hc as [Hc|Hc]; [left; exact Hc|].
    right. apply negb_false_iff, String.eqb_eq in Hc. exact Hc.
Qed.

Lemma includes_app_r a pre s :
  includes a s = true -> includes a (pre ++ s) = true.
Proof.
  rewrite !SanitizeFacts.includes_spec. intros (p & q & ->).
  exists (pre ++ p)%string, q. rewrite SanitizeFacts.string_app_assoc.
  reflexivity.
Qed.

Lemma includes_app_l a s post :
  includes a s = true -> includes a (s ++ post) = true.
Proof.
  rewrite !SanitizeFacts.includes_spec. intros (p & q & ->).
  exists p, (q ++ post)%string. rewrite !SanitizeFacts.string_app_assoc.
  reflexivity.
Qed.

(** X22: under the prefix strategy a capability whose name is taken and
    has a slash replaces the one of that name, at its place; one whose
    name has no slash is added, nothing being replaced, under the name
    [server/name], or that name with [_c] for some [c >= 1], where the
    server is read off its description or is [unknown]. *)
Theorem resolve_step_prefix m method :
  map_has (name method) m = true ->
  (includes "/" (name method) = true ->
   resolve_step Prefix m method = Some (map_set (name method) method m))
  /\ (includes "/" (name method) = false ->
      exists server u,
        (server = "unknown"
         \/ exists d, description method = Some d
                      /\ match_from_server d = Some server)
        /\ (u = server ++ "/" ++ name method
            \/ exists c, 1 <= c
                  /\ u = numbered (server ++ "/" ++ name method) c)%string
        /\ map_has u m = false
        /\ resolve_step Prefix m method
           = Some (m ++ [(u, with_name method u)])).
Proof.
  intros Ht. split; intros Hs.
  - rewrite resolve_step_eq, Ht. unfold on_conflict. rewrite Hs.
    rewrite unique_scan_original, with_name_same. reflexivity.
  - set (server := match description method with
                   | Some d => default "unknown" (match_from_server d)
                   | None => "unknown"
                   end).
    assert (server = "unknown"
            \/ exists d, description method = Some d
                         /\ match_from_server d = Some server) as Hserver.
    { unfold server. destruct (description method) as [d|]; [|left; reflexivity].
      destruct (match_from_server d) as [w|] eqn:Hm; [|left; reflexivity].
      right. exists d. split; [reflexivity|exact Hm]. }
    destruct (unique_scan_stops m (server ++ "/" ++ name method) (name method)
                (S (length m)) 1 (server ++ "/" ++ name method)
                (free_number m _ 1)) as [u Hu].
    exists server, u. split; [exact Hserver|].
    destruct (unique_scan_result _ _ _ _ _ _ _ Hu) as [Hfree Hform].
    assert (includes "/" u = true) as Hslash.
    { assert (includes "/" (server ++ "/" ++ name method) = true) as H0.
      { apply includes_app_r. destruct (name method); reflexivity. }
      destruct Hform as [->|(c & _ & ->)]; [exact H0|].
      unfold numbered. apply includes_app_l, H0. }
    assert (map_has u m = false) as Hu_free.
    { destruct Hfree as [Hf | ->]; [exact Hf|congruence]. }
    split; [exact Hform|]. split; [exact Hu_free|].
    rewrite resolve_step_eq, Ht. unfold on_conflict. rewrite Hs.
    fold server. rewrite Hu, map_set_fresh by exact Hu_free. reflexivity.
Qed.

Lemma resolve_step_prefix_witness :
  let m := [("read", Samples.tool "read")] in
  let method := {| name := "read";
                   description := Some "read from files server";
                   inputSchema := None; parameters := None |} in
  exists u, map_has u m = false
            /\ resolve_step Prefix m method
               = Some (m ++ [(u, with_name method u)]).
Proof.
  intros m method.
  destruct (proj2 (resolve_step_prefix m method eq_refl) eq_refl)
    as (server & u & _ & _ & Hfree & H).
  exists u. split; [exact Hfree|exact H].
Defined.

(** *** Partial failures and statistics *)

Lemma no_failure (rs : list ServerMethodResult) :
  (length (List.filter (fun r => negb (success r)) rs) =? 0)
  = forallb success rs.
Proof.
  induction rs as [|r rs IH]; [reflexivity|].
  simpl. destruct (success r); simpl; [exact IH|reflexivity].
Qed.

Lemma no_success (rs : list ServerMethodResult) :
  (length (List.filter success rs) =? 0) = negb (existsb success rs).
Proof.
  induction rs as [|r rs IH]; [reflexivity|].
  simpl. destruct (success r); simpl; [reflexivity|exact IH].
Qed.

(** X23: [handlePartialFailures] says to go on exactly when no backend
    failed, or one succeeded and [continueOnFailure] is set; it gives a
    message exactly when it says to stop. *)
Theorem handlePartialFailures_decision serverResults continueOnFailure :
  fst (handlePartialFailures serverResults continueOnFailure)
  = forallb success serverResults
    || existsb success serverResults && continueOnFailure
  /\ (snd (handlePartialFailures serverResults continueOnFailure) = None
      <-> fst (handlePartialFailures serverResults continueOnFailure) = true).
Proof.
  unfold handlePartialFailures. cbv zeta.
  rewrite no_failure, no_success.
  destruct (forallb success serverResults) eqn:Hall; simpl.
  - split; [reflexivity|]. split; reflexivity.
  - destruct (existsb success serverResults); simpl.
    + assert ((0 <? length (List.filter (fun r => negb (success r))
                          serverResults)) = true) as ->.
      { apply Nat.ltb_lt. rewrite <- no_failure in Hall.
        apply Nat.eqb_neq in Hall. lia. }
      destruct continueOnFailure; simpl.
      * split; [reflexivity|]. split; reflexivity.
      * split; [reflexivity|]. split; discriminate.
    + split; [reflexivity|]. split; discriminate.
Qed.

Lemma sumZ_nonneg {A : Type} (f : A -> Z) (l : list A) :
  (forall x, 0 <= f x)%Z -> (0 <= sumZ (map f l))%Z.
Proof.
  intros Hf. induction l as [|a l IH]; simpl; [lia|].
  specialize (Hf a). lia.
Qed.

(** X24: in the statistics the servers are the successful and the
    failed ones and the counts are not negative. For times whose sum
    the doubles hold exactly, the average response time is the mean of
    the times (0 for a result without one) rounded to the nearest whole
    number, and with no server at all every figure is 0. *)
Theorem getAggregationStats_consistent serverResults :
  let stats := getAggregationStats serverResults in
  let times := map (fun r => default 0%Z (responseTime r)) serverResults in
  let total := sumZ times in
  (totalServers stats = successfulServers stats + failedServers stats
   /\ totalServers stats = Z.of_nat (length serverResults)
   /\ 0 <= successfulServers stats <= totalServers stats
   /\ 0 <= failedServers stats
   /\ 0 <= totalMethods stats
   /\ (adds_exactly times = true ->
       exists average,
         averageResponseTime stats = Some average
         /\ (serverResults = [] /\ average = 0
             \/ 2 * total - totalServers stats
                  < 2 * totalServers stats * average
                  <= 2 * total + totalServers stats)))%Z
  /\ getAggregationStats []
     = {| totalServers := 0; successfulServers := 0; failedServers := 0;
          averageResponseTime := Some 0%Z; totalMethods := 0 |}.
Proof.
  cbv zeta. split; [|reflexivity].
  unfold getAggregationStats. cbn [totalServers successfulServers failedServers
    averageResponseTime totalMethods].
  pose proof (filter_length_le success serverResults) as Hle.
  split; [lia|]. split; [reflexivity|]. split; [lia|]. split; [lia|].
  split.
  - apply sumZ_nonneg. intros r. lia.
  - intros ->. eexists. split; [reflexivity|].
    destruct serverResults as [|r rs]; [left; split; reflexivity|]. right.
    set (n := Z.of_nat (length (r :: rs))).
    assert (0 < n)%Z as Hn by (unfold n; simpl; lia).
    apply Z.ltb_lt in Hn as Hb. rewrite Hb. unfold round_div.
    set (t := sumZ _).
    pose proof (Z.div_mod (2 * t + n) (2 * n) ltac:(lia)).
    pose proof (Z.mod_pos_bound (2 * t + n) (2 * n) ltac:(lia)). nia.
Qed.

Lemma getAggregationStats_consistent_witness :
  let serverResults :=
    [{| serverName := "files"; success := true; methods := Some [];
        error := None; responseTime := Some 7%Z |};
     {| serverName := "drive"; success := false; methods := None;
        error := Some "Connection refused"; responseTime := Some 8%Z |}] in
  exists average,
    averageResponseTime (getAggregationStats serverResults) = Some average
    /\ (2 * 15 - 2 < 2 * 2 * average <= 2 * 15 + 2)%Z.
Proof.
  intros serverResults.
  destruct (getAggregationStats_consistent serverResults)
    as [(_ & _ & _ & _ & _ & H) _].
  destruct (H eq_refl) as (average & Ha & [[Hnil _]|Hb]);
    [discriminate Hnil|].
  exists average. split; [exact Ha|exact Hb].
Defined.

(** *** The aggregated envelope *)

(** X25: for results whose capabilities are records as [MCPMethod]
    declares them, with a string for a name, the aggregation answers
    with an envelope that passes the forwarder's validation and has no
    id. It is the error envelope only when no backend succeeded, and
    then lists one result for each backend; otherwise its capabilities
    have pairwise distinct names and, unless [includeServerInfo] is off,
    it lists one result for each backend and its statistics count the
    backends, those that succeeded and the capabilities it returns; with
    [includeServerInfo] off it has the capabilities alone. *)
Theorem aggregateMethods_envelope round options totalTime :
  exists envelope,
    aggregateMethods round options totalTime = Some envelope
    /\ Forwarder.isValidMCPResponse envelope = true
    /\ prop envelope "id" = VUndefined
    /\ ((has_key "error" envelope = true
         /\ List.filter success (map collect round) = []
         /\ exists items,
              prop (error_data envelope) "serverResults" = VArr items
              /\ length items = length round)
        \/ (has_key "result" envelope = true
            /\ exists resolved,
                 prop (prop envelope "result") "methods"
                 = VArr (map method_value resolved)
                 /\ NoDup (map name resolved)
                 /\ if flag (includeServerInfo
                               (spread_aggregation defaultOptions options))
                    then
                      let stats :=
                        prop (prop envelope "result") "aggregationStats" in
                      (exists items,
                         prop (prop envelope "result") "serverResults"
                         = VArr items
                         /\ length items = length round)
                      /\ prop stats "totalServers"
                         = VNum (Z.of_nat (length round))
                      /\ prop stats "successfulServers"
                         = VNum (Z.of_nat (length (List.filter success
                                                     (map collect round))))
                      /\ length (List.filter success (map collect round))
                         <= length round
                      /\ prop stats "totalMethods"
                         = VNum (Z.of_nat (length resolved))
                    else
                      prop envelope "result"
                      = VObj [("methods", VArr (map method_value resolved))])).
Proof.
  rewrite aggregateMethods_eq. cbv zeta.
  destruct ((length (List.filter success (map collect round)) =? 0)
            && negb (flag (continueOnPartialFailure
                             (spread_aggregation defaultOptions options))))
    eqn:Hc.
  - eexists. split; [reflexivity|]. split; [reflexivity|].
    split; [reflexivity|]. left. split; [reflexivity|].
    apply andb_true_iff in Hc as [Hz _]. apply Nat.eqb_eq in Hz.
    split; [destruct (List.filter success (map collect round));
            [reflexivity|discriminate]|].
    eexists. split; [reflexivity|]. rewrite !length_map. reflexivity.
  - destruct (resolved_distinct (concat (map collected_methods round))
                (default Prefix
                   (conflictResolution
                      (spread_aggregation defaultOptions options))))
      as (resolved & -> & Hnd).
    eexists. split; [reflexivity|]. split; [reflexivity|].
    split; [reflexivity|]. right. split; [reflexivity|].
    exists resolved. split; [reflexivity|]. split; [exact Hnd|].
    destruct (flag (includeServerInfo
                      (spread_aggregation defaultOptions options))).
    + cbv zeta. split.
      * eexists. split; [reflexivity|]. rewrite !length_map. reflexivity.
      * split; [reflexivity|]. split; [reflexivity|].
        split; [|reflexivity].
        pose proof (filter_length_le success (map collect round)) as Hle.
        rewrite length_map in Hle. exact Hle.
    + reflexivity.
Qed.

(** *** Reading the capabilities of a reply *)

Lemma truthy_js_or a b : truthy (js_or a b) = truthy a || truthy b.
Proof. unfold js_or. destruct (truthy a) eqn:Ha; [exact Ha|reflexivity]. Qed.

(** A falsy value can be rendered. *)
Lemma to_string_falsy v : truthy v = false -> to_string v <> None.
Proof.
  destruct v as [| |[|]| | | |]; simpl; discriminate.
Qed.

(** A name that cannot be rendered is kept: nothing is put in its
    place. *)
Lemma to_string_name_or name fallback :
  to_string (js_or name (VStr fallback)) = None <-> to_string name = None.
Proof.
  unfold js_or. destruct (truthy name) eqn:Hn; [reflexivity|].
  split; [discriminate|]. intros H. destruct (to_string_falsy name Hn H).
Qed.

(** The entries on which the reading throws: [null] and absent ones, and
    those without a description whose name cannot be rendered. *)
Lemma throws_spec serverName tool :
  throws serverName tool = true
  <-> (tool = VNull \/ tool = VUndefined
       \/ (truthy (prop tool "description") = false
           /\ to_string (prop tool "name") = None)).
Proof.
  unfold throws, extract_tool, description_of.
  destruct (truthy (prop tool "description")) eqn:Hd.
  - destruct tool; (split; [try discriminate; auto|]);
      intros [H|[H|[H _]]]; try discriminate H; reflexivity.
  - pose proof (to_string_name_or (prop tool "name") "Tool") as Hn.
    destruct (to_string (js_or (prop tool "name") (VStr "Tool"))) as [text|].
    + destruct tool; (split; [try discriminate; auto|]);
        intros [H|[H|[_ H]]]; try discriminate H; try reflexivity;
        apply Hn in H; discriminate H.
    + destruct tool; split; auto; intros _; right; right;
        (split; [reflexivity|apply Hn; reflexivity]).
Qed.

Lemma extract_tool_truthy serverName tool m :
  extract_tool serverName tool = Some m ->
  truthy (prop m "name") = true
  /\ truthy (prop m "description") = true
  /\ truthy (prop m "inputSchema") = true.
Proof.
  intros H.
  assert (exists description,
            description_of serverName tool = Some description
            /\ m = VObj
                 [("name", js_or (prop tool "name") (VStr "unknown"));
                  ("description", description);
                  ("inputSchema",
                   js_or (prop tool "inputSchema")
                     (js_or (prop tool "parameters")
                        (js_or (prop tool "schema") defaultSchema)))])
    as (description & Hd & ->).
  { unfold extract_tool in H.
    destruct (description_of serverName tool) as [description|];
      destruct tool; try discriminate H; injection H as <-; eauto. }
  cbn [prop assoc String.eqb Ascii.eqb Bool.eqb].
  rewrite !truthy_js_or. split; [apply orb_true_r|]. split.
  - unfold description_of in Hd.
    destruct (truthy (prop tool "description")) eqn:Ht.
    + injection Hd as <-. exact Ht.
    + destruct (to_string _) as [[|c text]|]; [| |discriminate];
        injection Hd as <-; reflexivity.
  - rewrite !orb_true_r. reflexivity.
Qed.

Lemma extract_all_spec serverName tools :
  match extract_all serverName tools with
  | Some methods =>
      length methods = length tools
      /\ Forall (fun tool => throws serverName tool = false) tools
      /\ Forall (fun m => truthy (prop m "name") = true
                          /\ truthy (prop m "description") = true
                          /\ truthy (prop m "inputSchema") = true) methods
  | None => Exists (fun tool => throws serverName tool = true) tools
  end.
Proof.
  induction tools as [|tool rest IH]; simpl.
  - repeat constructor.
  - destruct (extract_tool serverName tool) as [m|] eqn:Ht.
    + destruct (extract_all serverName rest) as [ms|].
      * destruct IH as (Hl & Hn & Hall). split; [simpl; congruence|].
        split; constructor; try assumption.
        -- unfold throws. rewrite Ht. reflexivity.
        -- eapply extract_tool_truthy, Ht.
      * apply Exists_cons. right. exact IH.
    + apply Exists_cons. left. unfold throws. rewrite Ht. reflexivity.
Qed.

Lemma extractMethodsFromResponse_fails response serverName :
  extractMethodsFromResponse response serverName = None ->
  exists tool,
    find (throws serverName) (tools_of (prop response "result")) = Some tool
    /\ throws serverName tool = true.
Proof.
  unfold extractMethodsFromResponse.
  destruct (negb (truthy (prop response "result"))); [discriminate|].
  induction (tools_of (prop response "result")) as [|tool rest IH]; simpl;
    [discriminate|].
  unfold throws at 1. destruct (extract_tool serverName tool) as [m|] eqn:Ht.
  - destruct (extract_all serverName rest); [discriminate|].
    intros _. exact (IH eq_refl).
  - intros _. exists tool. split; [reflexivity|].
    unfold throws. rewrite Ht. reflexivity.
Qed.

(** X26: reading the capabilities of a reply fails exactly when the
    list it takes from a truthy result has an entry that is [null] or
    absent, or one without a description whose name cannot be rendered
    in the description made for it; an object cannot be rendered exactly
    when it has a property [toString] of its own. Otherwise a falsy
    result gives no capability, a truthy one gives one for each entry of
    its list, and every one has a name, a description and an input
    schema that are truthy. *)
Theorem extractMethodsFromResponse_records response serverName :
  let result := prop response "result" in
  let fails (tool : value) :=
    tool = VNull \/ tool = VUndefined
    \/ (truthy (prop tool "description") = false
        /\ to_string (prop tool "name") = None) in
  match extractMethodsFromResponse response serverName with
  | Some methods =>
      length methods
      = (if truthy result then length (tools_of result) else 0)
      /\ (if truthy result
          then Forall (fun tool => ~ fails tool) (tools_of result)
          else True)
      /\ Forall (fun m => truthy (prop m "name") = true
                          /\ truthy (prop m "description") = true
                          /\ truthy (prop m "inputSchema") = true) methods
  | None =>
      truthy result = true /\ Exists fails (tools_of result)
  end
  /\ forall fields,
       to_string (VObj fields) = None <-> has_key "toString" (VObj fields) = true.
Proof.
  cbv zeta. split.
  - unfold extractMethodsFromResponse.
    destruct (truthy (prop response "result")) eqn:Hr; simpl.
    + pose proof (extract_all_spec serverName (tools_of (prop response "result")))
        as H.
      destruct (extract_all _ _) as [methods|].
      * destruct H as (Hl & Hn & Hall). split; [exact Hl|]. split; [|exact Hall].
        eapply Forall_impl; [exact Hn|]. intros tool Ht Hf.
        apply (throws_spec serverName) in Hf. congruence.
      * split; [reflexivity|].
        eapply Exists_impl; [exact H|]. intros tool Ht.
        exact (proj1 (throws_spec serverName tool) Ht).
    + split; [reflexivity|]. split; [exact I|constructor].
  - intros fields. simpl. destruct (assoc "toString" fields);
      split; congruence.
Qed.

End AggregatorProps.

(** * Properties of the query of one backend *)

Module ServerQueryProps.

Import Forwarder ServerQuery.
Local Open Scope Z_scope.

Section Query.

Variable typeErrorMessage : value -> string.
Variable backend : Backend.
Variable serverName : string.
Variable serverUrl : string.
Variable tmo : Z.

Lemma attempt_loop_S q opts r attempt le w :
  attempt_loop backend serverUrl q opts (S r) attempt le w
  = attempt_body backend serverUrl q opts
      (attempt_loop backend serverUrl q opts r (attempt + 1)) attempt w.
Proof. reflexivity. Qed.

Lemma query_call_posts methodName w :
  let w' := snd (forwardRequest backend serverUrl
                   (query_request serverName methodName w)
                   (query_options tmo) w) in
  (posts (trace w) <= posts (trace w') <= posts (trace w) + 3)%nat.
Proof.
  cbv zeta.
  pose proof (ForwarderFacts.forwardRequest_attempts_bound backend serverUrl
                (query_request serverName methodName w) (query_options tmo) w)
    as [H1 H2].
  unfold attempts_made in H2. simpl in H2.
  change (Z.to_nat 3) with 3%nat in H2. lia.
Qed.

Lemma query_loop_spec names : forall response w,
  let '(response', w') :=
    query_loop backend serverName serverUrl tmo names response w in
  (posts (trace w) <= posts (trace w')
   <= posts (trace w) + 3 * length names)%nat
  /\ (response' = response /\ names = []
      \/ exists r, response' = Some r
                   /\ Forwarder.isValidMCPResponse r = true).
Proof.
  induction names as [|methodName rest IH]; intros response w.
  - simpl. split; [lia|]. left. split; reflexivity.
  - cbn [query_loop].
    pose proof (query_call_posts methodName w) as Hp. cbv zeta in Hp.
    pose proof (ForwarderFacts.forwardRequest_valid backend serverUrl
                  (query_request serverName methodName w) (query_options tmo) w)
      as Hv.
    destruct (forwardRequest backend serverUrl
                (query_request serverName methodName w) (query_options tmo) w)
      as [r w1]. simpl in Hp, Hv.
    destruct (truthy (prop r "result")).
    + split; [simpl; lia|]. right. exists r. split; [reflexivity|exact Hv].
    + specialize (IH (Some r) w1).
      destruct (query_loop backend serverName serverUrl tmo rest (Some r) w1)
        as [response' w'].
      destruct IH as [Hq Hr]. split; [simpl; lia|]. right.
      destruct Hr as [[-> _]|Hr]; [|exact Hr].
      exists r. split; [reflexivity|exact Hv].
Qed.

(** X27: one query of a backend makes at most nine POSTs, three for
    each of the three method names it tries. Its result names the
    server and the time the query took, and is either a success with a
    list of capabilities and no error, or a failure with an error and no
    list; the error of a failure is [No valid response from] the server,
    never what the forwarder reported, or the engine's message for the
    entry the reading throws on: one that is [null] or absent, or one
    without a description whose name cannot be rendered. *)
Theorem getMethodsFromServer_result w :
  let '(result, w') :=
    getMethodsFromServer typeErrorMessage backend serverName serverUrl tmo w in
  (posts (trace w) <= posts (trace w') <= posts (trace w) + 9)%nat
  /\ ServerQuery.serverName result = serverName
  /\ responseTime result = now w' - now w
  /\ ((success result = true
       /\ error result = None
       /\ exists extracted, methods result = Some extracted)
      \/ (success result = false
          /\ methods result = None
          /\ (error result = Some ("No valid response from " ++ serverName)%string
              \/ exists tool,
                   (tool = VNull \/ tool = VUndefined
                    \/ (truthy (prop tool "description") = false
                        /\ Discovery.to_string (prop tool "name") = None))
                   /\ error result = Some (typeErrorMessage tool)))).
Proof.
  unfold getMethodsFromServer.
  pose proof (query_loop_spec methodNames None w) as H.
  destruct (query_loop backend serverName serverUrl tmo methodNames None w)
    as [response w'].
  destruct H as [Hp Hr]. simpl in Hp.
  destruct Hr as [[_ [=]]|(r & -> & Hv)].
  destruct (truthy (prop r "error")).
  - simpl. split; [lia|]. repeat split. right. repeat split. left. reflexivity.
  - pose proof (AggregatorProps.extractMethodsFromResponse_fails r serverName)
      as He.
    destruct (Discovery.extractMethodsFromResponse r serverName) as [ms|].
    + simpl. split; [lia|]. repeat split. left. repeat split. eauto.
    + simpl. split; [lia|]. repeat split. right. repeat split. right.
      destruct He as (tool & Hf & Hn); [reflexivity|].
      rewrite Hf. simpl. exists tool. split; [|reflexivity].
      exact (proj1 (AggregatorProps.throws_spec serverName tool) Hn).
Qed.

Lemma query_loop_failing n names : forall response w,
  call_fails backend serverName serverUrl tmo n ->
  names <> [] ->
  exists r w',
    query_loop backend serverName serverUrl tmo names response w = (Some r, w')
    /\ truthy (prop r "error") = true
    /\ posts (trace w') = (posts (trace w) + n * length names)%nat.
Proof.
  intros response w Hcall. revert response w.
  induction names as [|methodName rest IH]; intros response w Hne;
    [contradiction|].
  cbn [query_loop].
  destruct (Hcall methodName w) as (le & d & w1 & -> & Hp).
  change (truthy (prop (ForwarderTerms.failure_envelope serverUrl
                          (query_request serverName methodName w)
                          (query_options tmo) le d) "result")) with false.
  cbv iota. destruct rest as [|name2 rest].
  - simpl. eexists _, w1. split; [reflexivity|]. split; [reflexivity|]. lia.
  - destruct (IH (Some (ForwarderTerms.failure_envelope serverUrl
                          (query_request serverName methodName w)
                          (query_options tmo) le d)) w1 ltac:(discriminate))
      as (r & w' & -> & Hr & Hp').
    exists r, w'. split; [reflexivity|]. split; [exact Hr|].
    rewrite Hp', Hp. simpl. lia.
Qed.

Lemma getMethodsFromServer_failing n w :
  call_fails backend serverName serverUrl tmo n ->
  let '(result, w') :=
    getMethodsFromServer typeErrorMessage backend serverName serverUrl tmo w in
  attempts_made w w' = (3 * n)%nat
  /\ success result = false
  /\ error result = Some ("No valid response from " ++ serverName)%string.
Proof.
  intros Hcall. unfold getMethodsFromServer.
  destruct (query_loop_failing n methodNames None w Hcall ltac:(discriminate))
    as (r & w' & -> & -> & Hp).
  simpl. unfold attempts_made. rewrite Hp. simpl. split; [lia|].
  split; reflexivity.
Qed.

(** X28: when the backend is down, every POST being rejected without a
    status from 400 to 499, the query makes nine POSTs; when every POST
    is answered with a status from 400 to 499, it makes three, one for
    each method name. Either way the result is a failure whose error is
    [No valid response from] the server. *)
Theorem getMethodsFromServer_backend_failing w :
  ((forall n u q, exists e,
      fst (backend n u q) = Rejected e
      /\ (isAxiosError e && is_client_error e) = false) ->
   let '(result, w') :=
     getMethodsFromServer typeErrorMessage backend serverName serverUrl tmo w in
   attempts_made w w' = 9%nat
   /\ success result = false
   /\ error result = Some ("No valid response from " ++ serverName)%string)
  /\ ((forall n u q, exists e,
         fst (backend n u q) = Rejected e
         /\ isAxiosError e = true /\ is_client_error e = true) ->
      let '(result, w') :=
        getMethodsFromServer typeErrorMessage backend serverName serverUrl tmo w in
      attempts_made w w' = 3%nat
      /\ success result = false
      /\ error result = Some ("No valid response from " ++ serverName)%string).
Proof.
  split; intros Hb.
  - apply (getMethodsFromServer_failing 3). intros methodName w0.
    rewrite ForwarderProps.forwardRequest_unfold.
    destruct (attempt_loop backend serverUrl
                (query_request serverName methodName w0)
                (spread defaultOptions (query_options tmo))
                (Z.to_nat (num (maxRetries
                                  (spread defaultOptions (query_options tmo)))))
                1 None w0) as [x w1] eqn:Hl.
    apply ForwarderFacts.attempt_loop_exhausts in Hl
      as (Hp & le' & -> & _); [|intros k; apply Hb].
    exists le', (now w1 - now w0), w1. split; [reflexivity|exact Hp].
  - apply (getMethodsFromServer_failing 1). intros methodName w0.
    rewrite ForwarderProps.forwardRequest_unfold.
    destruct (Hb (posts (trace w0)) serverUrl
                (query_request serverName methodName w0)) as (e & He & Ha & Hc).
    change (Z.to_nat (num (maxRetries
                             (spread defaultOptions (query_options tmo)))))
      with 3%nat.
    rewrite attempt_loop_S.
    destruct (ForwarderProps.attempt_body_client_error backend serverUrl
                (query_request serverName methodName w0)
                (spread defaultOptions (query_options tmo))
                (attempt_loop backend serverUrl
                   (query_request serverName methodName w0)
                   (spread defaultOptions (query_options tmo)) 2 (1 + 1))
                1 w0 e) as (w1 & -> & Hp).
    { unfold attempt_outcome. rewrite Nat.add_0_r. exact He. }
    { exact Ha. }
    { exact Hc. }
    exists (Some e), (now w1 - now w0), w1. split; [reflexivity|lia].
Qed.

(** X29: when the first POST is answered with a valid envelope whose
    result is truthy, the query makes no other POST and reads the
    capabilities off that envelope: it succeeds with them, or fails when
    reading them fails. *)
Theorem getMethodsFromServer_first_reply w resp :
  attempt_outcome backend w serverUrl
    (query_request serverName "tools/list" w) 0 = Resolved resp ->
  isValidMCPResponse (data resp) = true ->
  truthy (prop (data resp) "result") = true ->
  let '(result, w') :=
    getMethodsFromServer typeErrorMessage backend serverName serverUrl tmo w in
  attempts_made w w' = 1%nat
  /\ match Discovery.extractMethodsFromResponse (data resp) serverName with
     | Some extracted =>
         success result = true /\ methods result = Some extracted
     | None => success result = false /\ methods result = None
     end.
Proof.
  intros Ho Hv Hr. unfold getMethodsFromServer, methodNames.
  cbn [query_loop]. rewrite ForwarderProps.forwardRequest_unfold.
  change (Z.to_nat (num (maxRetries
                           (spread defaultOptions (query_options tmo)))))
    with 3%nat.
  rewrite attempt_loop_S.
  destruct (ForwarderProps.attempt_body_valid backend serverUrl
              (query_request serverName "tools/list" w)
              (spread defaultOptions (query_options tmo))
              (attempt_loop backend serverUrl
                 (query_request serverName "tools/list" w)
                 (spread defaultOptions (query_options tmo)) 2 (1 + 1))
              1 w resp Ho Hv) as (w1 & -> & Hp).
  rewrite Hr.
  assert (prop (data resp) "error" = VUndefined) as ->.
  { apply ForwarderFacts.isValidMCPResponse_sound in Hv as [Hx _].
    unfold exactly_one in Hx. unfold has_key, prop in *.
    destruct (data resp) as [| | | | | |fields]; try reflexivity.
    destruct (assoc "result" fields); [|discriminate Hr].
    destruct (assoc "error" fields); [discriminate Hx|reflexivity]. }
  simpl truthy. cbv iota.
  destruct (Discovery.extractMethodsFromResponse (data resp) serverName);
    simpl; unfold attempts_made; (split; [lia|split; reflexivity]).
Qed.

End Query.

Lemma getMethodsFromServer_backend_failing_witness :
  let run :=
    getMethodsFromServer (fun _ => "Cannot read properties of null")
      (Samples.always (Rejected Samples.networkError))
      "files" "http://localhost:8001" 30000 Samples.w0 in
  attempts_made Samples.w0 (snd run) = 9%nat
  /\ error (fst run) = Some "No valid response from files".
Proof.
  intros run.
  pose proof (proj1 (getMethodsFromServer_backend_failing
                       (fun _ => "Cannot read properties of null")
                       (Samples.always (Rejected Samples.networkError))
                       "files" "http://localhost:8001" 30000 Samples.w0)) as H.
  fold run in H. destruct run as [result w'].
  destruct H as (Hp & _ & He).
  - intros n u q. exists Samples.networkError. split; reflexivity.
  - split; [exact Hp|exact He].
Defined.

Lemma getMethodsFromServer_first_reply_witness :
  let reply :=
    createMCPResponse
      (VObj [("tools", VArr [VObj [("name", VStr "read_file")]])]) None in
  let run :=
    getMethodsFromServer (fun _ => "Cannot read properties of null")
      (Samples.always (Resolved {| status := 200; data := reply |}))
      "files" "http://localhost:8001" 30000 Samples.w0 in
  attempts_made Samples.w0 (snd run) = 1%nat.
Proof.
  intros reply run.
  pose proof (getMethodsFromServer_first_reply
                (fun _ => "Cannot read properties of null")
                (Samples.always (Resolved {| status := 200; data := reply |}))
                "files" "http://localhost:8001" 30000 Samples.w0
                {| status := 200; data := reply |}
                eq_refl eq_refl eq_refl) as H.
  fold run in H. destruct run as [result w']. exact (proj1 H).
Defined.

End ServerQueryProps.

(** * More properties of the gateway *)

Module GatewayProps.

Import Forwarder Router Gateway.
Local Open Scope Z_scope.

(** Where a routed request goes: to a configured server, or nowhere
    when the name is that of an inherited member. *)
Lemma routeRequest_routed config servers request requestPath headers :
  let r := routeRequest config servers request requestPath headers in
  success r = true ->
  (exists server,
     assoc (text_of (serverName r)) servers = Some server
     /\ serverUrl r = Some (url server))
  \/ (assoc (text_of (serverName r)) servers = None
      /\ inherited (text_of (serverName r)) = true
      /\ serverUrl r = None).
Proof.
  cbv zeta. unfold routeRequest, route, getServerUrl.
  destruct (dispatch config requestPath headers) as [e|target];
    [discriminate|].
  destruct (or_default config target) as [n|]; [|discriminate].
  destruct (assoc (text_of n) servers) as [server|] eqn:Ha.
  - intros _. left. exists server. split; [exact Ha|reflexivity].
  - destruct (inherited (text_of n)) eqn:Hi; [|discriminate].
    intros _. right. simpl. auto.
Qed.

(** X30: a request other than the discovery call takes one of three
    ways. Its routing failed: the reply is the error envelope with
    -32601 and no POST is made. Or it is routed to a configured server
    and handed to the forwarder without options: the reply passes
    validation, and the POSTs, at most three, all carry the request as
    it came to the address of that server, with the default timeout of
    30000 and waits of 1000 and 2000 between them. Or the name it is
    routed by is that of an inherited member and of no configured
    server: the forwarder is then called without an address. *)
Theorem handleRequest_forwarded
    aggregate backend unaddressed config request requestPath headers w :
  method request <> "get_methods" ->
  let run :=
    handleRequest aggregate backend unaddressed config request requestPath
      headers w in
  let routed :=
    routeRequest (routing config) (servers config) request requestPath
      headers in
  (success routed = false
   /\ isValidMCPResponse (fst run) = true
   /\ error_code (fst run) = Some (-32601)
   /\ snd run = w)
  \/ (success routed = true
      /\ exists server k,
           assoc (text_of (serverName routed)) (servers config) = Some server
           /\ run = forwardRequest backend (url server) request noOptions w
           /\ isValidMCPResponse (fst run) = true
           /\ (k < 3)%nat
           /\ trace (snd run)
              = (trace w
                 ++ waits_trace (url server) request 30000 1000 k 1)%list)
  \/ (success routed = true
      /\ assoc (text_of (serverName routed)) (servers config) = None
      /\ inherited (text_of (serverName routed)) = true
      /\ serverUrl routed = None
      /\ run = unaddressed request w).
Proof.
  intros Hm. cbv zeta. unfold handleRequest.
  destruct (String.eqb_spec (method request) "get_methods"); [contradiction|].
  pose proof (routeRequest_routed (routing config) (servers config) request
                requestPath headers) as Hr. cbv zeta in Hr.
  destruct (success (routeRequest (routing config) (servers config) request
                       requestPath headers)) eqn:Hs; simpl.
  - right. destruct (Hr eq_refl) as [(server & Ha & Hu)|(Ha & Hi & Hu)];
      rewrite Hu.
    + left. split; [reflexivity|].
      destruct (ForwarderFacts.forwardRequest_trace backend (url server) request
                  noOptions w) as [[H0 _]|(k & Hk & Ht)].
      * simpl in H0. lia.
      * exists server, k. split; [exact Ha|]. split; [reflexivity|].
        split; [apply ForwarderFacts.forwardRequest_valid|].
        split; [exact Hk|exact Ht].
    + right. repeat split; assumption.
  - left. repeat split.
Qed.

Lemma handleRequest_forwarded_witness :
  let config :=
    {| servers := [("files", {| name := "files";
                                url := "http://localhost:8001";
                                timeout := None; maxRetries := None;
                                healthCheckPath := None |})];
       routing := {| strategy := "prefix";
                     rules := [("files", "files")];
                     defaultServer := None |} |} in
  isValidMCPResponse
    (fst (handleRequest (fun _ w => (inr VNull, w))
            (Samples.always (Rejected Samples.networkError))
            (fun _ w => (VNull, w))
            config Samples.req (Some "/files/read") None Samples.w0))
  = true.
Proof.
  intros config.
  destruct (handleRequest_forwarded (fun _ w => (inr VNull, w))
              (Samples.always (Rejected Samples.networkError))
              (fun _ w => (VNull, w))
              config Samples.req (Some "/files/read") None Samples.w0)
    as [(_ & H & _)|[(_ & server & k & _ & _ & H & _)|(_ & H & _)]].
  - discriminate.
  - exact H.
  - exact H.
  - discriminate H.
Defined.

End GatewayProps.
